(** * A rules engine for chess: boards, move execution and reversal,
    attack queries, legal-move generation, game state and end conditions.

    The development embeds the TypeScript sources of the engine as Rocq
    functions.  JavaScript objects that the engine mutates in place (the
    board during a probe, the two attack caches, the game state) are
    passed explicitly from one step to the next.  The first part holds the
    embedding, file by file; the second part the properties: boards as
    grids, the bounded loops, making and unmaking moves, the generation
    pass, the snapshot stack, the persistent attack cache, and the engine
    run on concrete games. *)

From stdpp Require Import gmap list pretty.
From Stdlib Require Import ZArith Lia Ascii.

Open Scope Z_scope.

(* ===================================================================== *)
(** ** types/Piece.ts, types/Board.ts, types/Move.ts                      *)
(* ===================================================================== *)

Inductive PieceType := pawn | knight | bishop | rook | queen | king.
Inductive PieceColor := white | black.

(** [hasMoved] is optional in the interface; every piece the engine creates
    (createInitialBoard and the copies taken from it) carries the flag, and
    the sources only test its truthiness or copy it. *)
Record Piece := mkPiece {
  p_type : PieceType;
  p_color : PieceColor;
  p_hasMoved : bool
}.

Record BoardCoord := mkCoord { row : Z; col : Z }.

(** [Piece | null] *)
Abbreviation Square := (option Piece) (only parsing).
(** [(Piece | null)[][]] *)
Abbreviation BoardState := (list (list (option Piece))) (only parsing).

Inductive CastleSide := kingside | queenside.

(** [isEnPassant] is an optional boolean, only tested for truthiness:
    an absent flag is [false]. *)
Record Move := mkMove {
  m_from : BoardCoord;
  m_to : BoardCoord;
  m_piece : Piece;
  m_captured : option Piece;
  m_isEnPassant : bool;
  m_isCastling : option CastleSide;
  m_promotion : option PieceType
}.

Global Instance PieceType_eq_dec : EqDecision PieceType.
Proof. solve_decision. Defined.
Global Instance PieceColor_eq_dec : EqDecision PieceColor.
Proof. solve_decision. Defined.
Global Instance Piece_eq_dec : EqDecision Piece.
Proof. solve_decision. Defined.
Global Instance BoardCoord_eq_dec : EqDecision BoardCoord.
Proof. solve_decision. Defined.
Global Instance CastleSide_eq_dec : EqDecision CastleSide.
Proof. solve_decision. Defined.
Global Instance Move_eq_dec : EqDecision Move.
Proof. solve_decision. Defined.

Definition typeIs (t u : PieceType) : bool := bool_decide (t = u).
Definition colorIs (a b : PieceColor) : bool := bool_decide (a = b).

(** [color === 'white' ? 'black' : 'white'] *)
Definition opponent (c : PieceColor) : PieceColor :=
  match c with white => black | black => white end.

(** The string values behind the two union types. *)
Definition typeName (t : PieceType) : string :=
  match t with
  | pawn => "pawn" | knight => "knight" | bishop => "bishop"
  | rook => "rook" | queen => "queen" | king => "king"
  end.
Definition colorName (c : PieceColor) : string :=
  match c with white => "white" | black => "black" end.

(* ===================================================================== *)
(** ** config/GameConfig.ts, config/BoardConfig.ts                        *)
(* ===================================================================== *)

Module GAME_CONFIG.
Definition kingsideKingCol : Z := 6.
Definition queensideKingCol : Z := 2.
Definition kingsideRookFromCol : Z := 7.
Definition kingsideRookToCol : Z := 5.
Definition queensideRookFromCol : Z := 0.
Definition queensideRookToCol : Z := 3.
Definition promotionRank (c : PieceColor) : Z :=
  match c with white => 7 | black => 0 end.
End GAME_CONFIG.

Module BOARD_CONFIG.
Definition pieceOrder : list PieceType :=
  [rook; knight; bishop; queen; king; bishop; knight; rook].
Definition pawnRank (c : PieceColor) : Z :=
  match c with white => 1 | black => 6 end.
Definition pieceRank (c : PieceColor) : Z :=
  match c with white => 0 | black => 7 end.
End BOARD_CONFIG.

(* ===================================================================== *)
(** ** Indexing the board                                                 *)
(* ===================================================================== *)

(** [board[r][c]].  A column outside the row reads [undefined] in the
    source, which the callers treat like [null]; a row outside the board
    makes the source raise a TypeError.  The engine only indexes squares of
    the grid; statements about arbitrary coordinates carry range
    hypotheses. *)
Definition idx (board : BoardState) (r c : Z) : Square :=
  if (0 <=? r) && (0 <=? c) then
    match board !! Z.to_nat r with
    | Some line =>
        match line !! Z.to_nat c with
        | Some sq => sq
        | None => None
        end
    | None => None
    end
  else None.

(** [board[r][c] = sq], an in-place store, for a square of the grid. *)
Definition upd (board : BoardState) (r c : Z) (sq : Square) : BoardState :=
  if (0 <=? r) && (0 <=? c) then
    match board !! Z.to_nat r with
    | Some line => <[Z.to_nat r := <[Z.to_nat c := sq]> line]> board
    | None => board
    end
  else board.

Definition at_ (board : BoardState) (p : BoardCoord) : Square :=
  idx board (row p) (col p).
Definition put (board : BoardState) (p : BoardCoord) (sq : Square) : BoardState :=
  upd board (row p) (col p) sq.

(** Boards are 8x8 grids. *)
Definition wf_board (board : BoardState) : Prop :=
  length board = 8%nat /\ Forall (fun line => length line = 8%nat) board.

(* ===================================================================== *)
(** ** utils/CoordinateUtils.ts, utils/BoardUtils.ts                      *)
(* ===================================================================== *)

Definition isValidCoord (coord : BoardCoord) : bool :=
  (0 <=? row coord) && (row coord <=? 7) && (0 <=? col coord) && (col coord <=? 7).

Definition range8 : list Z := [0; 1; 2; 3; 4; 5; 6; 7].

(** [for (const x of xs) { ... return y; }]: the result of the first round
    that returns, [None] when the loop runs to its end. *)
Fixpoint firstSome {A B} (xs : list A) (body : A -> option B) : option B :=
  match xs with
  | [] => None
  | x :: rest =>
      match body x with
      | Some y => Some y
      | None => firstSome rest body
      end
  end.

Module BoardUtils.

(** Rows 0 and 7 hold the pieces in [pieceOrder], rows 1 and 6 the pawns;
    every piece starts with [hasMoved: false]. *)
Definition createInitialBoard : BoardState :=
  let empty : BoardState := replicate 8 (replicate 8 None) in
  let withPawns :=
    foldl (fun b i =>
             upd (upd b (BOARD_CONFIG.pawnRank white) i (Some (mkPiece pawn white false)))
                 (BOARD_CONFIG.pawnRank black) i (Some (mkPiece pawn black false)))
          empty range8 in
  foldl (fun b i =>
           match BOARD_CONFIG.pieceOrder !! Z.to_nat i with
           | Some t =>
               upd (upd b (BOARD_CONFIG.pieceRank white) i (Some (mkPiece t white false)))
                   (BOARD_CONFIG.pieceRank black) i (Some (mkPiece t black false))
           | None => b
           end)
        withPawns range8.

(** [{ ...piece }] *)
Definition copyPiece (p : Piece) : Piece :=
  mkPiece (p_type p) (p_color p) (p_hasMoved p).

(** [board.map(row => row.map(piece => piece ? { ...piece } : null))] *)
Definition cloneBoard (board : BoardState) : BoardState :=
  map (fun line => map (fun sq => match sq with
                                  | Some p => Some (copyPiece p)
                                  | None => None
                                  end) line) board.

Definition isValidPosition (pos : BoardCoord) : bool :=
  (0 <=? row pos) && (row pos <=? 7) && (0 <=? col pos) && (col pos <=? 7).

(** [null] for a position outside the board. *)
Definition getPieceAt (board : BoardState) (pos : BoardCoord) : Square :=
  if negb (isValidPosition pos) then None else at_ board pos.

(** Works on a deep copy and returns the copy; a position outside the board
    leaves the copy as it is. *)
Definition setPieceAt (board : BoardState) (pos : BoardCoord) (piece : Square)
    : BoardState :=
  let newBoard := cloneBoard board in
  if isValidPosition pos then put newBoard pos piece else newBoard.

(** Row-major scan that returns at the first piece of the type and colour. *)
Definition findPiece (board : BoardState) (pieceType : PieceType) (color : PieceColor)
    : option BoardCoord :=
  firstSome range8 (fun r =>
    firstSome range8 (fun c =>
      match idx board r c with
      | Some piece =>
          if typeIs (p_type piece) pieceType && colorIs (p_color piece) color
          then Some (mkCoord r c) else None
      | None => None
      end)).

(** Row-major scan collecting the pieces of one colour with their squares. *)
Definition getPiecesByColor (board : BoardState) (c : PieceColor)
  : list (Piece * BoardCoord) :=
  flat_map (fun r =>
    flat_map (fun cl =>
      match idx board r cl with
      | Some piece => if colorIs (p_color piece) c then [(piece, mkCoord r cl)] else []
      | None => []
      end) range8) range8.

End BoardUtils.

(* ===================================================================== *)
(** ** rules/validators                                                   *)
(* ===================================================================== *)

(** The squares met when leaving [pos] in direction [(dRow, dCol)] until the
    edge of the board: the [while (isValidCoord(currentPos))] loops of the
    rook and bishop validators.  A ray holds at most seven squares, so
    eight rounds always reach the edge. *)
Fixpoint ray (rounds : nat) (pos : BoardCoord) (dRow dCol : Z) : list BoardCoord :=
  match rounds with
  | O => []
  | S n =>
      if isValidCoord pos
      then pos :: ray n (mkCoord (row pos + dRow) (col pos + dCol)) dRow dCol
      else []
  end.

Definition rays (from : BoardCoord) (directions : list (Z * Z)) : list BoardCoord :=
  flat_map (fun d => ray 8 (mkCoord (row from + fst d) (col from + snd d)) (fst d) (snd d))
           directions.

(** [isPathClear]: walks from the square after [from] towards [to] and
    fails on the first occupied square strictly between them.  The callers
    only use it for squares on a common rank, file or diagonal, where the
    loop runs [max |dRow| |dCol| - 1] times. *)
Fixpoint pathLoop (rounds : nat) (board : BoardState) (currentRow currentCol : Z)
    (to : BoardCoord) (dRow dCol : Z) : bool :=
  if negb (bool_decide (currentRow = row to)) || negb (bool_decide (currentCol = col to)) then
    match rounds with
    | O => true
    | S n =>
        if bool_decide (idx board currentRow currentCol <> None) then false
        else pathLoop n board (currentRow + dRow) (currentCol + dCol) to dRow dCol
    end
  else true.

Definition isPathClear (board : BoardState) (from to : BoardCoord) : bool :=
  let dRow := Z.sgn (row to - row from) in
  let dCol := Z.sgn (col to - col from) in
  pathLoop (Z.to_nat (Z.max (Z.abs (row to - row from)) (Z.abs (col to - col from))))
           board (row from + dRow) (col from + dCol) to dRow dCol.

Module PawnValidator.
Definition getPotentialMoves (color : PieceColor) (from : BoardCoord) : list BoardCoord :=
  let direction := if colorIs color white then 1 else -1 in
  let startRow := if colorIs color white then 1 else 6 in
  let oneStep := mkCoord (row from + direction) (col from) in
  let twoSteps := mkCoord (row from + 2 * direction) (col from) in
  let captureLeft := mkCoord (row from + direction) (col from - 1) in
  let captureRight := mkCoord (row from + direction) (col from + 1) in
  (if isValidCoord oneStep then [oneStep] else []) ++
  (if bool_decide (row from = startRow)
   then (if isValidCoord twoSteps then [twoSteps] else []) else []) ++
  (if isValidCoord captureLeft then [captureLeft] else []) ++
  (if isValidCoord captureRight then [captureRight] else []).

Definition isValidMove (color : PieceColor) (board : BoardState) (from to : BoardCoord) : bool :=
  let direction := if colorIs color white then 1 else -1 in
  let startRow := if colorIs color white then 1 else 6 in
  let rowDiff := row to - row from in
  let colDiff := Z.abs (col to - col from) in
  let destinationPiece := at_ board to in
  if bool_decide (rowDiff = direction) && bool_decide (colDiff = 0)
     && bool_decide (destinationPiece = None) then true
  else if bool_decide (row from = startRow) && bool_decide (rowDiff = 2 * direction)
          && bool_decide (colDiff = 0) && bool_decide (destinationPiece = None)
          && bool_decide (idx board (row from + direction) (col from) = None) then true
  else if bool_decide (rowDiff = direction) && bool_decide (colDiff = 1)
          && match destinationPiece with
             | Some d => negb (colorIs (p_color d) color)
             | None => false
             end then true
  else false.

Definition isPromotionSquare (color : PieceColor) (to : BoardCoord) : bool :=
  let promotionRank := if colorIs color white then 7 else 0 in
  bool_decide (row to = promotionRank).
End PawnValidator.

Module KnightValidator.
Definition potentialOffsets : list (Z * Z) :=
  [(1, 2); (1, -2); (-1, 2); (-1, -2); (2, 1); (2, -1); (-2, 1); (-2, -1)].

Definition getPotentialMoves (from : BoardCoord) : list BoardCoord :=
  flat_map (fun offset =>
              let to := mkCoord (row from + fst offset) (col from + snd offset) in
              if isValidCoord to then [to] else [])
           potentialOffsets.

Definition isValidMove (_board : BoardState) (from to : BoardCoord) : bool :=
  let rowDiff := Z.abs (row to - row from) in
  let colDiff := Z.abs (col to - col from) in
  (bool_decide (rowDiff = 1) && bool_decide (colDiff = 2))
  || (bool_decide (rowDiff = 2) && bool_decide (colDiff = 1)).
End KnightValidator.

Module BishopValidator.
Definition directions : list (Z * Z) := [(1, 1); (1, -1); (-1, 1); (-1, -1)].

Definition getPotentialMoves (from : BoardCoord) : list BoardCoord := rays from directions.

Definition isValidMove (board : BoardState) (from to : BoardCoord) : bool :=
  if negb (bool_decide (Z.abs (row to - row from) = Z.abs (col to - col from)))
  then false
  else isPathClear board from to.
End BishopValidator.

Module RookValidator.
Definition directions : list (Z * Z) := [(1, 0); (-1, 0); (0, 1); (0, -1)].

Definition getPotentialMoves (from : BoardCoord) : list BoardCoord := rays from directions.

Definition isValidMove (board : BoardState) (from to : BoardCoord) : bool :=
  if negb (bool_decide (row from = row to)) && negb (bool_decide (col from = col to))
  then false
  else isPathClear board from to.
End RookValidator.

Module QueenValidator.
Definition getPotentialMoves (from : BoardCoord) : list BoardCoord :=
  BishopValidator.getPotentialMoves from ++ RookValidator.getPotentialMoves from.

Definition isValidMove (board : BoardState) (from to : BoardCoord) : bool :=
  BishopValidator.isValidMove board from to || RookValidator.isValidMove board from to.
End QueenValidator.

Module KingValidator.
Definition getPotentialMoves (from : BoardCoord) : list BoardCoord :=
  flat_map (fun dRow =>
    flat_map (fun dCol =>
      if bool_decide (dRow = 0) && bool_decide (dCol = 0) then []
      else
        let to := mkCoord (row from + dRow) (col from + dCol) in
        if isValidCoord to then [to] else [])
      [-1; 0; 1])
    [-1; 0; 1].

Definition isValidMove (_board : BoardState) (from to : BoardCoord) : bool :=
  let rowDiff := Z.abs (row to - row from) in
  let colDiff := Z.abs (col to - col from) in
  (rowDiff <=? 1) && (colDiff <=? 1).
End KingValidator.

(** [ValidatorFactory.getValidatorCached(piece)]: the validator is chosen by
    the piece type, the pawn validator also by colour.  A validator is the
    pair of its two methods. *)
Record PieceValidator := mkValidator {
  getPotentialMoves : BoardCoord -> list BoardCoord;
  isValidMove : BoardState -> BoardCoord -> BoardCoord -> bool
}.

Module ValidatorFactory.
Definition getValidatorCached (piece : Piece) : PieceValidator :=
  match p_type piece with
  | pawn =>
      if colorIs (p_color piece) white
      then mkValidator (PawnValidator.getPotentialMoves white) (PawnValidator.isValidMove white)
      else mkValidator (PawnValidator.getPotentialMoves black) (PawnValidator.isValidMove black)
  | knight => mkValidator KnightValidator.getPotentialMoves KnightValidator.isValidMove
  | bishop => mkValidator BishopValidator.getPotentialMoves BishopValidator.isValidMove
  | rook => mkValidator RookValidator.getPotentialMoves RookValidator.isValidMove
  | queen => mkValidator QueenValidator.getPotentialMoves QueenValidator.isValidMove
  | king => mkValidator KingValidator.getPotentialMoves KingValidator.isValidMove
  end.

(** [getValidator(piece)] builds a new validator on every call; the pawn
    validator is built for the colour of the piece. *)
Definition getValidator (piece : Piece) : PieceValidator :=
  match p_type piece with
  | pawn => mkValidator (PawnValidator.getPotentialMoves (p_color piece))
                        (PawnValidator.isValidMove (p_color piece))
  | knight => mkValidator KnightValidator.getPotentialMoves KnightValidator.isValidMove
  | bishop => mkValidator BishopValidator.getPotentialMoves BishopValidator.isValidMove
  | rook => mkValidator RookValidator.getPotentialMoves RookValidator.isValidMove
  | queen => mkValidator QueenValidator.getPotentialMoves QueenValidator.isValidMove
  | king => mkValidator KingValidator.getPotentialMoves KingValidator.isValidMove
  end.
End ValidatorFactory.

(* ===================================================================== *)
(** ** rules/special-moves                                                *)
(* ===================================================================== *)

Definition isKingside (side : CastleSide) : bool :=
  match side with kingside => true | queenside => false end.

(** [piece.hasMoved = true] on the object stored in a square. *)
Definition setMoved (piece : Piece) (flag : bool) : Piece :=
  mkPiece (p_type piece) (p_color piece) flag.
(** [piece.type = t] on the object stored in a square. *)
Definition setType (piece : Piece) (t : PieceType) : Piece :=
  mkPiece t (p_color piece) (p_hasMoved piece).

(** The attack test handed down to the handlers: a function of the board,
    the square and the attacking colour which may consult and extend a
    cache of type [S]. *)
Definition AttackTest (S : Type) : Type :=
  BoardState -> BoardCoord -> PieceColor -> S -> bool * S.

Module CastlingHandler.

(** [for (const col of squaresToCheck) if (isSquareAttacked(...)) return
    { valid: false }]: the squares are tested in order and the loop stops
    at the first attacked one. *)
Fixpoint anyAttacked {S} (isSquareAttacked : AttackTest S) (board : BoardState)
    (r : Z) (cols : list Z) (attacker : PieceColor) (s : S) : bool * S :=
  match cols with
  | [] => (false, s)
  | c :: rest =>
      let '(hit, s1) := isSquareAttacked board (mkCoord r c) attacker s in
      if hit then (true, s1) else anyAttacked isSquareAttacked board r rest attacker s1
  end.

(** [canCastle]: [None] stands for [{ valid: false }], [Some move] for
    [{ valid: true, move }]. *)
Definition canCastle {S} (board : BoardState) (king_ : Piece) (from to : BoardCoord)
    (isSquareAttacked : AttackTest S) (s : S) : option Move * S :=
  if p_hasMoved king_ then (None, s) else
  let r := row from in
  let kingsideQ := col from <? col to in
  let correctKingCol :=
    if kingsideQ then GAME_CONFIG.kingsideKingCol else GAME_CONFIG.queensideKingCol in
  if negb (bool_decide (row to = r)) || negb (bool_decide (col to = correctKingCol))
  then (None, s) else
  let rookCol :=
    if kingsideQ then GAME_CONFIG.kingsideRookFromCol else GAME_CONFIG.queensideRookFromCol in
  match idx board r rookCol with
  | None => (None, s)
  | Some rook_ =>
      if negb (typeIs (p_type rook_) rook) || negb (colorIs (p_color rook_) (p_color king_))
         || p_hasMoved rook_
      then (None, s) else
      let pathCols : list Z := if kingsideQ then [5; 6] else [1; 2; 3] in
      if existsb (fun c => bool_decide (idx board r c <> None)) pathCols then (None, s) else
      let opponentColor := opponent (p_color king_) in
      let squaresToCheck : list Z := if kingsideQ then [4; 5; 6] else [2; 3; 4] in
      let '(attacked, s1) := anyAttacked isSquareAttacked board r squaresToCheck opponentColor s in
      if attacked then (None, s1)
      else (Some (mkMove from (mkCoord r correctKingCol) king_ None false
                         (Some (if kingsideQ then kingside else queenside)) None), s1)
  end.

(** [executeCastling] first takes a deep copy [newBoard] of its argument and
    works on the copy only; the function result is that copy. *)
Definition executeCastling (board : BoardState) (move : Move) : BoardState :=
  match m_isCastling move with
  | None => board
  | Some side =>
      let newBoard := BoardUtils.cloneBoard board in
      let r := row (m_from move) in
      let newBoard :=
        match at_ newBoard (m_from move) with
        | Some king_ =>
            put (put newBoard (m_to move) (Some (setMoved king_ true))) (m_from move) None
        | None => newBoard
        end in
      let rookFromCol := if isKingside side then GAME_CONFIG.kingsideRookFromCol
                         else GAME_CONFIG.queensideRookFromCol in
      let rookToCol := if isKingside side then GAME_CONFIG.kingsideRookToCol
                       else GAME_CONFIG.queensideRookToCol in
      match idx newBoard r rookFromCol with
      | Some rook_ =>
          upd (upd newBoard r rookToCol (Some (setMoved rook_ true))) r rookFromCol None
      | None => newBoard
      end
  end.

(** [unmakeCastling] works in place on the board it is given.  It does not
    test [move.isCastling] for presence: an absent value compares unequal to
    'kingside' and selects the queenside columns. *)
Definition unmakeCastling (board : BoardState) (move : Move) : BoardState :=
  let kingsideQ := match m_isCastling move with Some kingside => true | _ => false end in
  let r := row (m_from move) in
  let kingToCol := col (m_from move) in
  let rookFromCol := if kingsideQ then GAME_CONFIG.kingsideRookFromCol
                     else GAME_CONFIG.queensideRookFromCol in
  let rookToCol := if kingsideQ then GAME_CONFIG.kingsideRookToCol
                   else GAME_CONFIG.queensideRookToCol in
  match at_ board (m_to move), idx board r rookToCol with
  | Some king_, Some rook_ =>
      let board := upd board r kingToCol (Some (setMoved king_ false)) in
      let board := put board (m_to move) None in
      let board := upd board r rookFromCol (Some (setMoved rook_ false)) in
      upd board r rookToCol None
  | _, _ => board
  end.

End CastlingHandler.

Module EnPassantHandler.

(** [board[to.row][to.col] !== null] is a strict comparison: only a square
    of the grid that holds no piece passes it. *)
Definition isEnPassantMove (pawn_ : Piece) (board : BoardState) (from to : BoardCoord)
    (lastMove : option Move) : bool :=
  match lastMove with
  | None => false
  | Some lastMove =>
      if negb (typeIs (p_type (m_piece lastMove)) pawn) then false
      else if negb (bool_decide (Z.abs (row (m_to lastMove) - row (m_from lastMove)) = 2))
      then false
      else
        let correctRank := if colorIs (p_color pawn_) white then 4 else 3 in
        if negb (bool_decide (row from = correctRank)) then false
        else
          let rowDiff := row to - row from in
          let colDiff := Z.abs (col to - col from) in
          let expectedRowDiff := if colorIs (p_color pawn_) white then 1 else -1 in
          if negb (bool_decide (rowDiff = expectedRowDiff)) || negb (bool_decide (colDiff = 1))
          then false
          else if negb (isValidCoord to && bool_decide (at_ board to = None)) then false
          else bool_decide (col (m_to lastMove) = col to)
               && bool_decide (row (m_to lastMove) = row from)
  end.

(** Like [executeCastling], works on a deep copy and returns the copy. *)
Definition executeEnPassant (board : BoardState) (move : Move) : BoardState :=
  if negb (m_isEnPassant move) then board else
  let newBoard := BoardUtils.cloneBoard board in
  let newBoard :=
    match at_ newBoard (m_from move) with
    | Some pawn_ =>
        put (put newBoard (m_to move) (Some (setMoved pawn_ true))) (m_from move) None
    | None => newBoard
    end in
  upd newBoard (row (m_from move)) (col (m_to move)) None.

(** In place. *)
Definition unmakeEnPassant (board : BoardState) (move : Move) : BoardState :=
  match at_ board (m_to move) with
  | Some movingPawn =>
      let board :=
        put board (m_from move) (Some (setMoved movingPawn (p_hasMoved (m_piece move)))) in
      let board := put board (m_to move) None in
      upd board (row (m_from move)) (col (m_to move)) (m_captured move)
  | None => board
  end.

End EnPassantHandler.

Module PromotionHandler.

Definition needsPromotion (piece : Piece) (to : BoardCoord) : bool :=
  if negb (typeIs (p_type piece) pawn) then false
  else bool_decide (row to = GAME_CONFIG.promotionRank (p_color piece)).

(** Works on a deep copy and returns the copy. *)
Definition executePromotion (board : BoardState) (position : BoardCoord)
    (newPieceType : PieceType) : BoardState :=
  let newBoard := BoardUtils.cloneBoard board in
  match at_ newBoard position with
  | Some piece =>
      if typeIs (p_type piece) pawn
      then put newBoard position (Some (setType piece newPieceType))
      else newBoard
  | None => newBoard
  end.

(** In place. *)
Definition unmakePromotion (board : BoardState) (position : BoardCoord) : BoardState :=
  match at_ board position with
  | Some piece => put board position (Some (setType piece pawn))
  | None => board
  end.

Definition createPromotionMove (move : Move) (promotionType : PieceType) : Move :=
  mkMove (m_from move) (m_to move) (m_piece move) (m_captured move)
         (m_isEnPassant move) (m_isCastling move) (Some promotionType).

End PromotionHandler.

(* ===================================================================== *)
(** ** services/MoveExecutor.ts                                           *)
(* ===================================================================== *)

Module MoveExecutor.

(** In place. *)
Definition _makeNormalMove (board : BoardState) (move : Move) : BoardState :=
  match at_ board (m_from move) with
  | None => board
  | Some piece =>
      put (put board (m_to move) (Some (setMoved piece true))) (m_from move) None
  end.

(** In place. *)
Definition _unmakeNormalMove (board : BoardState) (move : Move) : BoardState :=
  match at_ board (m_to move) with
  | None => board
  | Some movedPiece =>
      let board :=
        put board (m_from move) (Some (setMoved movedPiece (p_hasMoved (m_piece move)))) in
      put board (m_to move) (m_captured move)
  end.

(** [_makeMove] returns nothing: its effect is what it does to [board] in
    place.  The three handler calls are statements whose results (the
    copies built by the handlers) are dropped, so only [_makeNormalMove]
    changes [board]. *)
Definition _makeMove (board : BoardState) (move : Move) : BoardState :=
  let board :=
    match m_isCastling move with
    | Some _ => let _ := CastlingHandler.executeCastling board move in board
    | None =>
        if m_isEnPassant move
        then let _ := EnPassantHandler.executeEnPassant board move in board
        else _makeNormalMove board move
    end in
  match m_promotion move with
  | Some t => let _ := PromotionHandler.executePromotion board (m_to move) t in board
  | None => board
  end.

Definition _unmakeMove (board : BoardState) (move : Move) : BoardState :=
  let board :=
    match m_promotion move with
    | Some _ => PromotionHandler.unmakePromotion board (m_to move)
    | None => board
    end in
  match m_isCastling move with
  | Some _ => CastlingHandler.unmakeCastling board move
  | None =>
      if m_isEnPassant move
      then EnPassantHandler.unmakeEnPassant board move
      else _unmakeNormalMove board move
  end.

(** Commit mode: the move is made on a clone, the argument is not touched. *)
Definition executeMove (board : BoardState) (move : Move) : BoardState :=
  let newBoard := BoardUtils.cloneBoard board in
  _makeMove newBoard move.

(** Probe mode.  The result is the boolean, the board as the call leaves it
    (it was changed in place and changed back), and the state of the attack
    test. *)
Definition wouldLeaveKingInCheck {S} (board : BoardState) (move : Move)
    (kingPos : BoardCoord) (isSquareAttacked : AttackTest S) (s : S)
    : bool * BoardState * S :=
  let board := _makeMove board move in
  let finalKingPos := if typeIs (p_type (m_piece move)) king then m_to move else kingPos in
  let opponentColor := opponent (p_color (m_piece move)) in
  let '(isCheck, s) := isSquareAttacked board finalKingPos opponentColor s in
  let board := _unmakeMove board move in
  (isCheck, board, s).

End MoveExecutor.

(* ===================================================================== *)
(** ** model/GameState.ts                                                 *)
(* ===================================================================== *)

Record GameSnapshot := mkSnapshot {
  s_board : BoardState;
  s_currentTurn : PieceColor;
  s_moveHistory : list Move;
  s_lastMove : option Move;
  s_isCheck : bool;
  s_isCheckmate : bool;
  s_isStalemate : bool;
  s_isDraw : bool;
  s_whiteKingPos : BoardCoord;
  s_blackKingPos : BoardCoord;
  s_halfMoveClock : Z;
  s_positionHistory : gmap string Z
}.

Record GameState := mkGameState {
  currentTurn : PieceColor;
  moveHistory : list Move;
  lastMove : option Move;
  whiteKingPos : BoardCoord;
  blackKingPos : BoardCoord;
  isCheck : bool;
  isCheckmate : bool;
  isStalemate : bool;
  isDraw : bool;
  allLegalMovesForCurrentTurn : list Move;
  gameSnapshots : list GameSnapshot;
  currentSnapshotIndex : Z;
  halfMoveClock : Z;
  positionHistory : gmap string Z
}.

(** The field initialisers of the class. *)
Definition newGameState : GameState :=
  {| currentTurn := white; moveHistory := []; lastMove := None;
     whiteKingPos := mkCoord 0 4; blackKingPos := mkCoord 7 4;
     isCheck := false; isCheckmate := false; isStalemate := false; isDraw := false;
     allLegalMovesForCurrentTurn := [];
     gameSnapshots := []; currentSnapshotIndex := -1;
     halfMoveClock := 0; positionHistory := ∅ |}.

Definition kingPosOf (gs : GameState) (c : PieceColor) : BoardCoord :=
  if colorIs c white then whiteKingPos gs else blackKingPos gs.

(* ===================================================================== *)
(** ** services/FenGenerator.ts                                           *)
(* ===================================================================== *)

Module FenGenerator.

Definition toUpperCase (c : ascii) : ascii :=
  let n := nat_of_ascii c in
  if (97 <=? n)%nat && (n <=? 122)%nat then ascii_of_nat (n - 32) else c.
Definition toLowerCase (c : ascii) : ascii :=
  let n := nat_of_ascii c in
  if (65 <=? n)%nat && (n <=? 90)%nat then ascii_of_nat (n + 32) else c.

(** [s.charAt(0)] for the non-empty names of types and colours. *)
Definition charAt0 (s : string) : ascii :=
  match s with String c _ => c | EmptyString => " "%char end.

(** [String.fromCharCode(n)] for the codes of letters. *)
Definition fromCharCode (n : Z) : ascii := ascii_of_nat (Z.to_nat n).

Definition pieceChar (piece : Piece) : ascii :=
  let pieceChar := toUpperCase (charAt0 (typeName (p_type piece))) in
  let pieceChar := if typeIs (p_type piece) knight then "N"%char else pieceChar in
  if colorIs (p_color piece) white then pieceChar else toLowerCase pieceChar.

(** [if (emptySquares > 0) fen += emptySquares] *)
Definition flushEmpty (emptySquares : Z) : string :=
  if 0 <? emptySquares then pretty emptySquares else "".

(** The inner loop over the columns of one row: the text appended to [fen]
    from column [col] on, with [emptySquares] empty squares pending. *)
Fixpoint rowFen (board : BoardState) (r : Z) (cols : list Z) (emptySquares : Z) : string :=
  match cols with
  | [] => flushEmpty emptySquares
  | c :: rest =>
      match idx board r c with
      | Some piece =>
          flushEmpty emptySquares +:+ String (pieceChar piece) (rowFen board r rest 0)
      | None => rowFen board r rest (emptySquares + 1)
      end
  end.

Definition getPiecePlacementFen (board : BoardState) : string :=
  foldr (fun r rest =>
           rowFen board r range8 0 +:+ (if 0 <? r then "/" else "") +:+ rest)
        "" [7; 6; 5; 4; 3; 2; 1; 0].

(** [king?.type === 'king' && !king.hasMoved && rook?.type === 'rook' &&
    !rook.hasMoved] *)
Definition castlingRight (board : BoardState) (r rookCol : Z) : bool :=
  match idx board r 4, idx board r rookCol with
  | Some king_, Some rook_ =>
      typeIs (p_type king_) king && negb (p_hasMoved king_)
      && typeIs (p_type rook_) rook && negb (p_hasMoved rook_)
  | _, _ => false
  end.

Definition getCastlingFen (board : BoardState) : string :=
  let fen :=
    (if castlingRight board (BOARD_CONFIG.pieceRank white) 7 then "K" else "") +:+
    (if castlingRight board (BOARD_CONFIG.pieceRank white) 0 then "Q" else "") +:+
    (if castlingRight board (BOARD_CONFIG.pieceRank black) 7 then "k" else "") +:+
    (if castlingRight board (BOARD_CONFIG.pieceRank black) 0 then "q" else "") in
  if bool_decide (fen = "") then "-" else fen.

Definition getEnPassantFen (gameState : GameState) : string :=
  match lastMove gameState with
  | None => "-"
  | Some lastMove =>
      if negb (typeIs (p_type (m_piece lastMove)) pawn)
         || negb (bool_decide (Z.abs (row (m_to lastMove) - row (m_from lastMove)) = 2))
      then "-"
      else
        let file := fromCharCode (97 + col (m_from lastMove)) in
        let rank : Z := if colorIs (p_color (m_piece lastMove)) white then 3 else 6 in
        String file (pretty rank)
  end.

Definition getPositionKey (board : BoardState) (gameState : GameState) : string :=
  let piecePlacement := getPiecePlacementFen board in
  let activeColor := String (charAt0 (colorName (currentTurn gameState))) "" in
  let castling := getCastlingFen board in
  let enPassant := getEnPassantFen gameState in
  piecePlacement +:+ " " +:+ activeColor +:+ " " +:+ castling +:+ " " +:+ enPassant.

End FenGenerator.

(* ===================================================================== *)
(** ** utils/CoordinateUtils.ts: pixels and files                         *)
(* ===================================================================== *)

Module CoordinateUtils.



(** [file.charCodeAt(0) - 97]; the empty string gives [NaN], here [None]. *)
Definition fileToCol (file : string) : option Z :=
  match file with
  | String ch _ => Some (Z.of_nat (nat_of_ascii ch) - 97)
  | EmptyString => None
  end.

Definition colToFile (c : Z) : string :=
  String (FenGenerator.fromCharCode (97 + c)) "".

End CoordinateUtils.

(* ===================================================================== *)
(** ** services/MoveNotation.ts                                           *)
(* ===================================================================== *)

Module MoveNotation.

(** [t === 'knight' ? 'N' : t.charAt(0).toUpperCase()] *)
Definition pieceLetter (t : PieceType) : string :=
  if typeIs t knight then "N"
  else String (FenGenerator.toUpperCase (FenGenerator.charAt0 (typeName t))) "".

(** The squares other than the origin that hold a piece of the type and
    colour of the moving piece from which the destination passes
    [isValidMove]: the array [ambiguousPieces]. *)
Definition ambiguousPieces (move : Move) (boardBeforeMove : BoardState) : list BoardCoord :=
  let movingPiece := m_piece move in
  let fromPos := m_from move in
  let toPos := m_to move in
  flat_map (fun r =>
    flat_map (fun c =>
      if bool_decide (r = row fromPos) && bool_decide (c = col fromPos) then []
      else
        match idx boardBeforeMove r c with
        | Some otherPiece =>
            if typeIs (p_type otherPiece) (p_type movingPiece)
               && colorIs (p_color otherPiece) (p_color movingPiece)
            then
              let validator := ValidatorFactory.getValidator otherPiece in
              if isValidMove validator boardBeforeMove (mkCoord r c) toPos
              then [mkCoord r c] else []
            else []
        | None => []
        end) range8) range8.

Definition getDisambiguation (move : Move) (boardBeforeMove : BoardState) : string :=
  let fromPos := m_from move in
  let ambiguous := ambiguousPieces move boardBeforeMove in
  if bool_decide (ambiguous = []) then ""
  else
    let sameFile := existsb (fun p => bool_decide (col p = col fromPos)) ambiguous in
    if negb sameFile then String (FenGenerator.fromCharCode (97 + col fromPos)) ""
    else
      let sameRank := existsb (fun p => bool_decide (row p = row fromPos)) ambiguous in
      if negb sameRank then pretty (row fromPos + 1)
      else String (FenGenerator.fromCharCode (97 + col fromPos)) (pretty (row fromPos + 1)).

(** [isCheckmate ? '#' : (isCheck ? '+' : '')] *)
Definition checkSuffix (isCheck isCheckmate : bool) : string :=
  if isCheckmate then "#" else if isCheck then "+" else "".

Definition getMoveNotation (move : Move) (boardBeforeMove : BoardState)
    (isCheck isCheckmate : bool) : string :=
  match m_isCastling move with
  | Some side =>
      (if isKingside side then "O-O" else "O-O-O") +:+ checkSuffix isCheck isCheckmate
  | None =>
      let piece := m_piece move in
      let fromFile := String (FenGenerator.fromCharCode (97 + col (m_from move))) "" in
      let toFile := String (FenGenerator.fromCharCode (97 + col (m_to move))) "" in
      let toRank := row (m_to move) + 1 in
      let isCapture :=
        bool_decide (at_ boardBeforeMove (m_to move) <> None) || m_isEnPassant move in
      let notation := "" in
      let notation :=
        if negb (typeIs (p_type piece) pawn)
        then notation +:+ pieceLetter (p_type piece) +:+ getDisambiguation move boardBeforeMove
        else notation in
      let notation :=
        if isCapture
        then (if typeIs (p_type piece) pawn then notation +:+ fromFile else notation) +:+ "x"
        else notation in
      let notation := notation +:+ toFile +:+ pretty toRank in
      let notation :=
        match m_promotion move with
        | Some t => notation +:+ "=" +:+ pieceLetter t
        | None => notation
        end in
      notation +:+ checkSuffix isCheck isCheckmate
  end.

End MoveNotation.

(** Assignments to the fields of the game state: [this.f = v]. *)
Definition set_currentTurn (v : PieceColor) (gs : GameState) : GameState :=
  mkGameState v (moveHistory gs) (lastMove gs) (whiteKingPos gs) (blackKingPos gs)
    (isCheck gs) (isCheckmate gs) (isStalemate gs) (isDraw gs)
    (allLegalMovesForCurrentTurn gs) (gameSnapshots gs) (currentSnapshotIndex gs)
    (halfMoveClock gs) (positionHistory gs).
Definition set_moveHistory (v : list Move) (gs : GameState) : GameState :=
  mkGameState (currentTurn gs) v (lastMove gs) (whiteKingPos gs) (blackKingPos gs)
    (isCheck gs) (isCheckmate gs) (isStalemate gs) (isDraw gs)
    (allLegalMovesForCurrentTurn gs) (gameSnapshots gs) (currentSnapshotIndex gs)
    (halfMoveClock gs) (positionHistory gs).
Definition set_lastMove (v : option Move) (gs : GameState) : GameState :=
  mkGameState (currentTurn gs) (moveHistory gs) v (whiteKingPos gs) (blackKingPos gs)
    (isCheck gs) (isCheckmate gs) (isStalemate gs) (isDraw gs)
    (allLegalMovesForCurrentTurn gs) (gameSnapshots gs) (currentSnapshotIndex gs)
    (halfMoveClock gs) (positionHistory gs).
Definition set_whiteKingPos (v : BoardCoord) (gs : GameState) : GameState :=
  mkGameState (currentTurn gs) (moveHistory gs) (lastMove gs) v (blackKingPos gs)
    (isCheck gs) (isCheckmate gs) (isStalemate gs) (isDraw gs)
    (allLegalMovesForCurrentTurn gs) (gameSnapshots gs) (currentSnapshotIndex gs)
    (halfMoveClock gs) (positionHistory gs).
Definition set_blackKingPos (v : BoardCoord) (gs : GameState) : GameState :=
  mkGameState (currentTurn gs) (moveHistory gs) (lastMove gs) (whiteKingPos gs) v
    (isCheck gs) (isCheckmate gs) (isStalemate gs) (isDraw gs)
    (allLegalMovesForCurrentTurn gs) (gameSnapshots gs) (currentSnapshotIndex gs)
    (halfMoveClock gs) (positionHistory gs).
Definition set_isCheck (v : bool) (gs : GameState) : GameState :=
  mkGameState (currentTurn gs) (moveHistory gs) (lastMove gs) (whiteKingPos gs)
    (blackKingPos gs) v (isCheckmate gs) (isStalemate gs) (isDraw gs)
    (allLegalMovesForCurrentTurn gs) (gameSnapshots gs) (currentSnapshotIndex gs)
    (halfMoveClock gs) (positionHistory gs).
Definition set_isCheckmate (v : bool) (gs : GameState) : GameState :=
  mkGameState (currentTurn gs) (moveHistory gs) (lastMove gs) (whiteKingPos gs)
    (blackKingPos gs) (isCheck gs) v (isStalemate gs) (isDraw gs)
    (allLegalMovesForCurrentTurn gs) (gameSnapshots gs) (currentSnapshotIndex gs)
    (halfMoveClock gs) (positionHistory gs).
Definition set_isStalemate (v : bool) (gs : GameState) : GameState :=
  mkGameState (currentTurn gs) (moveHistory gs) (lastMove gs) (whiteKingPos gs)
    (blackKingPos gs) (isCheck gs) (isCheckmate gs) v (isDraw gs)
    (allLegalMovesForCurrentTurn gs) (gameSnapshots gs) (currentSnapshotIndex gs)
    (halfMoveClock gs) (positionHistory gs).
Definition set_isDraw (v : bool) (gs : GameState) : GameState :=
  mkGameState (currentTurn gs) (moveHistory gs) (lastMove gs) (whiteKingPos gs)
    (blackKingPos gs) (isCheck gs) (isCheckmate gs) (isStalemate gs) v
    (allLegalMovesForCurrentTurn gs) (gameSnapshots gs) (currentSnapshotIndex gs)
    (halfMoveClock gs) (positionHistory gs).
Definition set_allLegalMovesForCurrentTurn (v : list Move) (gs : GameState) : GameState :=
  mkGameState (currentTurn gs) (moveHistory gs) (lastMove gs) (whiteKingPos gs)
    (blackKingPos gs) (isCheck gs) (isCheckmate gs) (isStalemate gs) (isDraw gs) v
    (gameSnapshots gs) (currentSnapshotIndex gs) (halfMoveClock gs)
    (positionHistory gs).
Definition set_gameSnapshots (v : list GameSnapshot) (gs : GameState) : GameState :=
  mkGameState (currentTurn gs) (moveHistory gs) (lastMove gs) (whiteKingPos gs)
    (blackKingPos gs) (isCheck gs) (isCheckmate gs) (isStalemate gs) (isDraw gs)
    (allLegalMovesForCurrentTurn gs) v (currentSnapshotIndex gs) (halfMoveClock gs)
    (positionHistory gs).
Definition set_currentSnapshotIndex (v : Z) (gs : GameState) : GameState :=
  mkGameState (currentTurn gs) (moveHistory gs) (lastMove gs) (whiteKingPos gs)
    (blackKingPos gs) (isCheck gs) (isCheckmate gs) (isStalemate gs) (isDraw gs)
    (allLegalMovesForCurrentTurn gs) (gameSnapshots gs) v (halfMoveClock gs)
    (positionHistory gs).
Definition set_halfMoveClock (v : Z) (gs : GameState) : GameState :=
  mkGameState (currentTurn gs) (moveHistory gs) (lastMove gs) (whiteKingPos gs)
    (blackKingPos gs) (isCheck gs) (isCheckmate gs) (isStalemate gs) (isDraw gs)
    (allLegalMovesForCurrentTurn gs) (gameSnapshots gs) (currentSnapshotIndex gs) v
    (positionHistory gs).
Definition set_positionHistory (v : gmap string Z) (gs : GameState) : GameState :=
  mkGameState (currentTurn gs) (moveHistory gs) (lastMove gs) (whiteKingPos gs)
    (blackKingPos gs) (isCheck gs) (isCheckmate gs) (isStalemate gs) (isDraw gs)
    (allLegalMovesForCurrentTurn gs) (gameSnapshots gs) (currentSnapshotIndex gs)
    (halfMoveClock gs) v.

Module GameStateOps.

(** [Array.prototype.slice(0, e)]: a negative [e] counts from the end. *)
Definition slice0 {A} (l : list A) (e : Z) : list A :=
  if e <? 0 then take (Z.to_nat (Z.max (Z.of_nat (length l) + e) 0)) l
  else take (Z.to_nat e) l.

Definition updateStateAfterMove (gs : GameState) (move : Move) (board : BoardState)
    : GameState :=
  let clock :=
    if typeIs (p_type (m_piece move)) pawn || bool_decide (m_captured move <> None)
    then 0 else halfMoveClock gs + 1 in
  let gs := set_halfMoveClock (clock) gs in
  let positionKey := FenGenerator.getPositionKey board gs in
  let count := default 0 (positionHistory gs !! positionKey) in
  set_positionHistory (<[positionKey := count + 1]> (positionHistory gs)) gs.

Definition addMove (gs : GameState) (move : Move) : GameState :=
  let gs := set_moveHistory (moveHistory gs ++ [move]) gs in
  let gs := set_lastMove (Some move) gs in
  let gs := set_currentTurn (opponent (currentTurn gs)) gs in
  if typeIs (p_type (m_piece move)) king then
    if colorIs (p_color (m_piece move)) white
    then set_whiteKingPos (m_to move) gs
    else set_blackKingPos (m_to move) gs
  else gs.

Definition takeSnapshot (gs : GameState) (board : BoardState) : GameSnapshot :=
  {| s_board := BoardUtils.cloneBoard board;
     s_currentTurn := currentTurn gs;
     s_moveHistory := moveHistory gs;
     s_lastMove := lastMove gs;
     s_isCheck := isCheck gs;
     s_isCheckmate := isCheckmate gs;
     s_isStalemate := isStalemate gs;
     s_isDraw := isDraw gs;
     s_whiteKingPos := whiteKingPos gs;
     s_blackKingPos := blackKingPos gs;
     s_halfMoveClock := halfMoveClock gs;
     s_positionHistory := positionHistory gs |}.

Definition saveSnapshot (gs : GameState) (board : BoardState) : GameState :=
  let gs :=
    if currentSnapshotIndex gs <? Z.of_nat (length (gameSnapshots gs)) - 1
    then set_gameSnapshots (slice0 (gameSnapshots gs) (currentSnapshotIndex gs + 1)) gs
    else gs in
  let snapshot := takeSnapshot gs board in
  let gs := set_gameSnapshots (gameSnapshots gs ++ [snapshot]) gs in
  set_currentSnapshotIndex (currentSnapshotIndex gs + 1) gs.

Definition restoreFromSnapshot (gs : GameState) (snapshot : GameSnapshot) : GameState :=
  let gs := set_currentTurn (s_currentTurn snapshot) gs in
  let gs := set_moveHistory (s_moveHistory snapshot) gs in
  let gs := set_lastMove (s_lastMove snapshot) gs in
  let gs := set_isCheck (s_isCheck snapshot) gs in
  let gs := set_isCheckmate (s_isCheckmate snapshot) gs in
  let gs := set_isStalemate (s_isStalemate snapshot) gs in
  let gs := set_isDraw (s_isDraw snapshot) gs in
  let gs := set_whiteKingPos (s_whiteKingPos snapshot) gs in
  let gs := set_blackKingPos (s_blackKingPos snapshot) gs in
  let gs := set_halfMoveClock (s_halfMoveClock snapshot) gs in
  set_positionHistory (s_positionHistory snapshot) gs.

(** [gameSnapshots[i]]; [undefined] outside the array. *)
Definition snapshotAt (gs : GameState) (i : Z) : option GameSnapshot :=
  if 0 <=? i then gameSnapshots gs !! Z.to_nat i else None.

(** [undo] and [redo] return the snapshot they restored, or [null].  Should
    the cursor point outside the array after being moved, the source fails
    while reading the missing snapshot, with the cursor already moved. *)
Definition undo (gs : GameState) : option GameSnapshot * GameState :=
  if currentSnapshotIndex gs <=? 0 then (None, gs) else
  let gs := set_currentSnapshotIndex (currentSnapshotIndex gs - 1) gs in
  match snapshotAt gs (currentSnapshotIndex gs) with
  | Some snapshot => (Some snapshot, restoreFromSnapshot gs snapshot)
  | None => (None, gs)
  end.

Definition redo (gs : GameState) : option GameSnapshot * GameState :=
  if Z.of_nat (length (gameSnapshots gs)) - 1 <=? currentSnapshotIndex gs then (None, gs) else
  let gs := set_currentSnapshotIndex (currentSnapshotIndex gs + 1) gs in
  match snapshotAt gs (currentSnapshotIndex gs) with
  | Some snapshot => (Some snapshot, restoreFromSnapshot gs snapshot)
  | None => (None, gs)
  end.

Definition getLastMove (gs : GameState) : option Move := lastMove gs.

Definition canUndo (gs : GameState) : bool := 0 <? currentSnapshotIndex gs.

Definition canRedo (gs : GameState) : bool :=
  currentSnapshotIndex gs <? Z.of_nat (length (gameSnapshots gs)) - 1.

End GameStateOps.

(* ===================================================================== *)
(** ** model/Game.ts                                                      *)
(* ===================================================================== *)

(** Computations that read and change a state of type [S]. *)
Definition State (S A : Type) : Type := S -> A * S.
Definition ret {S A} (a : A) : State S A := fun s => (a, s).
Definition bind {S A B} (c : State S A) (k : A -> State S B) : State S B :=
  fun s => let '(a, s1) := c s in k a s1.
Notation "x <- c ;; k" := (bind c (fun x => k))
  (at level 100, c at next level, right associativity).

(** [for (const x of xs) out.push(...body(x))] *)
Fixpoint forEachPush {S A B} (xs : list A) (body : A -> State S (list B)) : State S (list B) :=
  match xs with
  | [] => ret []
  | x :: rest =>
      ys <- body x ;;
      zs <- forEachPush rest body ;;
      ret (ys ++ zs)
  end.

Module Game.

(** The state of one generation pass: the board handed to
    [generateAllLegalMoves], which the probes change in place, and the
    pass-scoped cache [moveGenCache]. *)
Definition Pass : Type := BoardState * gmap string bool.

Definition _calculateIsSquareAttacked (board : BoardState) (pos : BoardCoord)
    (color : PieceColor) : bool :=
  existsb (fun r =>
    existsb (fun c =>
      match idx board r c with
      | None => false
      | Some piece =>
          if negb (colorIs (p_color piece) color) then false
          else if typeIs (p_type piece) pawn then
            let dir := if colorIs color white then 1 else -1 in
            bool_decide (r + dir = row pos)
            && (bool_decide (c - 1 = col pos) || bool_decide (c + 1 = col pos))
          else
            isValidMove (ValidatorFactory.getValidatorCached piece) board (mkCoord r c) pos
      end) range8) range8.

(** [`${p.row},${p.col}:${c}`] *)
Definition tempCacheKey (p : BoardCoord) (c : PieceColor) : string :=
  pretty (row p) +:+ "," +:+ pretty (col p) +:+ ":" +:+ colorName c.

(** The closure [isAttackedDuringSim] over [moveGenCache]. *)
Definition isAttackedDuringSim : AttackTest (gmap string bool) :=
  fun b p c moveGenCache =>
    match moveGenCache !! tempCacheKey p c with
    | Some hit => (hit, moveGenCache)
    | None =>
        let result := _calculateIsSquareAttacked b p c in
        (result, <[tempCacheKey p c := result]> moveGenCache)
    end.

(** [moveExecutor.wouldLeaveKingInCheck(board, move, kingPos,
    isAttackedDuringSim)] on the board and cache of the pass. *)
Definition probe (move : Move) (kingPos : BoardCoord) : State Pass bool :=
  fun '(board, moveGenCache) =>
    let '(isCheck, board1, cache1) :=
      MoveExecutor.wouldLeaveKingInCheck board move kingPos isAttackedDuringSim moveGenCache in
    (isCheck, (board1, cache1)).

Definition _validateMoveLite (piece : Piece) (from to : BoardCoord) (gameState : GameState)
    : State Pass (option Move) :=
  fun '(board, moveGenCache) =>
    let destinationPiece := at_ board to in
    if match destinationPiece with
       | Some d => colorIs (p_color d) (p_color piece)
       | None => false
       end
    then (None, (board, moveGenCache))
    else
      let kingPos := kingPosOf gameState (p_color piece) in
      let pieceSnapshot := BoardUtils.copyPiece piece in
      let promotion :=
        if PromotionHandler.needsPromotion piece to then Some queen else None in
      let move := mkMove from to pieceSnapshot destinationPiece false None promotion in
      let '(wouldBeInCheck, pass) := probe move kingPos (board, moveGenCache) in
      if wouldBeInCheck then (None, pass) else (Some move, pass).

Definition _generateMovesForPiece (piece : Piece) (from : BoardCoord)
    (gameState : GameState) : State Pass (list Move) :=
  let validator := ValidatorFactory.getValidatorCached piece in
  let potentialDestinations := getPotentialMoves validator from in
  forEachPush potentialDestinations (fun to =>
    fun '(board, moveGenCache) =>
      if negb (isValidMove validator board from to) then ([], (board, moveGenCache))
      else
        let '(validated, pass) :=
          _validateMoveLite piece from to gameState (board, moveGenCache) in
        (match validated with Some m => [m] | None => [] end, pass)).

(** The attack test used by [canCastle] reads the cache of the pass. *)
Definition castle (king_ : Piece) (kingPos : BoardCoord) (toCol : Z)
    : State Pass (list Move) :=
  fun '(board, moveGenCache) =>
    let '(res, cache1) :=
      CastlingHandler.canCastle board king_ kingPos (mkCoord (row kingPos) toCol)
                                isAttackedDuringSim moveGenCache in
    (match res with Some m => [m] | None => [] end, (board, cache1)).

Definition enPassantFrom (color : PieceColor) (kingPos : BoardCoord) (last : Move)
    (from : BoardCoord) : State Pass (list Move) :=
  fun '(board, moveGenCache) =>
    let victimPos := m_to last in
    match at_ board from with
    | None => ([], (board, moveGenCache))
    | Some attacker =>
        if negb (typeIs (p_type attacker) pawn) || negb (colorIs (p_color attacker) color)
        then ([], (board, moveGenCache))
        else
          let dir := if colorIs color white then 1 else -1 in
          let to := mkCoord (row from + dir) (col victimPos) in
          let move := mkMove from to attacker (Some (m_piece last)) true None None in
          if EnPassantHandler.isEnPassantMove attacker board from to (Some last) then
            let '(inCheck, pass) := probe move kingPos (board, moveGenCache) in
            if inCheck then ([], pass) else ([move], pass)
          else ([], (board, moveGenCache))
    end.

Definition _generateSpecialMoves (color : PieceColor) (gameState : GameState)
    : State Pass (list Move) :=
  fun '(board, moveGenCache) =>
    let kingPos := kingPosOf gameState color in
    let castling : State Pass (list Move) :=
      match at_ board kingPos with
      | Some king_ =>
          if typeIs (p_type king_) king then
            ks <- castle king_ kingPos 6 ;;
            qs <- castle king_ kingPos 2 ;;
            ret (ks ++ qs)
          else ret []
      | None => ret []
      end in
    let enPassant : State Pass (list Move) :=
      match GameStateOps.getLastMove gameState with
      | Some last =>
          if typeIs (p_type (m_piece last)) pawn
             && bool_decide (Z.abs (row (m_to last) - row (m_from last)) = 2)
          then
            let victimPos := m_to last in
            forEachPush [mkCoord (row victimPos) (col victimPos - 1);
                         mkCoord (row victimPos) (col victimPos + 1)]
                        (enPassantFrom color kingPos last)
          else ret []
      | None => ret []
      end in
    (cs <- castling ;; es <- enPassant ;; ret (cs ++ es)) (board, moveGenCache).

(** The whole pass: the moves, and the board and cache as the pass leaves
    them. *)
Definition generationPass (color : PieceColor) (gameState : GameState)
    : State Pass (list Move) :=
  pieceMoves <-
    forEachPush range8 (fun r =>
      forEachPush range8 (fun c =>
        fun '(board, moveGenCache) =>
          match idx board r c with
          | None => ([], (board, moveGenCache))
          | Some piece =>
              if negb (colorIs (p_color piece) color) then ([], (board, moveGenCache))
              else _generateMovesForPiece piece (mkCoord r c) gameState
                                          (board, moveGenCache)
          end)) ;;
  special <- _generateSpecialMoves color gameState ;;
  ret (pieceMoves ++ special).

(** [moveGenCache] starts empty in every call. *)
Definition generateAllLegalMoves (board : BoardState) (color : PieceColor)
    (gameState : GameState) : list Move :=
  fst (generationPass color gameState (board, ∅)).

(** [`${boardKey}:${position.row},${position.col}:${attackingColor}`] *)
Definition cacheKey (board : BoardState) (position : BoardCoord)
    (attackingColor : PieceColor) (gameState : GameState) : string :=
  FenGenerator.getPositionKey board gameState +:+ ":" +:+
  pretty (row position) +:+ "," +:+ pretty (col position) +:+ ":" +:+
  colorName attackingColor.

(** The persistent cache [attackCache] is a field of the [Game] object. *)
Definition isSquareAttacked (board : BoardState) (position : BoardCoord)
    (attackingColor : PieceColor) (gameState : GameState)
    : State (gmap string bool) bool :=
  fun attackCache =>
    match attackCache !! cacheKey board position attackingColor gameState with
    | Some hit => (hit, attackCache)
    | None =>
        let result := _calculateIsSquareAttacked board position attackingColor in
        (result, <[cacheKey board position attackingColor gameState := result]> attackCache)
    end.

End Game.

(* ===================================================================== *)
(** ** model/GameEndDetection.ts                                          *)
(* ===================================================================== *)

Module GameEndDetection.

Definition isInsufficientMaterial (board : BoardState) : bool :=
  let pieces := BoardUtils.getPiecesByColor board white
                ++ BoardUtils.getPiecesByColor board black in
  let nonKingPieces := filter (fun p => p_type (fst p) <> king) pieces in
  match nonKingPieces with
  | [] => true
  | [p] => typeIs (p_type (fst p)) bishop || typeIs (p_type (fst p)) knight
  | [p1; p2] =>
      if forallb (fun p => typeIs (p_type (fst p)) bishop) nonKingPieces then
        bool_decide ((row (snd p1) + col (snd p1)) mod 2 = (row (snd p2) + col (snd p2)) mod 2)
      else false
  | _ => false
  end.

Definition isDrawByRule (board : BoardState) (gameState : GameState) : bool :=
  if 100 <=? halfMoveClock gameState then true
  else if 3 <=? default 0 (positionHistory gameState
                             !! FenGenerator.getPositionKey board gameState) then true
  else if isInsufficientMaterial board then true
  else false.

Definition isInCheck (board : BoardState) (color : PieceColor) (gameState : GameState)
    : State (gmap string bool) bool :=
  let kingPos := kingPosOf gameState color in
  let opponentColor := opponent color in
  Game.isSquareAttacked board kingPos opponentColor gameState.

End GameEndDetection.

(* ===================================================================== *)
(** ** components/ChessGameController.ts                                  *)
(* ===================================================================== *)

(** The fields of the controller that carry rules state.  [attackCache] is
    the persistent cache of its [Game] object.  The emitted view events and
    the list of notation strings have no influence on these fields and are
    left out. *)
Record Controller := mkController {
  attackCache : gmap string bool;
  gameState : GameState;
  currentBoard : BoardState;
  selectedSquare : option BoardCoord;
  promotionMove : option Move
}.

Module ChessGameController.

Definition withState (gs : GameState) (ctl : Controller) : Controller :=
  mkController (attackCache ctl) gs (currentBoard ctl) (selectedSquare ctl)
               (promotionMove ctl).
Definition withBoard (b : BoardState) (ctl : Controller) : Controller :=
  mkController (attackCache ctl) (gameState ctl) b (selectedSquare ctl) (promotionMove ctl).
Definition withSelected (sq : option BoardCoord) (ctl : Controller) : Controller :=
  mkController (attackCache ctl) (gameState ctl) (currentBoard ctl) sq (promotionMove ctl).
Definition withPromotion (m : option Move) (ctl : Controller) : Controller :=
  mkController (attackCache ctl) (gameState ctl) (currentBoard ctl) (selectedSquare ctl) m.
Definition withCache (c : gmap string bool) (ctl : Controller) : Controller :=
  mkController c (gameState ctl) (currentBoard ctl) (selectedSquare ctl) (promotionMove ctl).

Definition updateLegalMoves (ctl : Controller) : Controller :=
  let boardForValidation := BoardUtils.cloneBoard (currentBoard ctl) in
  let moves :=
    Game.generateAllLegalMoves boardForValidation (currentTurn (gameState ctl))
                               (gameState ctl) in
  withState (set_allLegalMovesForCurrentTurn moves (gameState ctl)) ctl.

Definition checkGameEnd (ctl : Controller) : Controller :=
  let color := currentTurn (gameState ctl) in
  let gs := gameState ctl in
  let board := currentBoard ctl in
  let hasLegal := bool_decide (allLegalMovesForCurrentTurn gs <> []) in
  let '(check, cache) := GameEndDetection.isInCheck board color gs (attackCache ctl) in
  let gs := set_isCheck check gs in
  let gs := set_isCheckmate (isCheck gs && negb hasLegal) gs in
  let gs := set_isStalemate (negb (isCheck gs) && negb hasLegal) gs in
  let ruleDraw := GameEndDetection.isDrawByRule board gs in
  let gs := set_isDraw (isStalemate gs || ruleDraw) gs in
  withCache cache (withState gs ctl).

Definition finaliseMove (move : Move) (ctl : Controller) : Controller :=
  let ctl := withState (GameStateOps.addMove (gameState ctl) move) ctl in
  let ctl :=
    withState (GameStateOps.updateStateAfterMove (gameState ctl) move (currentBoard ctl)) ctl in
  let ctl := updateLegalMoves ctl in
  checkGameEnd ctl.

Definition executeMove (move : Move) (ctl : Controller) : Controller :=
  let ctl := withState (GameStateOps.saveSnapshot (gameState ctl) (currentBoard ctl)) ctl in
  let ctl := withBoard (MoveExecutor.executeMove (currentBoard ctl) move) ctl in
  let ctl :=
    if typeIs (p_type (m_piece move)) king then
      if colorIs (p_color (m_piece move)) white
      then withState (set_whiteKingPos (m_to move) (gameState ctl)) ctl
      else withState (set_blackKingPos (m_to move) (gameState ctl)) ctl
    else ctl in
  if PromotionHandler.needsPromotion (m_piece move) (m_to move)
  then withPromotion (Some move) ctl
  else finaliseMove move ctl.

Definition onPromotionPieceSelected (pieceType : PieceType) (ctl : Controller) : Controller :=
  match promotionMove ctl with
  | None => ctl
  | Some pending =>
      let finalMove := PromotionHandler.createPromotionMove pending pieceType in
      let ctl :=
        withBoard (PromotionHandler.executePromotion (currentBoard ctl) (m_to finalMove)
                                                     pieceType) ctl in
      let ctl := withPromotion None ctl in
      finaliseMove finalMove ctl
  end.

Definition sameSquare (a b : BoardCoord) : bool :=
  bool_decide (row a = row b) && bool_decide (col a = col b).

(** [allLegalMovesForCurrentTurn.find(m => ...) || null] *)
Definition findMove (from to : BoardCoord) (ctl : Controller) : option Move :=
  List.find (fun m => sameSquare (m_from m) from && sameSquare (m_to m) to)
            (allLegalMovesForCurrentTurn (gameState ctl)).

Definition ownPieceAt (ctl : Controller) (sq : BoardCoord) : bool :=
  match at_ (currentBoard ctl) sq with
  | Some piece => colorIs (p_color piece) (currentTurn (gameState ctl))
  | None => false
  end.

Definition handleSquareClick (r c : Z) (ctl : Controller) : Controller :=
  let clickedCoord := mkCoord r c in
  match selectedSquare ctl with
  | Some selected =>
      if sameSquare selected clickedCoord then withSelected None ctl
      else
        match findMove selected clickedCoord ctl with
        | Some move => executeMove move (withSelected None ctl)
        | None =>
            if ownPieceAt ctl clickedCoord then withSelected (Some clickedCoord) ctl
            else withSelected None ctl
        end
  | None =>
      if ownPieceAt ctl clickedCoord then
        let hasMoves :=
          existsb (fun m => sameSquare (m_from m) clickedCoord)
                  (allLegalMovesForCurrentTurn (gameState ctl)) in
        if hasMoves then withSelected (Some clickedCoord) ctl else ctl
      else ctl
  end.

Definition restoreSnapshot (snap : GameSnapshot) (ctl : Controller) : Controller :=
  updateLegalMoves (withBoard (BoardUtils.cloneBoard (s_board snap)) ctl).

Definition undo (ctl : Controller) : Controller :=
  let '(snap, gs) := GameStateOps.undo (gameState ctl) in
  let ctl := withState gs ctl in
  match snap with
  | Some snap => restoreSnapshot snap ctl
  | None => ctl
  end.

Definition redo (ctl : Controller) : Controller :=
  let '(snap, gs) := GameStateOps.redo (gameState ctl) in
  let ctl := withState gs ctl in
  match snap with
  | Some snap => restoreSnapshot snap ctl
  | None => ctl
  end.

(** The field initialisers followed by [initGame]. *)
Definition initGame : Controller :=
  let currentBoard := BoardUtils.createInitialBoard in
  let gs := newGameState in
  let startKey := FenGenerator.getPositionKey currentBoard gs in
  let gs := set_positionHistory (<[startKey := 1]> (positionHistory gs)) gs in
  let gs := GameStateOps.saveSnapshot gs currentBoard in
  updateLegalMoves (mkController ∅ gs currentBoard None None).

(** A move entered by the player: a click on the origin square, then a
    click on the destination square. *)
Definition clickMove (from to : BoardCoord) (ctl : Controller) : Controller :=
  handleSquareClick (row to) (col to) (handleSquareClick (row from) (col from) ctl).

Definition playMoves (clicks : list (BoardCoord * BoardCoord)) (ctl : Controller)
    : Controller :=
  foldl (fun c ft => clickMove (fst ft) (snd ft) c) ctl clicks.

End ChessGameController.

(* ===================================================================== *)
(** ** view/renderers, components/Board.ts: the promotion dialog          *)
(* ===================================================================== *)

(** types/Piece.ts *)
Definition PROMOTION_PIECES : list PieceType := [queen; rook; bishop; knight].

Module PieceRenderer.

(** The keys of the images loaded by [preloadImages]. *)
Definition pieces : list string :=
  ["wR"; "wN"; "wB"; "wQ"; "wK"; "wP"; "bR"; "bN"; "bB"; "bQ"; "bK"; "bP"].

Definition getPieceImageKey (piece : Piece) : string :=
  let colorPrefix := FenGenerator.charAt0 (colorName (p_color piece)) in
  let pieceNotation :=
    if typeIs (p_type piece) knight then "N"%char
    else FenGenerator.toUpperCase (FenGenerator.charAt0 (typeName (p_type piece))) in
  String colorPrefix (String pieceNotation "").

End PieceRenderer.

Module PromotionRenderer.

Definition _getChoiceRow (index : Z) (color : PieceColor) : Z :=
  let promotionRank := GAME_CONFIG.promotionRank color in
  let direction := if colorIs color white then -1 else 1 in
  promotionRank + index * direction.

(** [for (let i = 0; i < PROMOTION_PIECES.length; i++)]: the rounds from
    index [i] on, over the pieces not yet visited. *)
Fixpoint choiceLoop (i : Z) (rest : list PieceType) (color : PieceColor) (clickRow : Z)
    : option PieceType :=
  match rest with
  | [] => None
  | t :: rest =>
      if bool_decide (clickRow = _getChoiceRow i color) then Some t
      else choiceLoop (i + 1) rest color clickRow
  end.

Definition getPromotionChoice (move : Move) (clickCoord : BoardCoord) : option PieceType :=
  if negb (bool_decide (col clickCoord = col (m_to move))) then None
  else choiceLoop 0 PROMOTION_PIECES (p_color (m_piece move)) (row clickCoord).

Definition _getPieceImageKey (pieceType : PieceType) (color : PieceColor) : string :=
  let colorPrefix := FenGenerator.charAt0 (colorName color) in
  let pieceNotation :=
    if typeIs pieceType knight then "N"%char
    else FenGenerator.toUpperCase (FenGenerator.charAt0 (typeName pieceType)) in
  String colorPrefix (String pieceNotation "").

End PromotionRenderer.

(** The two fields of the [Board] component that steer a click, and the
    callback a click ends in: [onSquareClick(row, col)],
    [onPromotionChoice(piece)], or none. *)
Record BoardView := mkBoardView {
  isPromotion : bool;
  promoMove : option Move
}.

Inductive ClickCall :=
  | onSquareClick (r c : Z)
  | onPromotionChoice (piece : PieceType).

Module Board.

(** The handler of the 'promotion' event. *)
Definition showPromotionDialog (move : Move) (view : BoardView) : BoardView :=
  mkBoardView true (Some move).

Definition handleClick (coord : BoardCoord) (view : BoardView)
    : option ClickCall * BoardView :=
  match isPromotion view, promoMove view with
  | true, Some move =>
      match PromotionRenderer.getPromotionChoice move coord with
      | Some choice => (Some (onPromotionChoice choice), mkBoardView false None)
      | None => (None, view)
      end
  | _, _ => (Some (onSquareClick (row coord) (col coord)), view)
  end.

End Board.

(* ===================================================================== *)
(** ** services/EventEmitter.ts                                           *)
(* ===================================================================== *)

(** The map from event types to sets of listeners.  A JavaScript [Set]
    keeps its members in insertion order and holds each once: a list
    without repetition.  Listeners are compared by identity; [L] is the
    type of these identities.  [emit] hands one task per listener to
    [queueMicrotask]; its result here is the list of these tasks, each a
    listener with the data it will be called on. *)
Module EventEmitter.
Section Listeners.
Context {L : Type} `{EqDecision L}.

Definition on (type : string) (cb : L) (listeners : gmap string (list L))
    : gmap string (list L) :=
  let set := default [] (listeners !! type) in
  <[type := if bool_decide (cb ∈ set) then set else set ++ [cb]]> listeners.

Definition off (type : string) (cb : L) (listeners : gmap string (list L))
    : gmap string (list L) :=
  match listeners !! type with
  | Some set => <[type := filter (fun x => x <> cb) set]> listeners
  | None => listeners
  end.

Definition emit {D} (type : string) (data : D) (listeners : gmap string (list L))
    : list (L * D) :=
  match listeners !! type with
  | Some set => map (fun cb => (cb, data)) set
  | None => []
  end.

Definition clear (listeners : gmap string (list L)) : gmap string (list L) := ∅.

End Listeners.
End EventEmitter.

(* ===================================================================== *)
(** ** Games and positions used in the statements below                   *)
(* ===================================================================== *)

Module Play.
Import ChessGameController.

Definition sq (r c : Z) : BoardCoord := mkCoord r c.

(** 1.e4 *)
Definition afterE4 : Controller := playMoves [(sq 1 4, sq 3 4)] initGame.

(** 1.d4 e6 2.Nc3 Bb4: the knight on c3 is pinned against the king on e1. *)
Definition pinned : Controller :=
  playMoves [(sq 1 3, sq 3 3); (sq 6 4, sq 5 4); (sq 0 1, sq 2 2); (sq 7 5, sq 3 1)]
            initGame.
Definition knightC3E4 : Move :=
  mkMove (sq 2 2) (sq 3 4) (mkPiece knight white true) None false None None.

(** ... 3.Ne4 Bxe1: the bishop takes the king. *)
Definition kingTaken : Controller :=
  playMoves [(sq 2 2, sq 3 4); (sq 3 1, sq 0 4)] pinned.

(** 1.Nf3 Nf6 2.e3 e6 3.Be2 Be7: White may castle kingside. *)
Definition beforeCastling : Controller :=
  playMoves [(sq 0 6, sq 2 5); (sq 7 6, sq 5 5); (sq 1 4, sq 2 4); (sq 6 4, sq 5 4);
             (sq 0 5, sq 1 4); (sq 7 5, sq 6 4)] initGame.
Definition castleShort : Move :=
  mkMove (sq 0 4) (sq 0 6) (mkPiece king white false) None false (Some kingside) None.
(** ... 4.O-O *)
Definition afterCastling : Controller := clickMove (sq 0 4) (sq 0 6) beforeCastling.

(** 1.e4 a6 2.e5 d5: White may capture en passant on d6. *)
Definition beforeEnPassant : Controller :=
  playMoves [(sq 1 4, sq 3 4); (sq 6 0, sq 5 0); (sq 3 4, sq 4 4); (sq 6 3, sq 4 3)]
            initGame.
Definition takeEnPassant : Move :=
  mkMove (sq 4 4) (sq 5 3) (mkPiece pawn white true)
         (Some (mkPiece pawn black false)) true None None.

(** 1.h4 g5 2.hxg5 h6 3.gxh6 a6 4.h7 a5: the pawn on h7 may capture on g8
    and promote. *)
Definition beforePromotion : Controller :=
  playMoves [(sq 1 7, sq 3 7); (sq 6 6, sq 4 6); (sq 3 7, sq 4 6); (sq 6 7, sq 5 7);
             (sq 4 6, sq 5 7); (sq 6 0, sq 5 0); (sq 5 7, sq 6 7); (sq 5 0, sq 4 0)]
            initGame.
Definition pawnTakesG8 : Move :=
  mkMove (sq 6 7) (sq 7 6) (mkPiece pawn white true)
         (Some (mkPiece knight black false)) false None (Some queen).

(** An attack test that answers [false] and records what stands on square
    [watch] of every board it is called on. *)
Definition recordingTest (watch : BoardCoord) : AttackTest (list Square) :=
  fun b _ _ seen => (false, seen ++ [at_ b watch]).

(** The knights go out and back: 1.Nf3 Nf6 2.Ng1 Ng8. *)
Definition knightCycle : list (BoardCoord * BoardCoord) :=
  [(sq 0 6, sq 2 5); (sq 7 6, sq 5 5); (sq 2 5, sq 0 6); (sq 5 5, sq 7 6)].

(** The same with the other pair of knights: 1.Nc3 Nc6 2.Nb1 Nb8. *)
Definition queenKnightCycle : list (BoardCoord * BoardCoord) :=
  [(sq 0 1, sq 2 2); (sq 7 1, sq 5 2); (sq 2 2, sq 0 1); (sq 5 2, sq 7 1)].

(** How often the current position has occurred according to the game
    state. *)
Definition occurrences (ctl : Controller) : Z :=
  default 0 (positionHistory (gameState ctl)
               !! FenGenerator.getPositionKey (currentBoard ctl) (gameState ctl)).

(** An 8x8 board holding the listed pieces and nothing else. *)
Definition boardOf (pieces : list (BoardCoord * Piece)) : BoardState :=
  foldl (fun b sp => put b (fst sp) (Some (snd sp)))
        (replicate 8 (replicate 8 None)) pieces.

Definition twoKings : list (BoardCoord * Piece) :=
  [(sq 0 4, mkPiece king white true); (sq 7 4, mkPiece king black true)].

(** White: Ke1, Bc1, Be3 (both bishops on dark squares); Black: Ke8. *)
Definition twoBishopsOneSide : BoardState :=
  boardOf (twoKings ++ [(sq 0 2, mkPiece bishop white false);
                        (sq 2 4, mkPiece bishop white true)]).


(** e2-e4 as the generator records it at the start of the game. *)
Definition pawnE4 : Move :=
  mkMove (sq 1 4) (sq 3 4) (mkPiece pawn white false) None false None None.

(** 1.e4 e5 2.Nf3, then two undo steps. *)
Definition undoneTwice : Controller :=
  undo (undo (playMoves [(sq 1 4, sq 3 4); (sq 6 4, sq 4 4); (sq 0 6, sq 2 5)] initGame)).

(** The board after the knights went out and back: the position key of the
    initial position, with four [hasMoved] flags set. *)
Definition afterKnightCycle : Controller := playMoves knightCycle initGame.

(** The cache after one query on that board. *)
Definition warmCache : gmap string bool :=
  snd (Game.isSquareAttacked (currentBoard afterKnightCycle) (sq 2 5) white
                             (gameState afterKnightCycle) ∅).

(** Whether the draw is owed to another rule than repetition. *)
Definition otherDrawCause (ctl : Controller) : bool :=
  isStalemate (gameState ctl) || (100 <=? halfMoveClock (gameState ctl))
  || GameEndDetection.isInsufficientMaterial (currentBoard ctl).

(** After each prefix of a list of moves played from the start: the draw
    flag, the occurrence count of the current position, and whether another
    draw rule applies. *)
Definition repetitionTrace (clicks : list (BoardCoord * BoardCoord))
    : list (bool * Z * bool) :=
  map (fun n =>
         let ctl := playMoves (take n clicks) initGame in
         (isDraw (gameState ctl), occurrences ctl, otherDrawCause ctl))
      (seq 1 (length clicks)).

(** The pieces of one side other than its king. *)
Definition nonKings (board : BoardState) (c : PieceColor) : list (Piece * BoardCoord) :=
  filter (fun p => p_type (fst p) <> king) (BoardUtils.getPiecesByColor board c).

Definition isMinor (p : Piece) : bool :=
  typeIs (p_type p) bishop || typeIs (p_type p) knight.

Definition sameSquareColor (a b : BoardCoord) : bool :=
  bool_decide ((row a + col a) mod 2 = (row b + col b) mod 2).

(** The three balances listed in the description of insufficient material:
    king against king; king and one minor piece against king; king and
    bishop against king and bishop with the bishops on squares of one
    colour. *)
Definition listedBalance (board : BoardState) : bool :=
  match nonKings board white, nonKings board black with
  | [], [] => true
  | [p], [] | [], [p] => isMinor (fst p)
  | [p], [q] =>
      typeIs (p_type (fst p)) bishop && typeIs (p_type (fst q)) bishop
      && sameSquareColor (snd p) (snd q)
  | _, _ => false
  end.

Definition twoKnightsOneSide : BoardState :=
  boardOf (twoKings ++ [(sq 0 1, mkPiece knight white false);
                        (sq 0 6, mkPiece knight white false)]).
Definition bishopAndKnightOneSide : BoardState :=
  boardOf (twoKings ++ [(sq 0 2, mkPiece bishop white false);
                        (sq 0 6, mkPiece knight white false)]).
Definition bishopAgainstKnight : BoardState :=
  boardOf (twoKings ++ [(sq 0 2, mkPiece bishop white false);
                        (sq 7 6, mkPiece knight black false)]).
Definition bishopsSameColor : BoardState :=
  boardOf (twoKings ++ [(sq 0 2, mkPiece bishop white false);
                        (sq 7 5, mkPiece bishop black false)]).
Definition bishopsOppositeColor : BoardState :=
  boardOf (twoKings ++ [(sq 0 2, mkPiece bishop white false);
                        (sq 7 2, mkPiece bishop black false)]).

(** White: Ke1, Rh1, neither has moved; Black: Ke8. *)
Definition castlingCorner : BoardState :=
  boardOf [(sq 0 4, mkPiece king white false); (sq 0 7, mkPiece rook white false);
           (sq 7 4, mkPiece king black true)].

(** The attack computation as a test without state. *)
Definition directTest : AttackTest unit :=
  fun b p c s => (Game._calculateIsSquareAttacked b p c, s).

(** White: Ke1, pawn e5; Black: Ke8, pawn d5, which has just come from d7. *)
Definition enPassantCorner : BoardState :=
  boardOf (twoKings ++ [(sq 4 4, mkPiece pawn white true);
                        (sq 4 3, mkPiece pawn black true)]).
Definition pawnD7D5 : Move :=
  mkMove (sq 6 3) (sq 4 3) (mkPiece pawn black false) None false None None.

(** White: Ke1, pawn a8; Black: Ke8. *)
Definition promotionCorner : BoardState :=
  boardOf (twoKings ++ [(sq 7 0, mkPiece pawn white true)]).

End Play.

(* ===================================================================== *)
(** ** Notions used in the statements                                     *)
(* ===================================================================== *)

(** A move record agrees with a board when it describes a move of that
    board: for a plain move, distinct squares of the grid, a piece on the
    origin whose [hasMoved] flag is the one recorded in [piece], the content
    of the destination recorded in [captured], and a promotion only for a
    pawn; for a move flagged as castling or en passant, an empty
    destination square. *)
Definition agrees (board : BoardState) (m : Move) : Prop :=
  match m_isCastling m with
  | Some _ => at_ board (m_to m) = None
  | None =>
      if m_isEnPassant m then at_ board (m_to m) = None
      else
        wf_board board /\
        isValidCoord (m_from m) = true /\ isValidCoord (m_to m) = true /\
        m_from m <> m_to m /\
        exists p, at_ board (m_from m) = Some p /\
                  p_hasMoved (m_piece m) = p_hasMoved p /\
                  m_captured m = at_ board (m_to m) /\
                  (m_promotion m <> None -> p_type p = pawn)
  end.

(** A computation of a generation pass that, started on [board], ends with
    the same board. *)
Definition keepsBoard {A} (board : BoardState) (c : State Game.Pass A) : Prop :=
  forall cache, fst (snd (c (board, cache))) = board.

(** The states of the controller met in a session: the initial state, and
    those that follow from clicks on squares, choices of a promotion piece,
    undo and redo. *)
Inductive session : Controller -> Prop :=
  | session_start : session ChessGameController.initGame
  | session_click r c ctl :
      session ctl -> session (ChessGameController.handleSquareClick r c ctl)
  | session_promote t ctl :
      session ctl -> session (ChessGameController.onPromotionPieceSelected t ctl)
  | session_undo ctl : session ctl -> session (ChessGameController.undo ctl)
  | session_redo ctl : session ctl -> session (ChessGameController.redo ctl).

(** The cursor points into the stack, or is [-1] while the stack is
    empty. *)
Definition cursor_ok (gs : GameState) : Prop :=
  -1 <= currentSnapshotIndex gs < Z.of_nat (length (gameSnapshots gs)).

(** What the placement part of a position key shows of a square. *)
Definition layout (board : BoardState) (r c : Z) : option (PieceType * PieceColor) :=
  match idx board r c with
  | Some p => Some (p_type p, p_color p)
  | None => None
  end.

Definition same_layout (b1 b2 : BoardState) : Prop :=
  forall r c, layout b1 r c = layout b2 r c.

(** Reading a placement string back: a digit from 1 to 8 stands for that
    many empty squares, a slash separates rows, any other character is
    kept. *)
Definition tokensOfChar (ch : ascii) : list (option ascii) :=
  let n := nat_of_ascii ch in
  if (49 <=? n)%nat && (n <=? 56)%nat then replicate (n - 48) None
  else if (n =? 47)%nat then []
  else [Some ch].

Fixpoint tokens (s : string) : list (option ascii) :=
  match s with
  | EmptyString => []
  | String ch rest => tokensOfChar ch ++ tokens rest
  end.

Definition squareToken (sq : Square) : option ascii :=
  match sq with
  | Some p => Some (FenGenerator.pieceChar p)
  | None => None
  end.

Definition boardTokens (board : BoardState) : list (option ascii) :=
  concat (map (fun r => map (fun c => squareToken (idx board r c)) range8)
              [7; 6; 5; 4; 3; 2; 1; 0]).

(** The caches that a [Game] object can hold: empty at creation, and
    extended only by [isSquareAttacked], called on boards and squares of
    the 8x8 grid. *)
Inductive attackCache_reachable : gmap string bool -> Prop :=
  | cache_new : attackCache_reachable ∅
  | cache_query cache board position attackingColor gameState :
      attackCache_reachable cache ->
      wf_board board -> isValidCoord position = true ->
      attackCache_reachable
        (snd (Game.isSquareAttacked board position attackingColor gameState cache)).

(** Every entry of the cache is the attack computation of every board and
    square that has its key. *)
Definition cache_sound (cache : gmap string bool) : Prop :=
  forall board position attackingColor gameState hit,
    wf_board board -> isValidCoord position = true ->
    cache !! Game.cacheKey board position attackingColor gameState = Some hit ->
    hit = Game._calculateIsSquareAttacked board position attackingColor.

(** The squares strictly between two squares of a common rank, file or
    diagonal are empty. *)
Definition between_empty (board : BoardState) (from to : BoardCoord) : Prop :=
  forall k, 0 < k < Z.max (Z.abs (row to - row from)) (Z.abs (col to - col from)) ->
    idx board (row from + k * Z.sgn (row to - row from))
              (col from + k * Z.sgn (col to - col from)) = None.

(** What [canCastle] demands of the position, apart from the attack
    tests. *)
Definition castlingSetup (board : BoardState) (king_ : Piece) (from to : BoardCoord)
    (side : CastleSide) : Prop :=
  p_hasMoved king_ = false /\
  row to = row from /\
  (if isKingside side then col from < col to else col to <= col from) /\
  col to = (if isKingside side then 6 else 2) /\
  (exists rook_, idx board (row from) (if isKingside side then 7 else 0) = Some rook_ /\
                 p_type rook_ = rook /\ p_color rook_ = p_color king_ /\
                 p_hasMoved rook_ = false) /\
  (forall c, In c (if isKingside side then [5; 6] else [1; 2; 3]) ->
             idx board (row from) c = None).

(** A piece of [color] on square [from] of the board that the attack
    computation counts as attacking [pos]: a pawn one row ahead of which and
    one column aside [pos] lies, or another piece for which the move from
    [from] to [pos] passes [isValidMove]. *)
Definition attacker (board : BoardState) (color : PieceColor) (pos from : BoardCoord) : Prop :=
  isValidCoord from = true /\
  exists piece,
    at_ board from = Some piece /\ p_color piece = color /\
    if typeIs (p_type piece) pawn
    then row from + (if colorIs color white then 1 else -1) = row pos
         /\ Z.abs (col pos - col from) = 1
    else isValidMove (ValidatorFactory.getValidatorCached piece) board from pos = true.

(** What can be said of every move that a generation pass on [board] for
    [color] offers. *)
Definition offered_ok (board : BoardState) (color : PieceColor) (gs : GameState)
    (m : Move) : Prop :=
  isValidCoord (m_from m) = true /\ isValidCoord (m_to m) = true /\
  m_from m <> m_to m /\
  at_ board (m_from m) = Some (m_piece m) /\
  (forall d, at_ board (m_to m) = Some d -> p_color d <> p_color (m_piece m)) /\
  match m_isCastling m with
  | Some side =>
      p_type (m_piece m) = king /\ m_from m = kingPosOf gs color /\
      castlingSetup board (m_piece m) (m_from m) (m_to m) side /\
      m_isEnPassant m = false /\ m_captured m = None /\ m_promotion m = None
  | None =>
      p_color (m_piece m) = color /\
      if m_isEnPassant m then
        p_type (m_piece m) = pawn /\
        EnPassantHandler.isEnPassantMove (m_piece m) board (m_from m) (m_to m) (lastMove gs)
        = true /\
        m_captured m = option_map m_piece (lastMove gs) /\ m_promotion m = None
      else
        isValidMove (ValidatorFactory.getValidatorCached (m_piece m)) board (m_from m) (m_to m)
        = true /\
        m_captured m = at_ board (m_to m) /\
        m_promotion m = (if PromotionHandler.needsPromotion (m_piece m) (m_to m)
                         then Some queen else None)
  end.

(** A computation of a generation pass that, started on [board], offers
    only moves with property [P]. *)
Definition yields (P : Move -> Prop) (board : BoardState)
    (c : State Game.Pass (list Move)) : Prop :=
  forall cache, Forall P (fst (c (board, cache))).

(** The fields of a game state that a snapshot stores. *)
Definition rulesState (gs : GameState) :=
  (currentTurn gs, moveHistory gs, lastMove gs,
   (isCheck gs, isCheckmate gs, isStalemate gs, isDraw gs),
   (whiteKingPos gs, blackKingPos gs), halfMoveClock gs, positionHistory gs).

(** The same fields as a snapshot holds them. *)
Definition snapshotState (snap : GameSnapshot) :=
  (s_currentTurn snap, s_moveHistory snap, s_lastMove snap,
   (s_isCheck snap, s_isCheckmate snap, s_isStalemate snap, s_isDraw snap),
   (s_whiteKingPos snap, s_blackKingPos snap), s_halfMoveClock snap,
   s_positionHistory snap).

(** What every state of a session keeps about boards, king squares, listed
    moves and the persistent cache. *)
Definition snapshot_on_board (snap : GameSnapshot) : Prop :=
  wf_board (s_board snap) /\
  isValidCoord (s_whiteKingPos snap) = true /\ isValidCoord (s_blackKingPos snap) = true.

Definition on_board (ctl : Controller) : Prop :=
  wf_board (currentBoard ctl) /\
  isValidCoord (whiteKingPos (gameState ctl)) = true /\
  isValidCoord (blackKingPos (gameState ctl)) = true /\
  Forall snapshot_on_board (gameSnapshots (gameState ctl)) /\
  Forall (fun m => isValidCoord (m_to m) = true)
         (allLegalMovesForCurrentTurn (gameState ctl)) /\
  (forall m, promotionMove ctl = Some m -> isValidCoord (m_to m) = true) /\
  attackCache_reachable (attackCache ctl).

(** The stored fields of a game state fit together: the last move is the
    last entry of the history, White is to move after an even number of
    moves, the half-move clock lies between zero and the number of moves,
    mate comes with check, and stalemate comes without check and with the
    draw flag. *)
Definition fields_fit
    (v : PieceColor * list Move * option Move * (bool * bool * bool * bool)
         * (BoardCoord * BoardCoord) * Z * gmap string Z) : Prop :=
  let '(turn, history, lastMove_, (check, mate, stale, draw), _, clock, _) := v in
  lastMove_ = last history /\
  turn = (if Nat.even (length history) then white else black) /\
  0 <= clock <= Z.of_nat (length history) /\
  (mate = true -> check = true) /\
  (stale = true -> check = false /\ draw = true).

(** The same of a controller: of its game state and of every snapshot on
    the stack. *)
Definition fit (ctl : Controller) : Prop :=
  fields_fit (rulesState (gameState ctl)) /\
  Forall (fun snap => fields_fit (snapshotState snap)) (gameSnapshots (gameState ctl)).

(** Calls on an emitter, and the emitter after a sequence of calls on a
    new one. *)
Inductive EmitterCall (L : Type) :=
  | callOn (type : string) (cb : L)
  | callOff (type : string) (cb : L)
  | callClear.
Arguments callOn {L} type cb.
Arguments callOff {L} type cb.
Arguments callClear {L}.

Definition emitterAfter {L} `{EqDecision L} (calls : list (EmitterCall L))
    : gmap string (list L) :=
  foldl (fun listeners call =>
           match call with
           | callOn type cb => EventEmitter.on type cb listeners
           | callOff type cb => EventEmitter.off type cb listeners
           | callClear => EventEmitter.clear listeners
           end) ∅ calls.

(** Whether the last of the calls that concern listener [cb] of [type] (an
    [on] or [off] for it, or a [clear]) is an [on]. *)
Definition subscribed {L} `{EqDecision L} (calls : list (EmitterCall L))
    (type : string) (cb : L) : bool :=
  foldl (fun answer call =>
           match call with
           | callOn t c => if bool_decide (t = type /\ c = cb) then true else answer
           | callOff t c => if bool_decide (t = type /\ c = cb) then false else answer
           | callClear => false
           end) false calls.

(* ===================================================================== *)
(** * Properties                                                          *)
(* ===================================================================== *)

(** ** Evaluation on concrete inputs *)

Lemma existsb_In {A} `{EqDecision A} (x : A) (l : list A) :
  existsb (fun y => bool_decide (y = x)) l = true -> In x l.
Proof.
  intros H. apply existsb_exists in H as (y & Hy & Heq).
  apply bool_decide_eq_true in Heq. by subst.
Qed.

Ltac evaluate := vm_compute; reflexivity.
Ltac member := apply existsb_In; vm_compute; reflexivity.
Ltac conjuncts := cbv zeta; repeat match goal with |- _ /\ _ => split end.
Ltac settle :=
  conjuncts; match goal with |- In _ _ => member | |- _ => evaluate end.

(** ** Boards as grids *)

Section Grid.

Lemma copyPiece_same (p : Piece) : BoardUtils.copyPiece p = p.
Proof. by destruct p. Qed.

(** A deep copy is a board with the same content. *)
Lemma cloneBoard_same (board : BoardState) : BoardUtils.cloneBoard board = board.
Proof.
  unfold BoardUtils.cloneBoard.
  induction board as [|line rest IH]; [done|].
  cbn [map]. rewrite IH. f_equal.
  induction line as [|s line IHl]; [done|].
  cbn [map]. rewrite IHl. destruct s as [p|]; [by rewrite copyPiece_same|done].
Qed.

Lemma wf_board_row (board : BoardState) (r : Z) :
  wf_board board -> 0 <= r < 8 ->
  exists line, board !! Z.to_nat r = Some line /\ length line = 8%nat.
Proof.
  intros [Hlen Hrows] Hr.
  destruct (lookup_lt_is_Some_2 board (Z.to_nat r)) as [line Hline]; [lia|].
  exists line. split; [done|].
  by eapply (Forall_lookup_1 _ _ _ _ Hrows).
Qed.

Lemma wf_upd (board : BoardState) (r c : Z) (v : Square) :
  wf_board board -> wf_board (upd board r c v).
Proof.
  intros [Hlen Hrows]. unfold upd.
  destruct ((0 <=? r) && (0 <=? c)); [|done].
  destruct (board !! Z.to_nat r) as [line|] eqn:Hline; [|done].
  split; [by rewrite length_insert|].
  apply Forall_insert; [done|].
  rewrite length_insert. by eapply (Forall_lookup_1 _ _ _ _ Hrows).
Qed.

Lemma idx_upd (board : BoardState) (r c r' c' : Z) (v : Square) :
  wf_board board -> 0 <= r < 8 -> 0 <= c < 8 ->
  idx (upd board r c v) r' c' = if decide (r' = r /\ c' = c) then v else idx board r' c'.
Proof.
  intros Hwf Hr Hc.
  destruct (wf_board_row board r Hwf Hr) as (line & Hline & Hlen).
  unfold upd. replace ((0 <=? r) && (0 <=? c)) with true by (symmetry; apply andb_true_iff; lia).
  rewrite Hline. unfold idx.
  destruct (Z.leb_spec 0 r'), (Z.leb_spec 0 c'); cbn [andb];
    try (case_decide; [lia|done]).
  destruct (decide (r' = r)) as [->|Hne].
  - rewrite list_lookup_insert_eq by (destruct Hwf; lia). rewrite Hline.
    destruct (decide (c' = c)) as [->|Hnc].
    + rewrite list_lookup_insert_eq by lia. by rewrite decide_True.
    + rewrite list_lookup_insert_ne by lia. rewrite decide_False by tauto. done.
  - rewrite list_lookup_insert_ne by lia. rewrite decide_False by tauto. done.
Qed.

(** Two 8x8 boards with the same content on every square are equal. *)
Lemma board_ext (b1 b2 : BoardState) :
  wf_board b1 -> wf_board b2 ->
  (forall r c, 0 <= r < 8 -> 0 <= c < 8 -> idx b1 r c = idx b2 r c) -> b1 = b2.
Proof.
  intros Hwf1 Hwf2 Hsame.
  apply list_eq. intros i.
  destruct (decide (i < 8)%nat) as [Hi|Hi].
  2:{ destruct Hwf1, Hwf2. rewrite !lookup_ge_None_2 by lia. done. }
  destruct (wf_board_row b1 (Z.of_nat i) Hwf1) as (l1 & Hl1 & Hlen1); [lia|].
  destruct (wf_board_row b2 (Z.of_nat i) Hwf2) as (l2 & Hl2 & Hlen2); [lia|].
  rewrite Nat2Z.id in Hl1, Hl2. rewrite Hl1, Hl2. f_equal.
  apply list_eq. intros j.
  destruct (decide (j < 8)%nat) as [Hj|Hj].
  2:{ rewrite !lookup_ge_None_2 by lia. done. }
  specialize (Hsame (Z.of_nat i) (Z.of_nat j)).
  unfold idx in Hsame.
  replace ((0 <=? Z.of_nat i) && (0 <=? Z.of_nat j)) with true in Hsame
    by (symmetry; apply andb_true_iff; lia).
  rewrite !Nat2Z.id, Hl1, Hl2 in Hsame.
  destruct (lookup_lt_is_Some_2 l1 j) as [x1 Hx1]; [lia|].
  destruct (lookup_lt_is_Some_2 l2 j) as [x2 Hx2]; [lia|].
  rewrite Hx1, Hx2 in Hsame |- *. f_equal. apply Hsame; lia.
Qed.

Lemma isValidCoord_range (p : BoardCoord) :
  isValidCoord p = true <-> 0 <= row p < 8 /\ 0 <= col p < 8.
Proof. unfold isValidCoord. rewrite !andb_true_iff. lia. Qed.

Lemma at_put (board : BoardState) (p q : BoardCoord) (v : Square) :
  wf_board board -> isValidCoord p = true ->
  at_ (put board p v) q = if decide (q = p) then v else at_ board q.
Proof.
  intros Hwf Hp. apply isValidCoord_range in Hp as [Hr Hc].
  unfold at_, put. rewrite idx_upd by done.
  destruct (decide (q = p)) as [->|Hne].
  - by rewrite decide_True.
  - rewrite decide_False; [done|].
    intros [Hrow Hcol]. apply Hne. destruct p, q; simpl in *; congruence.
Qed.

Lemma wf_put (board : BoardState) (p : BoardCoord) (v : Square) :
  wf_board board -> wf_board (put board p v).
Proof. apply wf_upd. Qed.

Lemma wf_board_initial : wf_board BoardUtils.createInitialBoard.
Proof. split; [vm_compute; reflexivity|]. vm_compute. repeat constructor. Qed.

End Grid.

(** ** The bounded loops run to their end *)

Section Loops.

(** A ray leaves the board within eight steps: more rounds add nothing. *)
Lemma ray_rounds (measure : BoardCoord -> Z) dRow dCol :
  (forall pos, measure (mkCoord (row pos + dRow) (col pos + dCol)) = measure pos - 1) ->
  (forall pos, isValidCoord pos = true -> 1 <= measure pos <= 8) ->
  forall n extra pos,
    (isValidCoord pos = true -> measure pos <= Z.of_nat n) ->
    ray (n + extra) pos dRow dCol = ray n pos dRow dCol.
Proof.
  intros Hstep Hrange. induction n as [|n IH]; intros extra pos Hn.
  - cbn [ray Nat.add]. destruct extra as [|extra]; [done|]. cbn [ray].
    destruct (isValidCoord pos) eqn:Hv; [|done].
    specialize (Hrange pos Hv). specialize (Hn eq_refl). lia.
  - cbn [ray Nat.add]. destruct (isValidCoord pos) eqn:Hv; [|done].
    f_equal. apply IH. intros _. rewrite Hstep. specialize (Hn eq_refl). lia.
Qed.

Lemma ray_eight dRow dCol extra pos :
  dRow = 1 \/ dRow = -1 \/ dCol = 1 \/ dCol = -1 ->
  ray (8 + extra) pos dRow dCol = ray 8 pos dRow dCol.
Proof.
  intros Hd.
  assert (Hv : forall p, isValidCoord p = true -> 0 <= row p < 8 /\ 0 <= col p < 8)
    by (intros p; apply isValidCoord_range).
  destruct Hd as [-> | [-> | [-> | ->]]].
  - apply (ray_rounds (fun p => 8 - row p)); cbn [row col]; intros; try apply Hv in H; lia.
  - apply (ray_rounds (fun p => row p + 1)); cbn [row col]; intros; try apply Hv in H; lia.
  - apply (ray_rounds (fun p => 8 - col p)); cbn [row col]; intros; try apply Hv in H; lia.
  - apply (ray_rounds (fun p => col p + 1)); cbn [row col]; intros; try apply Hv in H; lia.
Qed.

(** Between two squares [steps] steps apart on a line, the path loop ends
    on its own: more rounds change nothing. *)
Lemma pathLoop_rounds board to dRow dCol n extra :
  forall steps cr cc,
    0 <= steps <= Z.of_nat n ->
    row to = cr + steps * dRow -> col to = cc + steps * dCol ->
    (steps > 0 -> dRow <> 0 \/ dCol <> 0) ->
    pathLoop (n + extra) board cr cc to dRow dCol = pathLoop n board cr cc to dRow dCol.
Proof.
  induction n as [|n IH]; intros steps cr cc Hsteps Hrow Hcol Hdir.
  - assert (steps = 0) as -> by lia.
    assert (cr = row to) as -> by lia. assert (cc = col to) as -> by lia.
    destruct extra; cbn [pathLoop Nat.add]; by rewrite ?bool_decide_eq_true_2 by done.
  - cbn [pathLoop Nat.add].
    destruct (negb (bool_decide (cr = row to)) || negb (bool_decide (cc = col to))) eqn:Hgo;
      [|done].
    destruct (bool_decide (idx board cr cc <> None)); [done|].
    assert (steps <> 0).
    { intros ->. rewrite !bool_decide_eq_true_2 in Hgo by lia. done. }
    apply (IH (steps - 1)); lia.
Qed.

(** On a common rank, file or diagonal [isPathClear] has rounds enough. *)
Lemma isPathClear_rounds board from to extra :
  row from = row to \/ col from = col to
  \/ Z.abs (row to - row from) = Z.abs (col to - col from) ->
  let dRow := Z.sgn (row to - row from) in
  let dCol := Z.sgn (col to - col from) in
  pathLoop (Z.to_nat (Z.max (Z.abs (row to - row from)) (Z.abs (col to - col from))) + extra)
           board (row from + dRow) (col from + dCol) to dRow dCol
  = isPathClear board from to.
Proof.
  intros Hline dRow dCol. unfold isPathClear. fold dRow dCol.
  set (dist := Z.max (Z.abs (row to - row from)) (Z.abs (col to - col from))).
  destruct (decide (dist = 0)) as [Hz|Hnz].
  - apply (pathLoop_rounds board to dRow dCol _ extra 0); subst dRow dCol; lia.
  - apply (pathLoop_rounds board to dRow dCol _ extra (dist - 1)); subst dRow dCol dist; lia.
Qed.

End Loops.

(** ** Making and unmaking a move *)

Section MakeUnmake.
Import MoveExecutor.

Lemma unmakePromotion_empty board pos :
  at_ board pos = None -> PromotionHandler.unmakePromotion board pos = board.
Proof. intros H. unfold PromotionHandler.unmakePromotion. by rewrite H. Qed.

Lemma makeMove_special board m :
  m_isCastling m <> None \/ m_isEnPassant m = true -> _makeMove board m = board.
Proof.
  intros H. unfold _makeMove.
  destruct (m_isCastling m) as [side|]; [by destruct (m_promotion m)|].
  destruct H as [H|H]; [done|]. rewrite H. by destruct (m_promotion m).
Qed.

Lemma make_unmake_plain board m p :
  wf_board board ->
  isValidCoord (m_from m) = true -> isValidCoord (m_to m) = true ->
  m_from m <> m_to m ->
  at_ board (m_from m) = Some p ->
  p_hasMoved (m_piece m) = p_hasMoved p ->
  m_captured m = at_ board (m_to m) ->
  _unmakeNormalMove (_makeNormalMove board m) m = board.
Proof.
  intros Hwf Hfrom Hto Hne Hp Hflag Hcap.
  unfold _makeNormalMove. rewrite Hp.
  unfold _unmakeNormalMove.
  rewrite !at_put by auto using wf_put.
  rewrite decide_False by congruence. rewrite decide_True by done.
  apply board_ext; [auto using wf_put..|].
  intros r c Hr Hc.
  change (idx ?b r c) with (at_ b (mkCoord r c)).
  rewrite !at_put by auto using wf_put.
  repeat case_decide; try congruence.
  match goal with E : mkCoord r c = m_from m |- _ => rewrite E, Hp end.
  f_equal. destruct p; simpl in *. by rewrite Hflag.
Qed.

Lemma make_unmake board m : agrees board m -> _unmakeMove (_makeMove board m) m = board.
Proof.
  unfold agrees. intros H.
  destruct (m_isCastling m) as [side|] eqn:Hc.
  { rewrite makeMove_special by (left; congruence).
    unfold _unmakeMove. rewrite Hc.
    assert (Hp : match m_promotion m with
                 | Some _ => PromotionHandler.unmakePromotion board (m_to m)
                 | None => board end = board).
    { destruct (m_promotion m); [by apply unmakePromotion_empty|done]. }
    rewrite Hp. unfold CastlingHandler.unmakeCastling. by rewrite H. }
  destruct (m_isEnPassant m) eqn:He.
  { rewrite makeMove_special by (by right).
    unfold _unmakeMove. rewrite Hc, He.
    assert (Hp : match m_promotion m with
                 | Some _ => PromotionHandler.unmakePromotion board (m_to m)
                 | None => board end = board).
    { destruct (m_promotion m); [by apply unmakePromotion_empty|done]. }
    rewrite Hp. unfold EnPassantHandler.unmakeEnPassant. by rewrite H. }
  destruct H as (Hwf & Hfrom & Hto & Hne & p & Hp & Hflag & Hcap & Hprom).
  assert (Hmk : _makeMove board m = _makeNormalMove board m).
  { unfold _makeMove. rewrite Hc, He. by destruct (m_promotion m). }
  rewrite Hmk. unfold _unmakeMove. rewrite Hc, He.
  destruct (m_promotion m) as [t|] eqn:Ht.
  - assert (Hpawn : p_type p = pawn) by (apply Hprom; congruence).
    assert (Hsame : PromotionHandler.unmakePromotion (_makeNormalMove board m) (m_to m)
                    = _makeNormalMove board m).
    { unfold PromotionHandler.unmakePromotion, _makeNormalMove. rewrite Hp.
      rewrite !at_put by auto using wf_put.
      rewrite decide_False by congruence. rewrite decide_True by done.
      apply board_ext; [auto using wf_put..|].
      intros r c Hr Hcc.
      change (idx ?b r c) with (at_ b (mkCoord r c)).
      rewrite !at_put by auto using wf_put.
      repeat case_decide; try congruence.
      f_equal. destruct p; simpl in *. by subst. }
    rewrite Hsame. by eapply make_unmake_plain.
  - by eapply make_unmake_plain.
Qed.

Lemma probe_restores {S} board m kingPos (test : AttackTest S) (s : S) :
  agrees board m -> snd (fst (wouldLeaveKingInCheck board m kingPos test s)) = board.
Proof.
  intros H. unfold wouldLeaveKingInCheck.
  destruct (test _ _ _ s) as [isCheck s1]. cbn [fst snd]. by apply make_unmake.
Qed.

End MakeUnmake.




(** ** The generation pass leaves the board as it found it *)

Section Pass.
Import Game.

Lemma keepsBoard_ret {A} board (a : A) : keepsBoard board (ret a).
Proof. by intros cache. Qed.

Lemma keepsBoard_bind {A B} board (c : State Pass A) (k : A -> State Pass B) :
  keepsBoard board c -> (forall a, keepsBoard board (k a)) -> keepsBoard board (bind c k).
Proof.
  intros Hc Hk cache. unfold bind. specialize (Hc cache).
  destruct (c (board, cache)) as [a [b1 c1]]. cbn in Hc. subst b1. apply Hk.
Qed.

Lemma keepsBoard_forEachPush {A B} board (xs : list A) (body : A -> State Pass (list B)) :
  (forall x, In x xs -> keepsBoard board (body x)) -> keepsBoard board (forEachPush xs body).
Proof.
  induction xs as [|x xs IH]; intros Hbody; cbn [forEachPush].
  - apply keepsBoard_ret.
  - apply keepsBoard_bind; [apply Hbody; by left|]. intros ys.
    apply keepsBoard_bind; [apply IH; intros y Hy; apply Hbody; by right|].
    intros zs. apply keepsBoard_ret.
Qed.

Lemma keepsBoard_probe board move kingPos :
  agrees board move -> keepsBoard board (probe move kingPos).
Proof.
  intros Hag cache. unfold probe.
  pose proof (probe_restores board move kingPos isAttackedDuringSim cache Hag) as Hsame.
  destruct (MoveExecutor.wouldLeaveKingInCheck _ _ _ _ _) as [[isCheck b1] c1].
  by cbn in *.
Qed.

Lemma ray_valid rounds pos dRow dCol to :
  In to (ray rounds pos dRow dCol) -> isValidCoord to = true.
Proof.
  revert pos. induction rounds as [|n IH]; intros pos; cbn [ray]; [done|].
  destruct (isValidCoord pos) eqn:Hpos; [|done].
  intros [<-|Hin]; [done|by eapply IH].
Qed.

Lemma rays_valid from directions to : In to (rays from directions) -> isValidCoord to = true.
Proof.
  unfold rays. rewrite in_flat_map. intros (d & _ & Hin). by eapply ray_valid.
Qed.

Lemma potentialMoves_valid piece from to :
  In to (getPotentialMoves (ValidatorFactory.getValidatorCached piece) from) ->
  isValidCoord to = true.
Proof.
  unfold ValidatorFactory.getValidatorCached.
  destruct (p_type piece); [destruct (colorIs _ _)|..]; cbn [getPotentialMoves].
  - unfold PawnValidator.getPotentialMoves. rewrite !in_app_iff.
    repeat match goal with
           | |- context [if ?b then _ else _] => destruct b eqn:?
           end; cbn; intuition (subst; done).
  - unfold PawnValidator.getPotentialMoves. rewrite !in_app_iff.
    repeat match goal with
           | |- context [if ?b then _ else _] => destruct b eqn:?
           end; cbn; intuition (subst; done).
  - unfold KnightValidator.getPotentialMoves. rewrite in_flat_map.
    intros (d & _ & Hin). destruct (isValidCoord _) eqn:Hv; [|done].
    by destruct Hin as [<-|[]].
  - apply rays_valid.
  - apply rays_valid.
  - unfold QueenValidator.getPotentialMoves. rewrite in_app_iff.
    intros [H|H]; by eapply rays_valid.
  - unfold KingValidator.getPotentialMoves. rewrite in_flat_map.
    intros (dr & _ & Hin). rewrite in_flat_map in Hin. destruct Hin as (dc & _ & Hin).
    destruct (_ && _); [done|]. destruct (isValidCoord _) eqn:Hv; [|done].
    by destruct Hin as [<-|[]].
Qed.

Lemma keepsBoard_validateMoveLite board piece from to gs :
  wf_board board -> isValidCoord from = true -> isValidCoord to = true ->
  at_ board from = Some piece ->
  keepsBoard board (_validateMoveLite piece from to gs).
Proof.
  intros Hwf Hfrom Hto Hpiece cache. unfold _validateMoveLite.
  destruct (match at_ board to with
            | Some d => colorIs (p_color d) (p_color piece)
            | None => false end) eqn:Hown; [done|].
  match goal with |- context [probe ?m ?k _] =>
    pose proof (keepsBoard_probe board m k) as Hprobe;
    destruct (probe m k (board, cache)) as [inCheck [b1 c1]] eqn:Hrun end.
  assert (b1 = board) as ->.
  { assert (Hag : agrees board (mkMove from to (BoardUtils.copyPiece piece) (at_ board to)
                     false None
                     (if PromotionHandler.needsPromotion piece to then Some queen else None))).
    { unfold agrees. cbn [m_isCastling m_isEnPassant m_from m_to m_piece m_captured
                          m_promotion].
      split; [done|]. split; [done|]. split; [done|]. split.
      - intros ->. rewrite Hpiece in Hown. unfold colorIs in Hown.
        by rewrite bool_decide_eq_true_2 in Hown.
      - exists piece. split; [done|]. split; [by rewrite copyPiece_same|].
        split; [done|]. unfold PromotionHandler.needsPromotion, typeIs.
        case_bool_decide; cbn [negb]; [done|]. by intros []. }
    specialize (Hprobe Hag cache). by rewrite Hrun in Hprobe. }
  by destruct inCheck.
Qed.

Lemma keepsBoard_generateMovesForPiece board piece from gs :
  wf_board board -> isValidCoord from = true -> at_ board from = Some piece ->
  keepsBoard board (_generateMovesForPiece piece from gs).
Proof.
  intros Hwf Hfrom Hpiece. unfold _generateMovesForPiece.
  apply keepsBoard_forEachPush. intros to Hto cache.
  destruct (isValidMove _ board from to); cbn [negb]; [|done].
  pose proof (keepsBoard_validateMoveLite board piece from to gs Hwf Hfrom
                (potentialMoves_valid _ _ _ Hto) Hpiece cache) as Hkeep.
  by destruct (_validateMoveLite piece from to gs (board, cache)) as [[m|] [b1 c1]].
Qed.

Lemma keepsBoard_castle board king_ kingPos toCol :
  keepsBoard board (castle king_ kingPos toCol).
Proof.
  intros cache. unfold castle.
  by destruct (CastlingHandler.canCastle _ _ _ _ _ _) as [[m|] c1].
Qed.

Lemma keepsBoard_enPassantFrom board color kingPos last from :
  keepsBoard board (enPassantFrom color kingPos last from).
Proof.
  intros cache. unfold enPassantFrom.
  destruct (at_ board from) as [attacker|]; [|done].
  destruct (_ || _); [done|].
  destruct (EnPassantHandler.isEnPassantMove _ _ _ _ _) eqn:Hep; [|done].
  match goal with |- context [probe ?m ?k _] =>
    pose proof (keepsBoard_probe board m k) as Hprobe;
    destruct (probe m k (board, cache)) as [inCheck [b1 c1]] eqn:Hrun end.
  assert (b1 = board) as ->.
  { assert (Hempty : at_ board (mkCoord (row from + (if colorIs color white then 1 else -1))
                                        (col (m_to last))) = None).
    { unfold EnPassantHandler.isEnPassantMove in Hep.
      repeat match type of Hep with
             | (if ?b then false else _) = true => destruct b eqn:?; [done|]
             end.
      match goal with H : negb (_ && bool_decide _) = false |- _ =>
        apply negb_false_iff, andb_true_iff in H as [_ H];
        by apply bool_decide_eq_true in H end. }
    specialize (Hprobe Hempty cache). by rewrite Hrun in Hprobe. }
  by destruct inCheck.
Qed.

Lemma keepsBoard_generateSpecialMoves board color gs :
  keepsBoard board (_generateSpecialMoves color gs).
Proof.
  intros cache. unfold _generateSpecialMoves. cbv beta iota zeta.
  revert cache. refine (keepsBoard_bind board _ _ _ _).
  - destruct (at_ board (kingPosOf gs color)) as [king_|]; [|apply keepsBoard_ret].
    destruct (typeIs _ _); [|apply keepsBoard_ret].
    apply keepsBoard_bind; [apply keepsBoard_castle|]. intros ks.
    apply keepsBoard_bind; [apply keepsBoard_castle|]. intros qs. apply keepsBoard_ret.
  - intros cs. apply keepsBoard_bind; [|intros es; apply keepsBoard_ret].
    destruct (GameStateOps.getLastMove gs) as [last|]; [|apply keepsBoard_ret].
    destruct (_ && _); [|apply keepsBoard_ret].
    apply keepsBoard_forEachPush. intros from _. apply keepsBoard_enPassantFrom.
Qed.

Lemma range8_valid r c : In r range8 -> In c range8 -> isValidCoord (mkCoord r c) = true.
Proof.
  unfold range8. cbn [In]. intros Hr Hc. apply isValidCoord_range. cbn [row col]. lia.
Qed.

(** X1. Every probe of a generation pass is undone exactly: an 8x8 board
    handed to [generateAllLegalMoves] is, at the end of the pass, the board
    it was at the start, whatever the pass-scoped cache held. *)
Theorem generationPass_keeps_board board color gs :
  wf_board board -> keepsBoard board (generationPass color gs).
Proof.
  intros Hwf. unfold generationPass.
  apply keepsBoard_bind.
  - apply keepsBoard_forEachPush. intros r Hr.
    apply keepsBoard_forEachPush. intros c Hc cache.
    destruct (idx board r c) as [piece|] eqn:Hpiece; [|done].
    destruct (colorIs _ _); cbn [negb]; [|done].
    by apply keepsBoard_generateMovesForPiece; [|apply range8_valid|].
  - intros pieceMoves. apply keepsBoard_bind; [apply keepsBoard_generateSpecialMoves|].
    intros special. apply keepsBoard_ret.
Qed.

Lemma generationPass_keeps_board_witness :
  wf_board BoardUtils.createInitialBoard /\
  keepsBoard BoardUtils.createInitialBoard (generationPass white newGameState).
Proof.
  split; [exact wf_board_initial|].
  exact (generationPass_keeps_board BoardUtils.createInitialBoard white newGameState
                                    wf_board_initial).
Defined.

End Pass.

(** ** The snapshot stack *)

Section Snapshots.
Import GameStateOps.

Lemma slice0_take {A} (l : list A) (e : Z) : 0 <= e -> slice0 l e = take (Z.to_nat e) l.
Proof. intros He. unfold slice0. by rewrite (proj2 (Z.ltb_ge e 0)). Qed.

Lemma saveSnapshot_stack gs board :
  cursor_ok gs ->
  gameSnapshots (saveSnapshot gs board)
  = take (Z.to_nat (currentSnapshotIndex gs + 1)) (gameSnapshots gs)
    ++ [takeSnapshot gs board].
Proof.
  intros [Hlo Hhi]. unfold saveSnapshot.
  destruct (Z.ltb_spec (currentSnapshotIndex gs) (Z.of_nat (length (gameSnapshots gs)) - 1)).
  - cbn. rewrite slice0_take by lia. done.
  - cbn. rewrite take_ge by lia. done.
Qed.

Lemma saveSnapshot_cursor gs board :
  currentSnapshotIndex (saveSnapshot gs board) = currentSnapshotIndex gs + 1.
Proof. unfold saveSnapshot. by destruct (_ <? _). Qed.

Lemma saveSnapshot_cursor_last gs board :
  cursor_ok gs ->
  currentSnapshotIndex (saveSnapshot gs board)
  = Z.of_nat (length (gameSnapshots (saveSnapshot gs board))) - 1.
Proof.
  intros Hok. rewrite saveSnapshot_cursor, saveSnapshot_stack by done.
  destruct Hok. rewrite length_app, length_take. cbn [length]. lia.
Qed.

Lemma cursor_ok_saveSnapshot gs board : cursor_ok gs -> cursor_ok (saveSnapshot gs board).
Proof.
  intros Hok. unfold cursor_ok. rewrite (saveSnapshot_cursor_last gs board Hok).
  rewrite saveSnapshot_stack by done. rewrite length_app. cbn [length]. lia.
Qed.

Lemma undo_at_first gs : currentSnapshotIndex gs <= 0 -> undo gs = (None, gs).
Proof. intros H. unfold undo. by rewrite (proj2 (Z.leb_le _ _) H). Qed.

Lemma redo_at_last gs :
  Z.of_nat (length (gameSnapshots gs)) - 1 <= currentSnapshotIndex gs ->
  redo gs = (None, gs).
Proof. intros H. unfold redo. by rewrite (proj2 (Z.leb_le _ _) H). Qed.

Lemma cursor_ok_undo gs : cursor_ok gs -> cursor_ok (snd (undo gs)).
Proof.
  intros [Hlo Hhi]. unfold undo.
  destruct (Z.leb_spec (currentSnapshotIndex gs) 0); [done|].
  cbn. destruct (snapshotAt _ _); cbn; unfold cursor_ok; cbn; lia.
Qed.

Lemma cursor_ok_redo gs : cursor_ok gs -> cursor_ok (snd (redo gs)).
Proof.
  intros [Hlo Hhi]. unfold redo.
  destruct (Z.leb_spec (Z.of_nat (length (gameSnapshots gs)) - 1) (currentSnapshotIndex gs));
    [done|].
  cbn. destruct (snapshotAt _ _); cbn; unfold cursor_ok; cbn; lia.
Qed.

(** After the snapshot has been pushed, the rest of a commit does not touch
    the stack or the cursor. *)
Lemma finaliseMove_stack move ctl :
  gameSnapshots (gameState (ChessGameController.finaliseMove move ctl))
  = gameSnapshots (gameState ctl) /\
  currentSnapshotIndex (gameState (ChessGameController.finaliseMove move ctl))
  = currentSnapshotIndex (gameState ctl).
Proof.
  unfold ChessGameController.finaliseMove, ChessGameController.checkGameEnd.
  destruct (GameEndDetection.isInCheck _ _ _ _) as [check cache]. cbn.
  unfold addMove. by repeat (destruct (typeIs _ _) || destruct (colorIs _ _)).
Qed.

Lemma executeMove_stack move ctl :
  gameSnapshots (gameState (ChessGameController.executeMove move ctl))
  = gameSnapshots (saveSnapshot (gameState ctl) (currentBoard ctl)) /\
  currentSnapshotIndex (gameState (ChessGameController.executeMove move ctl))
  = currentSnapshotIndex (saveSnapshot (gameState ctl) (currentBoard ctl)).
Proof.
  unfold ChessGameController.executeMove.
  destruct (PromotionHandler.needsPromotion _ _).
  - by repeat (destruct (typeIs _ _) || destruct (colorIs _ _)).
  - match goal with |- context [ChessGameController.finaliseMove ?m ?c] =>
      destruct (finaliseMove_stack m c) as [-> ->] end.
    by repeat (destruct (typeIs _ _) || destruct (colorIs _ _)).
Qed.

End Snapshots.

Section Sessions.
Import ChessGameController.

Lemma cursor_ok_same gs gs' :
  gameSnapshots gs' = gameSnapshots gs ->
  currentSnapshotIndex gs' = currentSnapshotIndex gs ->
  cursor_ok gs -> cursor_ok gs'.
Proof. unfold cursor_ok. by intros -> ->. Qed.

Lemma cursor_ok_executeMove move ctl :
  cursor_ok (gameState ctl) -> cursor_ok (gameState (executeMove move ctl)).
Proof.
  intros Hok. destruct (executeMove_stack move ctl) as [Hs Hc].
  eapply cursor_ok_same; [exact Hs|exact Hc|]. by apply cursor_ok_saveSnapshot.
Qed.

Lemma cursor_ok_restoreSnapshot snap ctl :
  cursor_ok (gameState ctl) -> cursor_ok (gameState (restoreSnapshot snap ctl)).
Proof. done. Qed.

(** In every state of a session the cursor points into the snapshot
    stack. *)
Lemma session_cursor_ok ctl : session ctl -> cursor_ok (gameState ctl).
Proof.
  induction 1 as [|r c ctl _ IH|t ctl _ IH|ctl _ IH|ctl _ IH].
  - unfold cursor_ok. vm_compute. split; [discriminate|reflexivity].
  - unfold handleSquareClick.
    destruct (selectedSquare ctl) as [selected|].
    + destruct (sameSquare _ _); [done|].
      destruct (findMove _ _ _) as [move|].
      * by apply cursor_ok_executeMove.
      * by destruct (ownPieceAt _ _).
    + destruct (ownPieceAt _ _); [|done]. by destruct (existsb _ _).
  - unfold onPromotionPieceSelected.
    destruct (promotionMove ctl) as [pending|]; [|done].
    match goal with |- context [finaliseMove ?m ?c] =>
      destruct (finaliseMove_stack m c) as [Hs Hc] end.
    eapply cursor_ok_same; [exact Hs|exact Hc|done].
  - unfold undo. pose proof (cursor_ok_undo _ IH) as Hok.
    destruct (GameStateOps.undo (gameState ctl)) as [[snap|] gs]; cbn in Hok |- *; done.
  - unfold redo. pose proof (cursor_ok_redo _ IH) as Hok.
    destruct (GameStateOps.redo (gameState ctl)) as [[snap|] gs]; cbn in Hok |- *; done.
Qed.

(** A commit leaves no redo behind. *)
Lemma commit_no_redo move ctl :
  cursor_ok (gameState ctl) ->
  GameStateOps.canRedo (gameState (executeMove move ctl)) = false.
Proof.
  intros Hok. unfold GameStateOps.canRedo.
  destruct (executeMove_stack move ctl) as [-> ->]. apply Z.ltb_ge.
  pose proof (saveSnapshot_cursor_last _ (currentBoard ctl) Hok). lia.
Qed.

Lemma session_commit_no_redo move ctl :
  session ctl -> GameStateOps.canRedo (gameState (executeMove move ctl)) = false.
Proof. intros H. by apply commit_no_redo, session_cursor_ok. Qed.

End Sessions.

(** C10.  Pushing a snapshot keeps the snapshots up to the cursor, drops
    every snapshot beyond it and appends the new one, so that no redo is
    possible after the push, nor after the commit of a move that begins
    with it; undo at the first snapshot and redo at the last one return
    [null] and leave the game state as it is. *)
Theorem snapshot_branch_discard (gs : GameState) (board : BoardState) :
  cursor_ok gs ->
  let pushed := GameStateOps.saveSnapshot gs board in
  gameSnapshots pushed
  = take (Z.to_nat (currentSnapshotIndex gs + 1)) (gameSnapshots gs)
    ++ [GameStateOps.takeSnapshot gs board] /\
  GameStateOps.canRedo pushed = false /\
  GameStateOps.redo pushed = (None, pushed) /\
  (forall move ctl,
      gameState ctl = gs -> currentBoard ctl = board ->
      GameStateOps.canRedo (gameState (ChessGameController.executeMove move ctl)) = false) /\
  (currentSnapshotIndex gs <= 0 -> GameStateOps.undo gs = (None, gs)) /\
  (Z.of_nat (length (gameSnapshots gs)) - 1 <= currentSnapshotIndex gs ->
   GameStateOps.redo gs = (None, gs)).
Proof.
  intros Hok pushed.
  pose proof (saveSnapshot_cursor_last gs board Hok) as Hlast. fold pushed in Hlast.
  split; [by apply saveSnapshot_stack|].
  split; [unfold GameStateOps.canRedo; apply Z.ltb_ge; lia|].
  split; [apply redo_at_last; lia|].
  split; [|split; [apply undo_at_first|apply redo_at_last]].
  intros move ctl <- <-. by apply commit_no_redo.
Qed.

(** After 1.e4 e5 2.Nf3 and two undo steps a redo is possible; it is not
    after the next push. *)
Lemma snapshot_branch_discard_witness :
  cursor_ok (gameState Play.undoneTwice) /\
  GameStateOps.canRedo (gameState Play.undoneTwice) = true /\
  GameStateOps.canRedo
    (GameStateOps.saveSnapshot (gameState Play.undoneTwice) (currentBoard Play.undoneTwice))
  = false.
Proof.
  assert (H : cursor_ok (gameState Play.undoneTwice)).
  { unfold cursor_ok. vm_compute. split; [discriminate|reflexivity]. }
  split; [exact H|]. split; [vm_compute; reflexivity|].
  exact (proj1 (proj2 (snapshot_branch_discard (gameState Play.undoneTwice)
                                               (currentBoard Play.undoneTwice) H))).
Defined.

(** ** The persistent attack cache *)

Section Layout.

Lemma existsb_ext {A} (f g : A -> bool) (l : list A) :
  (forall x, f x = g x) -> existsb f l = existsb g l.
Proof. intros H. induction l as [|x l IH]; [done|]. cbn. by rewrite H, IH. Qed.

Lemma same_layout_empty b1 b2 r c :
  same_layout b1 b2 -> bool_decide (idx b1 r c <> None) = bool_decide (idx b2 r c <> None).
Proof.
  intros H. specialize (H r c). unfold layout in H.
  destruct (idx b1 r c), (idx b2 r c); done.
Qed.

Lemma pathLoop_layout b1 b2 rounds cr cc to dRow dCol :
  same_layout b1 b2 ->
  pathLoop rounds b1 cr cc to dRow dCol = pathLoop rounds b2 cr cc to dRow dCol.
Proof.
  intros H. revert cr cc. induction rounds as [|n IH]; intros cr cc; [done|].
  cbn [pathLoop]. rewrite (same_layout_empty b1 b2 cr cc H). by rewrite IH.
Qed.

Lemma isPathClear_layout b1 b2 from to :
  same_layout b1 b2 -> isPathClear b1 from to = isPathClear b2 from to.
Proof. intros H. unfold isPathClear. by apply pathLoop_layout. Qed.

(** The attack computation reads the types and colours of the pieces and
    which squares are empty, nothing else. *)
Lemma calculate_layout b1 b2 pos color :
  same_layout b1 b2 ->
  Game._calculateIsSquareAttacked b1 pos color = Game._calculateIsSquareAttacked b2 pos color.
Proof.
  intros H. unfold Game._calculateIsSquareAttacked.
  apply existsb_ext; intros r. apply existsb_ext; intros c.
  pose proof (H r c) as Hrc. unfold layout in Hrc.
  destruct (idx b1 r c) as [p1|], (idx b2 r c) as [p2|]; try done.
  destruct p1 as [t1 c1 h1], p2 as [t2 c2 h2]. cbn in Hrc. simplify_eq.
  cbn [p_type p_color].
  destruct (colorIs c2 color); cbn [negb]; [|done].
  destruct t2; cbn; try done;
    unfold QueenValidator.isValidMove, BishopValidator.isValidMove, RookValidator.isValidMove;
    by rewrite ?(isPathClear_layout b1 b2 _ _ H).
Qed.

Lemma idx_outside (board : BoardState) (r c : Z) :
  wf_board board -> ~ (0 <= r < 8 /\ 0 <= c < 8) -> idx board r c = None.
Proof.
  intros [Hlen Hrows] Hout. unfold idx.
  destruct (Z.leb_spec 0 r), (Z.leb_spec 0 c); cbn [andb]; try done.
  destruct (board !! Z.to_nat r) as [line|] eqn:Hline; [|done].
  assert (length line = 8%nat) by (by eapply (Forall_lookup_1 _ _ _ _ Hrows)).
  apply lookup_lt_Some in Hline.
  rewrite lookup_ge_None_2; [done|lia].
Qed.

Lemma same_layout_grid b1 b2 :
  wf_board b1 -> wf_board b2 ->
  (forall r c, 0 <= r < 8 -> 0 <= c < 8 -> layout b1 r c = layout b2 r c) ->
  same_layout b1 b2.
Proof.
  intros Hwf1 Hwf2 Hin r c.
  destruct (decide (0 <= r < 8 /\ 0 <= c < 8)) as [[Hr Hc]|Hout]; [by apply Hin|].
  unfold layout. by rewrite !idx_outside.
Qed.

End Layout.

Section Keys.
Import FenGenerator.

Lemma tokens_app s t : tokens (s +:+ t) = tokens s ++ tokens t.
Proof.
  induction s as [|ch s IH]; [done|].
  simpl. by rewrite IH, app_assoc.
Qed.

Lemma tokens_flushEmpty e :
  0 <= e <= 8 -> tokens (flushEmpty e) = replicate (Z.to_nat e) None.
Proof.
  intros He.
  assert (e = 0 \/ e = 1 \/ e = 2 \/ e = 3 \/ e = 4 \/ e = 5 \/ e = 6 \/ e = 7 \/ e = 8)
    as Hcases by lia.
  repeat (destruct Hcases as [->|Hcases]); try subst e; by vm_compute.
Qed.

Lemma tokens_pieceChar p : tokensOfChar (pieceChar p) = [Some (pieceChar p)].
Proof. by destruct p as [[] [] ?]. Qed.

Lemma tokens_rowFen board r cols e :
  0 <= e -> e + Z.of_nat (length cols) <= 8 ->
  tokens (rowFen board r cols e)
  = replicate (Z.to_nat e) None ++ map (fun c => squareToken (idx board r c)) cols.
Proof.
  revert e. induction cols as [|c cols IH]; intros e He Hlen; cbn [rowFen map length] in *.
  - rewrite tokens_flushEmpty by lia. by rewrite app_nil_r.
  - destruct (idx board r c) as [p|] eqn:Hp; cbn [squareToken].
    + rewrite tokens_app, tokens_flushEmpty by lia. cbn [tokens].
      rewrite tokens_pieceChar, IH by lia. done.
    + rewrite IH by lia.
      replace (Z.to_nat (e + 1)) with (S (Z.to_nat e)) by lia.
      rewrite replicate_S_end, <-app_assoc. done.
Qed.

Lemma tokens_placement board :
  tokens (getPiecePlacementFen board) = boardTokens board.
Proof.
  unfold getPiecePlacementFen, boardTokens. cbn [foldr map concat].
  rewrite !tokens_app, !tokens_rowFen by (cbn; lia).
  cbn. by rewrite !app_nil_r.
Qed.

Lemma boardTokens_length board : length (boardTokens board) = 64%nat.
Proof. done. Qed.

Lemma pieceChar_layout p q :
  pieceChar p = pieceChar q -> (p_type p, p_color p) = (p_type q, p_color q).
Proof. by destruct p as [[] [] ?], q as [[] [] ?]. Qed.

Lemma squareToken_layout board1 board2 r c :
  squareToken (idx board1 r c) = squareToken (idx board2 r c) ->
  layout board1 r c = layout board2 r c.
Proof.
  unfold layout. destruct (idx board1 r c) as [p|], (idx board2 r c) as [q|]; cbn; try done.
  intros [= H]. f_equal. by apply pieceChar_layout.
Qed.

Lemma boardTokens_layout board1 board2 :
  wf_board board1 -> wf_board board2 ->
  boardTokens board1 = boardTokens board2 -> same_layout board1 board2.
Proof.
  intros Hwf1 Hwf2 Htok. apply same_layout_grid; [done..|].
  intros r c Hr Hc. apply squareToken_layout.
  unfold boardTokens in Htok. cbn in Htok.
  assert (r = 0 \/ r = 1 \/ r = 2 \/ r = 3 \/ r = 4 \/ r = 5 \/ r = 6 \/ r = 7) as Hrs by lia.
  assert (c = 0 \/ c = 1 \/ c = 2 \/ c = 3 \/ c = 4 \/ c = 5 \/ c = 6 \/ c = 7) as Hcs by lia.
  injection Htok. clear Htok. intros.
  repeat (destruct Hrs as [->|Hrs]); try subst r;
    repeat (destruct Hcs as [->|Hcs]); try subst c; assumption.
Qed.

(** Equal position keys show the same placement. *)
Lemma positionKey_layout board1 gs1 board2 gs2 :
  wf_board board1 -> wf_board board2 ->
  getPositionKey board1 gs1 = getPositionKey board2 gs2 -> same_layout board1 board2.
Proof.
  intros Hwf1 Hwf2 Hkey. apply boardTokens_layout; [done..|].
  apply (f_equal tokens) in Hkey. unfold getPositionKey in Hkey.
  rewrite !tokens_app, !tokens_placement in Hkey.
  by apply app_inj_1 in Hkey as [? _].
Qed.

End Keys.

Section Cache.

Lemma string_length_app (s t : string) :
  String.length (s +:+ t) = (String.length s + String.length t)%nat.
Proof. induction s as [|ch s IH]; [done|]. simpl. by rewrite IH. Qed.

Lemma string_app_inj (s1 s2 t1 t2 : string) :
  String.length t1 = String.length t2 ->
  s1 +:+ t1 = s2 +:+ t2 -> s1 = s2 /\ t1 = t2.
Proof.
  intros Hlen. revert s2. induction s1 as [|ch s1 IH]; intros [|ch2 s2] H; simpl in H.
  - done.
  - apply (f_equal String.length) in H. rewrite !string_length_app in H. simpl in H. lia.
  - apply (f_equal String.length) in H. rewrite !string_length_app in H. simpl in H. lia.
  - injection H as -> H. by destruct (IH _ H) as [-> ->].
Qed.

Lemma pretty_digit (n : Z) : 0 <= n < 8 -> exists ch, pretty n = String ch "".
Proof.
  intros Hn.
  assert (n = 0 \/ n = 1 \/ n = 2 \/ n = 3 \/ n = 4 \/ n = 5 \/ n = 6 \/ n = 7) as Hcases by lia.
  repeat (destruct Hcases as [->|Hcases]); try subst n; by eexists.
Qed.

Lemma colorName_inj c1 c2 : colorName c1 = colorName c2 -> c1 = c2.
Proof. by destruct c1, c2. Qed.

(** Equal cache keys stand for the same placement, square and colour. *)
Lemma cacheKey_inj board1 pos1 color1 gs1 board2 pos2 color2 gs2 :
  wf_board board1 -> wf_board board2 ->
  isValidCoord pos1 = true -> isValidCoord pos2 = true ->
  Game.cacheKey board1 pos1 color1 gs1 = Game.cacheKey board2 pos2 color2 gs2 ->
  same_layout board1 board2 /\ pos1 = pos2 /\ color1 = color2.
Proof.
  intros Hwf1 Hwf2 Hp1 Hp2 Hkey.
  apply isValidCoord_range in Hp1 as [Hr1 Hc1], Hp2 as [Hr2 Hc2].
  unfold Game.cacheKey in Hkey.
  destruct (pretty_digit _ Hr1) as [r1 Er1], (pretty_digit _ Hc1) as [c1 Ec1].
  destruct (pretty_digit _ Hr2) as [r2 Er2], (pretty_digit _ Hc2) as [c2 Ec2].
  apply string_app_inj in Hkey as [Hpos Hrest].
  2:{ rewrite Er1, Ec1, Er2, Ec2. by destruct color1, color2. }
  split; [by eapply positionKey_layout|].
  rewrite Er1, Ec1, Er2, Ec2 in Hrest. simpl in Hrest.
  injection Hrest as Hr Hc Hcol.
  split; [|by apply colorName_inj].
  assert (row pos1 = row pos2) by (apply (inj pretty); congruence).
  assert (col pos1 = col pos2) by (apply (inj pretty); congruence).
  destruct pos1, pos2; simpl in *; congruence.
Qed.

Lemma cache_sound_reachable cache : attackCache_reachable cache -> cache_sound cache.
Proof.
  induction 1 as [|cache board position color gs Hreach IH Hwf Hpos].
  - intros ? ? ? ? ? _ _ H. by rewrite lookup_empty in H.
  - unfold Game.isSquareAttacked.
    destruct (cache !! Game.cacheKey board position color gs) as [old|] eqn:Hold; [done|].
    cbn [snd]. intros board' position' color' gs' hit Hwf' Hpos' Hhit.
    destruct (decide (Game.cacheKey board position color gs
                      = Game.cacheKey board' position' color' gs')) as [Heq|Hne].
    + rewrite Heq, lookup_insert_eq in Hhit. injection Hhit as <-.
      destruct (cacheKey_inj _ _ _ _ _ _ _ _ Hwf Hwf' Hpos Hpos' Heq) as (Hlay & <- & <-).
      by apply calculate_layout.
    + rewrite lookup_insert_ne in Hhit by done. by eapply IH.
Qed.

End Cache.

(** C9.  Whatever entries the persistent cache has accumulated from earlier
    queries, [isSquareAttacked] answers, for every 8x8 board, every square of
    the board and every attacking colour, what the direct computation
    [_calculateIsSquareAttacked] answers on that board. *)
Theorem attackCache_transparent
    (cache : gmap string bool) (board : BoardState) (position : BoardCoord)
    (attackingColor : PieceColor) (gameState : GameState) :
  attackCache_reachable cache -> wf_board board -> isValidCoord position = true ->
  fst (Game.isSquareAttacked board position attackingColor gameState cache)
  = Game._calculateIsSquareAttacked board position attackingColor.
Proof.
  intros Hreach Hwf Hpos. unfold Game.isSquareAttacked.
  destruct (cache !! Game.cacheKey board position attackingColor gameState) as [hit|] eqn:Hhit;
    [|done].
  cbn [fst]. by eapply cache_sound_reachable.
Qed.

(** A query on the initial board answered from an entry stored for another
    board with the same key. *)
Lemma attackCache_transparent_witness :
  Play.warmCache !! Game.cacheKey BoardUtils.createInitialBoard (Play.sq 2 5) white newGameState
    = Some true /\
  fst (Game.isSquareAttacked BoardUtils.createInitialBoard (Play.sq 2 5) white newGameState
                             Play.warmCache)
  = Game._calculateIsSquareAttacked BoardUtils.createInitialBoard (Play.sq 2 5) white.
Proof.
  split; [vm_compute; reflexivity|].
  apply attackCache_transparent.
  - apply cache_query; [apply cache_new| |vm_compute; reflexivity].
    split; [vm_compute; reflexivity|]. vm_compute. repeat constructor.
  - exact wf_board_initial.
  - vm_compute; reflexivity.
Defined.

(** ** The engine at work on concrete games *)

Section Games.
Import ChessGameController Play.

(** A special move changes nothing on the board it is made on: the boards
    built by the handlers never reach [_makeMove]'s own board. *)
Lemma executeMove_special board m :
  m_isCastling m <> None \/ m_isEnPassant m = true ->
  MoveExecutor.executeMove board m = board.
Proof.
  intros H. unfold MoveExecutor.executeMove.
  by rewrite makeMove_special, cloneBoard_same.
Qed.

(** The make step never changes the type of a piece: after a plain move,
    tagged as a promotion or not, the destination holds the piece that
    stood on the origin. *)
Lemma makeMove_keeps_type board m p :
  wf_board board -> isValidCoord (m_from m) = true -> isValidCoord (m_to m) = true ->
  m_from m <> m_to m -> m_isCastling m = None -> m_isEnPassant m = false ->
  at_ board (m_from m) = Some p ->
  at_ (MoveExecutor._makeMove board m) (m_to m) = Some (setMoved p true).
Proof.
  intros Hwf Hfrom Hto Hne Hc He Hp.
  assert (Hmk : MoveExecutor._makeMove board m = MoveExecutor._makeNormalMove board m).
  { unfold MoveExecutor._makeMove. rewrite Hc, He. by destruct (m_promotion m). }
  rewrite Hmk. unfold MoveExecutor._makeNormalMove. rewrite Hp.
  rewrite !at_put by auto using wf_put.
  rewrite decide_False by congruence. by rewrite decide_True.
Qed.

(** X2. Once the attack test of a generation pass has answered for a square
    and a colour, it gives that answer for the square and colour on every
    board, and leaves the pass-scoped cache as it is. *)
Lemma passCache_ignores_board b b' p c cache :
  let '(answer, cache') := Game.isAttackedDuringSim b p c cache in
  Game.isAttackedDuringSim b' p c cache' = (answer, cache').
Proof.
  unfold Game.isAttackedDuringSim.
  destruct (cache !! Game.tempCacheKey p c) as [hit|] eqn:Hhit.
  - by rewrite Hhit.
  - by rewrite lookup_insert_eq.
Qed.

(** Committing a castling move of the white king: the board stays as it
    was and the game state takes the destination for the king's square. *)
Lemma castling_commit move ctl :
  m_isCastling move <> None ->
  p_type (m_piece move) = king -> p_color (m_piece move) = white ->
  currentBoard (executeMove move ctl) = currentBoard ctl /\
  whiteKingPos (gameState (executeMove move ctl)) = m_to move.
Proof.
  intros Hc Hk Hw. unfold executeMove.
  assert (Hn : PromotionHandler.needsPromotion (m_piece move) (m_to move) = false).
  { unfold PromotionHandler.needsPromotion. by rewrite Hk. }
  rewrite Hn. unfold typeIs, colorIs. rewrite Hk, Hw.
  rewrite !bool_decide_eq_true_2 by done.
  unfold finaliseMove, checkGameEnd.
  destruct (GameEndDetection.isInCheck _ _ _ _) as [check cache].
  cbn. rewrite executeMove_special by (by left).
  split; [done|]. unfold GameStateOps.addMove, typeIs, colorIs. rewrite Hk, Hw.
  by rewrite !bool_decide_eq_true_2.
Qed.

(** The draw flag as [checkGameEnd] leaves it: stalemate, or one of the
    three draw rules on the current position. *)
Lemma checkGameEnd_draw ctl :
  let ctl' := checkGameEnd ctl in
  isDraw (gameState ctl')
  = isStalemate (gameState ctl')
    || ((100 <=? halfMoveClock (gameState ctl'))
        || ((3 <=? occurrences ctl')
            || GameEndDetection.isInsufficientMaterial (currentBoard ctl'))).
Proof.
  cbv zeta. unfold checkGameEnd, occurrences.
  destruct (GameEndDetection.isInCheck _ _ _ _) as [check cache].
  destruct ctl as [ac gs board sel prom]. destruct gs.
  cbn. unfold GameEndDetection.isDrawByRule. cbn.
  destruct (100 <=? _); [by rewrite !orb_true_r|].
  destruct (3 <=? _); [by rewrite !orb_true_r|].
  by destruct (GameEndDetection.isInsufficientMaterial _).
Qed.

(** Every commit ends with [checkGameEnd]. *)
Lemma finaliseMove_draw move ctl :
  let ctl' := finaliseMove move ctl in
  isDraw (gameState ctl')
  = isStalemate (gameState ctl')
    || ((100 <=? halfMoveClock (gameState ctl'))
        || ((3 <=? occurrences ctl')
            || GameEndDetection.isInsufficientMaterial (currentBoard ctl'))).
Proof. unfold finaliseMove. apply checkGameEnd_draw. Qed.

End Games.

Section Material.
Import GameEndDetection Play.

(** What [isInsufficientMaterial] computes, in terms of the pieces other
    than kings of White followed by those of Black. *)
Lemma isInsufficientMaterial_pieces board :
  isInsufficientMaterial board =
  match nonKings board white ++ nonKings board black with
  | [] => true
  | [p] => isMinor (fst p)
  | [p; q] =>
      typeIs (p_type (fst p)) bishop && typeIs (p_type (fst q)) bishop
      && sameSquareColor (snd p) (snd q)
  | _ => false
  end.
Proof.
  unfold isInsufficientMaterial, nonKings. rewrite filter_app.
  destruct (_ ++ _) as [|p [|q [|x rest]]]; try done.
  cbn [forallb]. unfold sameSquareColor.
  by destruct (typeIs (p_type p.1) bishop), (typeIs (p_type q.1) bishop).
Qed.

(** Each of the three listed balances is reported as insufficient. *)
Lemma listedBalance_insufficient board :
  listedBalance board = true -> isInsufficientMaterial board = true.
Proof.
  rewrite isInsufficientMaterial_pieces. unfold listedBalance.
  destruct (nonKings board white) as [|p [|p' ws]],
           (nonKings board black) as [|q [|q' bs]]; cbn [app]; done.
Qed.

End Material.

(** C1 (the code departs from it).  White may castle kingside after 1.Nf3
    Nf6 2.e3 e6 3.Be2 Be7, and may capture en passant after 1.e4 a6 2.e5 d5;
    the generator offers both moves.  [executeMove] returns for each of them
    a board equal to its input: king and rook stand on e1 and h1 with
    [hasMoved = false] and f1, g1 are empty; the capturing pawn stands on
    e5, the victim on d5 and d6 is empty.  The boards that the two handlers
    return, and that [_makeMove] drops, do hold the moves: king on g1 and
    rook on f1, both with [hasMoved = true]; pawn on d6 and d5 empty. *)
Theorem executeMove_leaves_special_moves_unmade :
  let b := currentBoard Play.beforeCastling in
  let e := currentBoard Play.beforeEnPassant in
  ChessGameController.findMove (Play.sq 0 4) (Play.sq 0 6) Play.beforeCastling
    = Some Play.castleShort /\
  MoveExecutor.executeMove b Play.castleShort = b /\
  at_ (MoveExecutor.executeMove b Play.castleShort) (Play.sq 0 4)
    = Some (mkPiece king white false) /\
  at_ (MoveExecutor.executeMove b Play.castleShort) (Play.sq 0 5) = None /\
  at_ (MoveExecutor.executeMove b Play.castleShort) (Play.sq 0 6) = None /\
  at_ (MoveExecutor.executeMove b Play.castleShort) (Play.sq 0 7)
    = Some (mkPiece rook white false) /\
  at_ (CastlingHandler.executeCastling b Play.castleShort) (Play.sq 0 6)
    = Some (mkPiece king white true) /\
  at_ (CastlingHandler.executeCastling b Play.castleShort) (Play.sq 0 5)
    = Some (mkPiece rook white true) /\
  ChessGameController.findMove (Play.sq 4 4) (Play.sq 5 3) Play.beforeEnPassant
    = Some Play.takeEnPassant /\
  MoveExecutor.executeMove e Play.takeEnPassant = e /\
  at_ (MoveExecutor.executeMove e Play.takeEnPassant) (Play.sq 4 4)
    = Some (mkPiece pawn white true) /\
  at_ (MoveExecutor.executeMove e Play.takeEnPassant) (Play.sq 5 3) = None /\
  at_ (MoveExecutor.executeMove e Play.takeEnPassant) (Play.sq 4 3)
    = Some (mkPiece pawn black true) /\
  at_ (EnPassantHandler.executeEnPassant e Play.takeEnPassant) (Play.sq 5 3)
    = Some (mkPiece pawn white true) /\
  at_ (EnPassantHandler.executeEnPassant e Play.takeEnPassant) (Play.sq 4 3) = None.
Proof. settle. Qed.

(** C2 (the code departs from it).  After 1.d4 e6 2.Nc3 Bb4 the white
    knight on c3 shields the king on e1 from the bishop on b4.  The list of
    legal moves for White contains Nc3-e4, and on the board that
    [executeMove] returns for it the square of the white king is attacked by
    Black. *)
Theorem generator_offers_move_of_pinned_knight :
  let b := currentBoard Play.pinned in
  let gs := gameState Play.pinned in
  currentTurn gs = white /\
  at_ b (whiteKingPos gs) = Some (mkPiece king white false) /\
  Game._calculateIsSquareAttacked b (whiteKingPos gs) black = false /\
  In Play.knightC3E4 (Game.generateAllLegalMoves b white gs) /\
  at_ (MoveExecutor.executeMove b Play.knightC3E4) (whiteKingPos gs)
    = Some (mkPiece king white false) /\
  Game._calculateIsSquareAttacked (MoveExecutor.executeMove b Play.knightC3E4)
                                  (whiteKingPos gs) black = true.
Proof. settle. Qed.

(** C4 (the code departs from it).  After 1.Nf3 Nf6 2.e3 e6 3.Be2 Be7 4.O-O,
    committed through the controller, the game state places the white king
    on g1 while the board still has it on e1 and g1 is empty.  And after
    1.d4 e6 2.Nc3 Bb4 3.Ne4 Bxe1, all taken from the lists of legal moves,
    the game state places the white king on e1, where the black bishop
    stands; the board holds no white king. *)
Theorem castling_separates_king_position_from_board :
  let ctl := Play.afterCastling in
  let ctl' := Play.kingTaken in
  lastMove (gameState ctl) = Some Play.castleShort /\
  currentTurn (gameState ctl) = black /\
  whiteKingPos (gameState ctl) = Play.sq 0 6 /\
  at_ (currentBoard ctl) (Play.sq 0 6) = None /\
  at_ (currentBoard ctl) (Play.sq 0 4) = Some (mkPiece king white false) /\
  length (moveHistory (gameState ctl')) = 6%nat /\
  whiteKingPos (gameState ctl') = Play.sq 0 4 /\
  at_ (currentBoard ctl') (Play.sq 0 4) = Some (mkPiece bishop black true) /\
  filter (fun p => p_type (fst p) = king)
         (BoardUtils.getPiecesByColor (currentBoard ctl') white) = [].
Proof. settle. Qed.

(** C5 (the code departs from it).  After 1.h4 g5 2.hxg5 h6 3.gxh6 a6 4.h7
    a5 the generator offers hxg8 tagged [promotion = queen].  The board that
    the probe hands to the attack test has the pawn itself on g8, not a
    queen; the queen stands on the board that [executePromotion] returns
    and [_makeMove] drops. *)
Theorem promotion_probe_runs_on_pawn :
  let b := currentBoard Play.beforePromotion in
  let gs := gameState Play.beforePromotion in
  In Play.pawnTakesG8 (Game.generateAllLegalMoves b white gs) /\
  m_promotion Play.pawnTakesG8 = Some queen /\
  at_ (MoveExecutor._makeMove b Play.pawnTakesG8) (Play.sq 7 6)
    = Some (mkPiece pawn white true) /\
  MoveExecutor.wouldLeaveKingInCheck b Play.pawnTakesG8 (whiteKingPos gs)
                                     (Play.recordingTest (Play.sq 7 6)) []
    = (false, b, [Some (mkPiece pawn white true)]) /\
  at_ (PromotionHandler.executePromotion (MoveExecutor._makeMove b Play.pawnTakesG8)
                                         (Play.sq 7 6) queen) (Play.sq 7 6)
    = Some (mkPiece queen white true).
Proof. settle. Qed.

(** C6 (the code departs from it).  With White holding king and two bishops
    on squares of one colour against the bare black king, which is none of
    the three listed balances, [isInsufficientMaterial] answers [true].  On
    the boards with two kings only, with a bishop each on squares of one
    colour or of different colours, with two knights or bishop and knight
    against the bare king, and with bishop against knight, it answers
    [true], [true], [false], [false], [false] and [false]. *)
Theorem insufficient_material_two_bishops_one_side :
  Play.nonKings Play.twoBishopsOneSide white
    = [(mkPiece bishop white false, Play.sq 0 2); (mkPiece bishop white true, Play.sq 2 4)] /\
  Play.nonKings Play.twoBishopsOneSide black = [] /\
  Play.listedBalance Play.twoBishopsOneSide = false /\
  GameEndDetection.isInsufficientMaterial Play.twoBishopsOneSide = true /\
  GameEndDetection.isInsufficientMaterial (Play.boardOf Play.twoKings) = true /\
  GameEndDetection.isInsufficientMaterial Play.bishopsSameColor = true /\
  GameEndDetection.isInsufficientMaterial Play.bishopsOppositeColor = false /\
  GameEndDetection.isInsufficientMaterial Play.twoKnightsOneSide = false /\
  GameEndDetection.isInsufficientMaterial Play.bishopAndKnightOneSide = false /\
  GameEndDetection.isInsufficientMaterial Play.bishopAgainstKnight = false.
Proof. settle. Qed.

(** C7.  After every commit the draw flag is set exactly when the position
    is a stalemate, the half-move clock has reached 100, the occurrence
    count of the current position key has reached 3, or the material is
    insufficient.  When the knights go out and back three times from the
    initial position (the king's knights, or the queen's knights), the draw
    flag, the occurrence count of the current position key and whether
    another draw rule applies are, after each of the twelve moves, as
    listed: no other rule ever applies, the flag is unset while the count is
    1 or 2, and it is set from the eighth move on, where the count reaches
    3. *)
Theorem threefold_repetition_knight_cycle :
  let expected :=
    [(false, 1, false); (false, 1, false); (false, 1, false); (false, 2, false);
     (false, 2, false); (false, 2, false); (false, 2, false); (true, 3, false);
     (true, 3, false); (true, 3, false); (true, 3, false); (true, 4, false)] in
  (forall move ctl,
      let ctl' := ChessGameController.finaliseMove move ctl in
      isDraw (gameState ctl')
      = isStalemate (gameState ctl')
        || ((100 <=? halfMoveClock (gameState ctl'))
            || ((3 <=? Play.occurrences ctl')
                || GameEndDetection.isInsufficientMaterial (currentBoard ctl')))) /\
  Play.repetitionTrace (Play.knightCycle ++ Play.knightCycle ++ Play.knightCycle)
    = expected /\
  Play.repetitionTrace
    (Play.queenKnightCycle ++ Play.queenKnightCycle ++ Play.queenKnightCycle)
    = expected.
Proof.
  cbv zeta. split; [intros move ctl; apply finaliseMove_draw|]. settle.
Qed.

(** C8.  On the initial board with White to move the generator returns 20
    moves; after e2-e4 has been committed it is Black's turn and the
    generator returns 20 moves for Black. *)
Theorem twenty_moves_at_start_and_after_e4 :
  length (Game.generateAllLegalMoves BoardUtils.createInitialBoard white newGameState)
    = 20%nat /\
  length (allLegalMovesForCurrentTurn (gameState ChessGameController.initGame)) = 20%nat /\
  lastMove (gameState Play.afterE4) = Some Play.pawnE4 /\
  currentTurn (gameState Play.afterE4) = black /\
  length (Game.generateAllLegalMoves (currentBoard Play.afterE4) black
                                     (gameState Play.afterE4)) = 20%nat /\
  length (allLegalMovesForCurrentTurn (gameState Play.afterE4)) = 20%nat.
Proof. settle. Qed.

(* ===================================================================== *)
(** * Further properties                                                  *)
(* ===================================================================== *)

(** ** Reading, writing and searching the board *)

Section BoardAccess.
Import BoardUtils.

Lemma firstSome_Some {A B} (xs : list A) (body : A -> option B) (y : B) :
  firstSome xs body = Some y <->
  exists i x, xs !! i = Some x /\ body x = Some y
              /\ forall j x', (j < i)%nat -> xs !! j = Some x' -> body x' = None.
Proof.
  induction xs as [|a xs IH]; cbn [firstSome].
  - split; [done|]. by intros (i & x & Hi & _).
  - destruct (body a) as [b|] eqn:Ha.
    + split.
      * intros [= <-]. exists 0%nat, a. repeat split; [done|]. intros; lia.
      * intros (i & x & Hi & Hx & Hpre). destruct i as [|i].
        { cbn in Hi. by simplify_eq. }
        specialize (Hpre 0%nat a). rewrite Hpre in Ha; [done|lia|done].
    + rewrite IH. split.
      * intros (i & x & Hi & Hx & Hpre). exists (S i), x. repeat split; [done..|].
        intros [|j] x' Hj Hx'; cbn in Hx'; [by simplify_eq|]. apply (Hpre j); [lia|done].
      * intros (i & x & Hi & Hx & Hpre). destruct i as [|i].
        { cbn in Hi. simplify_eq. }
        exists i, x. repeat split; [done..|].
        intros j x' Hj Hx'. apply (Hpre (S j)); [lia|done].
Qed.

Lemma firstSome_None {A B} (xs : list A) (body : A -> option B) :
  firstSome xs body = None <-> forall x, In x xs -> body x = None.
Proof.
  induction xs as [|a xs IH]; cbn [firstSome In]; [by split|].
  destruct (body a) eqn:Ha.
  - split; [done|]. intros H. rewrite H in Ha; [done|by left].
  - rewrite IH. split; [by intros H x [<-|?]; [|apply H]|]. intros H x Hx. apply H. by right.
Qed.

Lemma range8_In r : In r range8 <-> 0 <= r < 8.
Proof. unfold range8. cbn [In]. lia. Qed.

Lemma range8_lookup i r : range8 !! i = Some r <-> r = Z.of_nat i /\ (i < 8)%nat.
Proof.
  do 8 (destruct i as [|i]; [cbn; split; [by intros [= <-]; split; [|lia]|by intros [-> _]]|]).
  cbn. split; [done|]. lia.
Qed.

(** A loop over the eight indices that returns at index [r] returned at no
    smaller index. *)
Lemma firstSome_range8 {B} (body : Z -> option B) (y : B) :
  firstSome range8 body = Some y <->
  exists r, 0 <= r < 8 /\ body r = Some y /\ forall r', 0 <= r' < r -> body r' = None.
Proof.
  rewrite firstSome_Some. split.
  - intros (i & x & Hi & Hx & Hpre). apply range8_lookup in Hi as [-> Hi].
    exists (Z.of_nat i). repeat split; [lia..|done|].
    intros r' Hr'. apply (Hpre (Z.to_nat r')); [lia|]. apply range8_lookup. lia.
  - intros (r & Hr & Hx & Hpre). exists (Z.to_nat r), r. repeat split; [|done|].
    + apply range8_lookup. lia.
    + intros j x' Hj [-> _]%range8_lookup. apply Hpre. lia.
Qed.


Lemma getPieceAt_at (board : BoardState) (pos : BoardCoord) :
  wf_board board -> getPieceAt board pos = at_ board pos.
Proof.
  intros Hwf. unfold getPieceAt, isValidPosition.
  fold (isValidCoord pos). destruct (isValidCoord pos) eqn:Hv; [done|].
  cbn [negb]. symmetry. apply idx_outside; [done|].
  intros H. apply isValidCoord_range in H. congruence.
Qed.

End BoardAccess.

(** X3. On an 8x8 board, [setPieceAt] gives an 8x8 board on which
    [getPieceAt] reads the new content at the position written and the old
    content everywhere else; a position outside the board is not written,
    the result is then a board equal to the argument, and [getPieceAt]
    answers [null] outside the board. *)
Theorem setPieceAt_then_getPieceAt (board : BoardState) (pos : BoardCoord) (piece : Square) :
  wf_board board ->
  wf_board (BoardUtils.setPieceAt board pos piece) /\
  (forall q,
     BoardUtils.getPieceAt (BoardUtils.setPieceAt board pos piece) q
     = if bool_decide (q = pos /\ BoardUtils.isValidPosition pos = true)
       then piece else BoardUtils.getPieceAt board q) /\
  (BoardUtils.isValidPosition pos = false ->
   BoardUtils.setPieceAt board pos piece = board) /\
  (forall q, BoardUtils.isValidPosition q = false ->
     BoardUtils.getPieceAt (BoardUtils.setPieceAt board pos piece) q = None).
Proof.
  intros Hwf. unfold BoardUtils.setPieceAt. rewrite cloneBoard_same.
  destruct (BoardUtils.isValidPosition pos) eqn:Hv.
  - assert (Hwf' : wf_board (put board pos piece)) by by apply wf_put.
    split; [exact Hwf'|]. split; [|split].
    + intros q. rewrite !getPieceAt_at by done. rewrite at_put by done.
      destruct (decide (q = pos)) as [->|Hne].
      * by rewrite bool_decide_eq_true_2.
      * rewrite bool_decide_eq_false_2; [done|]. by intros [? _].
    + done.
    + intros q Hq. unfold BoardUtils.getPieceAt. by rewrite Hq.
  - split; [exact Hwf|]. split; [|split].
    + intros q. rewrite bool_decide_eq_false_2; [done|]. by intros [_ ?].
    + done.
    + intros q Hq. unfold BoardUtils.getPieceAt. by rewrite Hq.
Qed.

Lemma setPieceAt_then_getPieceAt_witness :
  wf_board BoardUtils.createInitialBoard /\
  BoardUtils.getPieceAt
    (BoardUtils.setPieceAt BoardUtils.createInitialBoard (mkCoord 3 4)
                           (Some (mkPiece queen black true))) (mkCoord 3 4)
  = Some (mkPiece queen black true).
Proof.
  split; [exact wf_board_initial|].
  exact (proj1 (proj2 (setPieceAt_then_getPieceAt BoardUtils.createInitialBoard (mkCoord 3 4)
                         (Some (mkPiece queen black true)) wf_board_initial)) (mkCoord 3 4)).
Defined.

(** X4. [findPiece] answers with a square of the board that holds a piece
    of the type and colour asked for, and no square before it in row-major
    order holds one; it answers [null] exactly when no square of the board
    holds such a piece. *)
Theorem findPiece_first (board : BoardState) (pieceType : PieceType) (color : PieceColor) :
  let wanted q :=
    exists piece, at_ board q = Some piece /\ p_type piece = pieceType
                  /\ p_color piece = color in
  (forall pos, BoardUtils.findPiece board pieceType color = Some pos ->
     isValidCoord pos = true /\ wanted pos /\
     forall q, isValidCoord q = true ->
       row q < row pos \/ (row q = row pos /\ col q < col pos) -> ~ wanted q) /\
  (BoardUtils.findPiece board pieceType color = None <->
   forall q, isValidCoord q = true -> ~ wanted q).
Proof.
  intros wanted.
  set (cell := fun r c =>
         match idx board r c with
         | Some piece =>
             if typeIs (p_type piece) pieceType && colorIs (p_color piece) color
             then Some (mkCoord r c) else None
         | None => None
         end).
  assert (Hcell : forall r c pos, cell r c = Some pos <-> pos = mkCoord r c /\ wanted pos).
  { intros r c pos. unfold cell, wanted, at_, typeIs, colorIs.
    destruct (idx board r c) as [piece|] eqn:Hp.
    - destruct (bool_decide (p_type piece = pieceType)) eqn:Ht;
        destruct (bool_decide (p_color piece = color)) eqn:Hc; cbn [andb];
        try apply bool_decide_eq_true in Ht; try apply bool_decide_eq_true in Hc;
        try apply bool_decide_eq_false in Ht; try apply bool_decide_eq_false in Hc.
      + split; [intros [= <-]; split; [done|]; cbn; by exists piece|by intros [-> _]].
      + split; [done|]. intros [-> (p & Hq & _ & Hcol)]. cbn in Hq. congruence.
      + split; [done|]. intros [-> (p & Hq & Hty & _)]. cbn in Hq. congruence.
      + split; [done|]. intros [-> (p & Hq & Hty & _)]. cbn in Hq. congruence.
    - split; [done|]. intros [-> (p & Hq & _)]. cbn in Hq. congruence. }
  assert (Hnone : forall r c, cell r c = None <-> ~ wanted (mkCoord r c)).
  { intros r c. split.
    - intros Hn Hw. assert (cell r c = Some (mkCoord r c)) by by apply Hcell. congruence.
    - intros Hn. destruct (cell r c) as [pos|] eqn:Hc; [|done].
      apply Hcell in Hc as [-> Hw]. done. }
  change (BoardUtils.findPiece board pieceType color)
    with (firstSome range8 (fun r => firstSome range8 (cell r))).
  split.
  - intros pos Hfind.
    apply firstSome_range8 in Hfind as (r & Hr & Hrow & Hbefore).
    apply firstSome_range8 in Hrow as (c & Hc & Hhit & Hleft).
    apply Hcell in Hhit as [-> Hw].
    split; [apply isValidCoord_range; cbn; lia|]. split; [done|].
    intros [qr qc] Hq Hlt. apply isValidCoord_range in Hq. cbn [row col] in *.
    apply Hnone. destruct Hlt as [Hlt|[-> Hlt]].
    + specialize (Hbefore qr ltac:(lia)).
      rewrite firstSome_None in Hbefore. apply Hbefore. apply range8_In. lia.
    + apply Hleft. lia.
  - rewrite firstSome_None. split.
    + intros Hall [qr qc] Hq. apply isValidCoord_range in Hq. cbn [row col] in Hq.
      apply Hnone. specialize (Hall qr). rewrite firstSome_None in Hall.
      apply Hall; apply range8_In; lia.
    + intros Hall r Hr. apply firstSome_None. intros c Hc.
      apply Hnone, Hall. apply isValidCoord_range. cbn. by rewrite <- !range8_In.
Qed.

Lemma getPiecesByColor_In (board : BoardState) (color : PieceColor)
    (piece : Piece) (pos : BoardCoord) :
  In (piece, pos) (BoardUtils.getPiecesByColor board color) <->
  isValidCoord pos = true /\ at_ board pos = Some piece /\ p_color piece = color.
Proof.
  unfold BoardUtils.getPiecesByColor. rewrite in_flat_map. split.
  - intros (r & Hr & Hin). apply in_flat_map in Hin as (c & Hc & Hin).
    apply range8_In in Hr, Hc.
    destruct (idx board r c) as [p|] eqn:Hp; [|done].
    unfold colorIs in Hin. case_bool_decide; [|done].
    destruct Hin as [[= <- <-]|[]].
    split; [apply isValidCoord_range; cbn; lia|]. by split.
  - intros (Hv & Hat & Hcol). apply isValidCoord_range in Hv.
    exists (row pos). split; [apply range8_In; lia|].
    apply in_flat_map. exists (col pos). split; [apply range8_In; lia|].
    unfold at_ in Hat. rewrite Hat. unfold colorIs. rewrite bool_decide_eq_true_2 by done.
    left. by destruct pos.
Qed.

(** X5. [getPiecesByColor] lists exactly the squares of the board that hold
    a piece of the colour, each with the piece it holds. *)
Theorem getPiecesByColor_exact (board : BoardState) (color : PieceColor)
    (piece : Piece) (pos : BoardCoord) :
  In (piece, pos) (BoardUtils.getPiecesByColor board color) <->
  isValidCoord pos = true /\ at_ board pos = Some piece /\ p_color piece = color.
Proof. apply getPiecesByColor_In. Qed.

(** ** Pixels, squares and files *)



Lemma nat_of_fromCharCode (n : Z) :
  0 <= n < 256 -> Z.of_nat (nat_of_ascii (FenGenerator.fromCharCode n)) = n.
Proof.
  intros Hn. unfold FenGenerator.fromCharCode.
  rewrite nat_ascii_embedding by lia. lia.
Qed.

(** X7. [fileToCol] undoes [colToFile] for every column whose character
    code [97 + col] is a single byte, the columns 0 to 7 of the board among
    them, and [colToFile] undoes [fileToCol] on the one-letter strings;
    the columns 0 to 7 are the files a to h. *)
Theorem fileToCol_colToFile (c : Z) :
  0 <= 97 + c < 256 ->
  CoordinateUtils.fileToCol (CoordinateUtils.colToFile c) = Some c /\
  (forall ch, CoordinateUtils.fileToCol (String ch "") = Some c ->
     CoordinateUtils.colToFile c = String ch "") /\
  map CoordinateUtils.colToFile range8 = ["a"; "b"; "c"; "d"; "e"; "f"; "g"; "h"]%string.
Proof.
  intros Hc. unfold CoordinateUtils.fileToCol, CoordinateUtils.colToFile.
  split; [|split].
  - rewrite nat_of_fromCharCode by done. f_equal. lia.
  - intros ch [= <-]. f_equal. unfold FenGenerator.fromCharCode.
    replace (97 + (Z.of_nat (nat_of_ascii ch) - 97)) with (Z.of_nat (nat_of_ascii ch)) by lia.
    by rewrite Nat2Z.id, ascii_nat_embedding.
  - vm_compute. reflexivity.
Qed.

Lemma fileToCol_colToFile_witness :
  0 <= 97 + 4 < 256 /\
  CoordinateUtils.fileToCol (CoordinateUtils.colToFile 4) = Some 4.
Proof.
  assert (H : 0 <= 97 + 4 < 256) by lia.
  split; [exact H|]. exact (proj1 (fileToCol_colToFile 4 H)).
Defined.

(** ** The promotion dialog and the piece images *)

(** X8. The squares on which [showPromotionDialog] draws the four choices
    (row [_getChoiceRow i] of the destination column) are exactly the
    squares where [getPromotionChoice] answers, and it answers with the
    piece drawn there: queen, rook, bishop, knight from the promotion rank
    inwards.  While the dialog is open, [Board.handleClick] passes no click
    on as a square click: a click on a choice calls [onPromotionChoice] and
    closes the dialog, any other click calls nothing and leaves it open. *)
Theorem promotion_dialog_choice (move : Move) (click : BoardCoord) (view : BoardView) :
  let color := p_color (m_piece move) in
  let choiceSquare i := mkCoord (PromotionRenderer._getChoiceRow (Z.of_nat i) color)
                                (col (m_to move)) in
  (forall i t, PROMOTION_PIECES !! i = Some t ->
     PromotionRenderer.getPromotionChoice move (choiceSquare i) = Some t) /\
  (forall t, PromotionRenderer.getPromotionChoice move click = Some t ->
     exists i, PROMOTION_PIECES !! i = Some t /\ click = choiceSquare i) /\
  Board.handleClick click (Board.showPromotionDialog move view)
  = match PromotionRenderer.getPromotionChoice move click with
    | Some t => (Some (onPromotionChoice t), mkBoardView false None)
    | None => (None, mkBoardView true (Some move))
    end.
Proof.
  intros color choiceSquare. split; [|split].
  - intros i t Hi. unfold PromotionRenderer.getPromotionChoice, choiceSquare.
    cbn [row col]. rewrite bool_decide_eq_true_2 by done. cbn [negb]. fold color.
    do 4 (destruct i as [|i]; [cbn in Hi; injection Hi as <-; by destruct color|]).
    done.
  - intros t. unfold PromotionRenderer.getPromotionChoice. fold color.
    case_bool_decide as Hcol; [|done]. cbn [negb].
    unfold PROMOTION_PIECES. cbn [PromotionRenderer.choiceLoop].
    repeat case_bool_decide; intros [= <-];
      [exists 0%nat|exists 1%nat|exists 2%nat|exists 3%nat];
      (split; [done|]); unfold choiceSquare; destruct click as [r c];
      cbn [row col] in *; subst; f_equal; lia.
  - done.
Qed.

(** X9. Every piece has an image among those preloaded: the key that
    [PieceRenderer.getPieceImageKey] builds for it is one of the twelve
    keys of [preloadImages], each of the twelve is the key of some piece,
    two pieces share a key only if they have the same type and colour, and
    the promotion dialog builds the same keys. *)
Theorem piece_image_keys :
  (forall piece, In (PieceRenderer.getPieceImageKey piece) PieceRenderer.pieces) /\
  (forall key, In key PieceRenderer.pieces ->
     exists piece, PieceRenderer.getPieceImageKey piece = key) /\
  (forall p q, PieceRenderer.getPieceImageKey p = PieceRenderer.getPieceImageKey q ->
     p_type p = p_type q /\ p_color p = p_color q) /\
  (forall piece,
     PromotionRenderer._getPieceImageKey (p_type piece) (p_color piece)
     = PieceRenderer.getPieceImageKey piece).
Proof.
  split; [|split; [|split]].
  - intros [[] [] moved]; vm_compute; tauto.
  - intros key Hin. unfold PieceRenderer.pieces in Hin. cbn [In] in Hin.
    destruct Hin as [<- | [<- | [<- | [<- | [<- | [<- | [<- | [<- | [<- | [<- | [<- | [<- | []]]]]]]]]]]]].
    + by exists (mkPiece rook white false).
    + by exists (mkPiece knight white false).
    + by exists (mkPiece bishop white false).
    + by exists (mkPiece queen white false).
    + by exists (mkPiece king white false).
    + by exists (mkPiece pawn white false).
    + by exists (mkPiece rook black false).
    + by exists (mkPiece knight black false).
    + by exists (mkPiece bishop black false).
    + by exists (mkPiece queen black false).
    + by exists (mkPiece king black false).
    + by exists (mkPiece pawn black false).
  - intros [[] [] mp] [[] [] mq] Hkey; vm_compute in Hkey; try discriminate Hkey; done.
  - done.
Qed.

(** ** Candidate squares and path tests of the validators *)

Section Candidates.

Lemma ray_In_inv rounds pos dRow dCol to :
  In to (ray rounds pos dRow dCol) ->
  exists k, 0 <= k < Z.of_nat rounds /\ to = mkCoord (row pos + k * dRow) (col pos + k * dCol).
Proof.
  revert pos. induction rounds as [|n IH]; intros pos; cbn [ray]; [done|].
  destruct (isValidCoord pos); [|done].
  intros [<-|Hin].
  - exists 0. split; [lia|]. destruct pos; cbn; f_equal; lia.
  - apply IH in Hin as (k & Hk & ->). exists (k + 1). split; [lia|].
    cbn [row col]. f_equal; lia.
Qed.

Lemma ray_In rounds pos dRow dCol k :
  0 <= k < Z.of_nat rounds ->
  (forall j, 0 <= j <= k -> isValidCoord (mkCoord (row pos + j * dRow) (col pos + j * dCol)) = true) ->
  In (mkCoord (row pos + k * dRow) (col pos + k * dCol)) (ray rounds pos dRow dCol).
Proof.
  revert pos k. induction rounds as [|n IH]; intros pos k Hk Hvalid; [lia|].
  cbn [ray].
  assert (Hpos : isValidCoord pos = true).
  { specialize (Hvalid 0 ltac:(lia)). destruct pos as [r c]. cbn [row col] in Hvalid.
    by replace (r + 0 * dRow) with r in Hvalid by lia;
       replace (c + 0 * dCol) with c in Hvalid by lia. }
  rewrite Hpos. destruct (decide (k = 0)) as [->|Hnz].
  - left. destruct pos; cbn; f_equal; lia.
  - right.
    replace (mkCoord (row pos + k * dRow) (col pos + k * dCol))
      with (mkCoord (row (mkCoord (row pos + dRow) (col pos + dCol)) + (k - 1) * dRow)
                    (col (mkCoord (row pos + dRow) (col pos + dCol)) + (k - 1) * dCol))
      by (cbn [row col]; f_equal; lia).
    apply IH; [lia|]. intros j Hj. cbn [row col].
    specialize (Hvalid (j + 1) ltac:(lia)).
    by replace (row pos + dRow + j * dRow) with (row pos + (j + 1) * dRow) by lia;
       replace (col pos + dCol + j * dCol) with (col pos + (j + 1) * dCol) by lia.
Qed.

(** A square on the line through [from] in direction [d], on the board with
    [from], lies on the ray. *)
Lemma rays_In from to directions dRow dCol k :
  In (dRow, dCol) directions ->
  isValidCoord from = true -> isValidCoord to = true ->
  (dRow = 1 \/ dRow = -1 \/ dRow = 0) -> (dCol = 1 \/ dCol = -1 \/ dCol = 0) ->
  0 < k -> row to = row from + k * dRow -> col to = col from + k * dCol ->
  (dRow <> 0 \/ dCol <> 0) ->
  In to (rays from directions).
Proof.
  intros Hd Hfrom Hto HdR HdC Hk Hrow Hcol Hnz.
  apply isValidCoord_range in Hfrom as [Hfr Hfc]. apply isValidCoord_range in Hto as [Htr Htc].
  unfold rays. apply in_flat_map. exists (dRow, dCol). split; [done|]. cbn [fst snd].
  assert (Hk8 : k < 8) by nia.
  replace to with (mkCoord (row (mkCoord (row from + dRow) (col from + dCol)) + (k - 1) * dRow)
                           (col (mkCoord (row from + dRow) (col from + dCol)) + (k - 1) * dCol))
    by (destruct to as [tr tc]; cbn [row col] in *; f_equal; lia).
  apply ray_In; [lia|]. intros j Hj. apply isValidCoord_range. cbn [row col]. nia.
Qed.

Lemma rays_In_inv from to directions :
  In to (rays from directions) ->
  exists dRow dCol k, In (dRow, dCol) directions /\ 0 < k /\ isValidCoord to = true
    /\ to = mkCoord (row from + k * dRow) (col from + k * dCol).
Proof.
  unfold rays. intros ([dRow dCol] & Hd & Hin)%in_flat_map. cbn [fst snd] in Hin.
  pose proof (ray_valid _ _ _ _ _ Hin) as Hv.
  apply ray_In_inv in Hin as (k & Hk & ->). cbn [row col] in *.
  exists dRow, dCol, (k + 1). repeat split; [done|lia|done|f_equal; lia].
Qed.

Lemma pathLoop_true board to dRow dCol rounds :
  forall steps cr cc,
    0 <= steps <= Z.of_nat rounds ->
    row to = cr + steps * dRow -> col to = cc + steps * dCol ->
    (dRow <> 0 \/ dCol <> 0) ->
    pathLoop rounds board cr cc to dRow dCol = true <->
    forall j, 0 <= j < steps -> idx board (cr + j * dRow) (cc + j * dCol) = None.
Proof.
  induction rounds as [|n IH]; intros steps cr cc Hsteps Hrow Hcol Hdir.
  - assert (steps = 0) as -> by lia. cbn [pathLoop].
    split; [intros _ j Hj; lia|]. intros _. by destruct (_ || _).
  - cbn [pathLoop].
    destruct (decide (steps = 0)) as [->|Hnz].
    { rewrite !bool_decide_eq_true_2 by lia. cbn. split; [intros _ j Hj; lia|done]. }
    assert (negb (bool_decide (cr = row to)) || negb (bool_decide (cc = col to)) = true) as ->.
    { apply orb_true_iff. destruct Hdir.
      - left. apply negb_true_iff, bool_decide_eq_false. nia.
      - right. apply negb_true_iff, bool_decide_eq_false. nia. }
    case_bool_decide as Hocc.
    + split; [done|]. intros Hall. specialize (Hall 0 ltac:(lia)).
      by replace (cr + 0 * dRow) with cr in Hall by lia;
         replace (cc + 0 * dCol) with cc in Hall by lia.
    + assert (Hempty : idx board cr cc = None) by by destruct (idx board cr cc); [destruct Hocc|].
      rewrite (IH (steps - 1)) by lia. split.
      * intros Hall j Hj. destruct (decide (j = 0)) as [->|Hj0].
        { by replace (cr + 0 * dRow) with cr by lia; replace (cc + 0 * dCol) with cc by lia. }
        specialize (Hall (j - 1) ltac:(lia)).
        by replace (cr + dRow + (j - 1) * dRow) with (cr + j * dRow) in Hall by lia;
           replace (cc + dCol + (j - 1) * dCol) with (cc + j * dCol) in Hall by lia.
      * intros Hall j Hj. specialize (Hall (j + 1) ltac:(lia)).
        by replace (cr + (j + 1) * dRow) with (cr + dRow + j * dRow) in Hall by lia;
           replace (cc + (j + 1) * dCol) with (cc + dCol + j * dCol) in Hall by lia.
Qed.

Lemma isPathClear_between board from to :
  row from = row to \/ col from = col to
  \/ Z.abs (row to - row from) = Z.abs (col to - col from) ->
  isPathClear board from to = true <-> between_empty board from to.
Proof.
  intros Hline. unfold isPathClear, between_empty.
  set (dRow := Z.sgn (row to - row from)). set (dCol := Z.sgn (col to - col from)).
  set (dist := Z.max (Z.abs (row to - row from)) (Z.abs (col to - col from))).
  destruct (decide (dist = 0)) as [Hz|Hnz].
  - replace (Z.to_nat dist) with 0%nat by lia. cbn [pathLoop].
    split; [intros _ k Hk; lia|]. intros _. by destruct (_ || _).
  - rewrite (pathLoop_true board to dRow dCol _ (dist - 1)); [| subst dRow dCol dist; lia..].
    split; intros Hall k Hk.
    + specialize (Hall (k - 1) ltac:(lia)).
      by replace (row from + dRow + (k - 1) * dRow) with (row from + k * dRow) in Hall by lia;
         replace (col from + dCol + (k - 1) * dCol) with (col from + k * dCol) in Hall by lia.
    + specialize (Hall (k + 1) ltac:(lia)).
      by replace (row from + (k + 1) * dRow) with (row from + dRow + k * dRow) in Hall by lia;
         replace (col from + (k + 1) * dCol) with (col from + dCol + k * dCol) in Hall by lia.
Qed.

End Candidates.

Section ValidatorFacts.

Lemma getValidator_cached piece :
  ValidatorFactory.getValidator piece = ValidatorFactory.getValidatorCached piece.
Proof.
  unfold ValidatorFactory.getValidator, ValidatorFactory.getValidatorCached.
  destruct (p_type piece); try done. by destruct (p_color piece).
Qed.

Lemma potentialMoves_not_origin piece from to :
  In to (getPotentialMoves (ValidatorFactory.getValidatorCached piece) from) -> to <> from.
Proof.
  assert (Hrays : forall directions,
             Forall (fun d => fst d <> 0 \/ snd d <> 0) directions ->
             In to (rays from directions) -> to <> from).
  { intros directions Hall (dRow & dCol & k & Hd & Hk & _ & ->)%rays_In_inv Heq.
    rewrite Forall_forall in Hall. apply list_elem_of_In in Hd. specialize (Hall _ Hd).
    destruct from as [r c]. cbn [row col fst snd] in *. injection Heq as Hr Hc.
    destruct Hall; nia. }
  assert (Hb : Forall (fun d : Z * Z => fst d <> 0 \/ snd d <> 0) BishopValidator.directions)
    by (repeat constructor; cbn; lia).
  assert (Hr : Forall (fun d : Z * Z => fst d <> 0 \/ snd d <> 0) RookValidator.directions)
    by (repeat constructor; cbn; lia).
  unfold ValidatorFactory.getValidatorCached.
  destruct (p_type piece); [destruct (colorIs _ _)|..]; cbn [getPotentialMoves].
  - unfold PawnValidator.getPotentialMoves. rewrite !in_app_iff.
    cbn [colorIs]. unfold colorIs. rewrite !bool_decide_eq_true_2 by done.
    intros H Heq. subst to. destruct from as [r c]. cbn [row col] in H.
    repeat (destruct H as [H|H]);
      repeat match type of H with
             | In _ (if ?b then _ else _) => destruct b
             | In _ [_] => destruct H as [H|[]]; injection H; lia
             | In _ [] => destruct H
             end.
  - unfold PawnValidator.getPotentialMoves. rewrite !in_app_iff.
    unfold colorIs. rewrite !bool_decide_eq_false_2 by done.
    intros H Heq. subst to. destruct from as [r c]. cbn [row col] in H.
    repeat (destruct H as [H|H]);
      repeat match type of H with
             | In _ (if ?b then _ else _) => destruct b
             | In _ [_] => destruct H as [H|[]]; injection H; lia
             | In _ [] => destruct H
             end.
  - unfold KnightValidator.getPotentialMoves, KnightValidator.potentialOffsets.
    intros ([dr dc] & Hd & Hin)%in_flat_map Heq. subst to. cbn [fst snd] in Hin.
    destruct (isValidCoord _); [|done]. destruct Hin as [Hin|[]].
    destruct from as [r c]. cbn [row col] in Hin. injection Hin as Hr' Hc'.
    cbn [In] in Hd. repeat (destruct Hd as [Hd|Hd]; [injection Hd as <- <-; lia|]). done.
  - by apply Hrays.
  - by apply Hrays.
  - unfold QueenValidator.getPotentialMoves. rewrite in_app_iff.
    intros [H|H]; [by apply (Hrays _ Hb)|by apply (Hrays _ Hr)].
  - unfold KingValidator.getPotentialMoves.
    intros (dr & Hdr & Hin)%in_flat_map Heq. apply in_flat_map in Hin as (dc & Hdc & Hin).
    subst to. destruct (bool_decide (dr = 0) && bool_decide (dc = 0)) eqn:Hz; [done|].
    destruct (isValidCoord _); [|done]. destruct Hin as [Hin|[]].
    destruct from as [r c]. cbn [row col] in Hin. injection Hin as Hr' Hc'.
    assert (dr = 0) as -> by lia. assert (dc = 0) as -> by lia. done.
Qed.

Lemma sliding_self board pos :
  RookValidator.isValidMove board pos pos = true /\
  BishopValidator.isValidMove board pos pos = true.
Proof.
  unfold RookValidator.isValidMove, BishopValidator.isValidMove.
  rewrite !(bool_decide_eq_true_2 (_ = _)) by lia. cbn [negb andb].
  split; (apply isPathClear_between; [tauto|]; intros k Hk; lia).
Qed.

End ValidatorFacts.

(** X10. The candidate squares that a validator lists for a piece are
    squares of the board, and the square the piece stands on is never one
    of them. *)
Theorem candidates_on_board_without_origin (piece : Piece) (from to : BoardCoord) :
  In to (getPotentialMoves (ValidatorFactory.getValidatorCached piece) from) ->
  isValidCoord to = true /\ to <> from.
Proof.
  intros Hin. split; [by eapply potentialMoves_valid|by eapply potentialMoves_not_origin].
Qed.

Lemma candidates_on_board_without_origin_witness :
  In (mkCoord 2 2) (getPotentialMoves
                      (ValidatorFactory.getValidatorCached (mkPiece knight white false))
                      (mkCoord 0 1)) /\
  isValidCoord (mkCoord 2 2) = true /\ mkCoord 2 2 <> mkCoord 0 1.
Proof.
  assert (H : In (mkCoord 2 2) (getPotentialMoves
                      (ValidatorFactory.getValidatorCached (mkPiece knight white false))
                      (mkCoord 0 1))).
  { apply existsb_In. vm_compute. reflexivity. }
  split; [exact H|].
  exact (candidates_on_board_without_origin (mkPiece knight white false) (mkCoord 0 1)
                                            (mkCoord 2 2) H).
Defined.

(** X11. The candidate lists lose no move: a square of the board other than
    the origin that passes [isValidMove] for a piece standing on a square
    of the board is among the candidates listed for that piece.  The
    validators built by [getValidator] and [getValidatorCached] are the
    same. *)
Theorem valid_move_is_candidate (piece : Piece) (board : BoardState) (from to : BoardCoord) :
  isValidCoord from = true -> isValidCoord to = true -> to <> from ->
  isValidMove (ValidatorFactory.getValidatorCached piece) board from to = true ->
  In to (getPotentialMoves (ValidatorFactory.getValidatorCached piece) from) /\
  In to (getPotentialMoves (ValidatorFactory.getValidator piece) from).
Proof.
  intros Hfrom Hto Hne Hvalid. rewrite getValidator_cached. apply and_wlog_l; [tauto|].
  assert (Hbishop : BishopValidator.isValidMove board from to = true ->
                    In to (rays from BishopValidator.directions)).
  { unfold BishopValidator.isValidMove. case_bool_decide as Hdiag; [|done]. intros _.
    assert (row to <> row from).
    { intros E. apply Hne. destruct to as [tr tc], from as [fr fc]; cbn [row col] in *; f_equal; lia. }
    apply (rays_In from to _ (Z.sgn (row to - row from)) (Z.sgn (col to - col from))
                   (Z.abs (row to - row from))); try done; try lia.
    unfold BishopValidator.directions. cbn [In].
    destruct (Z.sgn_spec (row to - row from)) as [[? ->]|[[? ->]|[? ->]]];
      destruct (Z.sgn_spec (col to - col from)) as [[? ->]|[[? ->]|[? ->]]]; try lia; tauto. }
  assert (Hrook : RookValidator.isValidMove board from to = true ->
                  In to (rays from RookValidator.directions)).
  { unfold RookValidator.isValidMove.
    destruct (negb (bool_decide (row from = row to)) && negb (bool_decide (col from = col to)))
      eqn:Hline; [done|]. intros _.
    assert (row from = row to \/ col from = col to) as Hl.
    { apply andb_false_iff in Hline as [H|H]; apply negb_false_iff, bool_decide_eq_true in H;
        tauto. }
    assert (row to <> row from \/ col to <> col from).
    { destruct (decide (row to = row from)); [|tauto]. right. intros E. apply Hne.
      destruct to as [tr tc], from as [fr fc]; cbn [row col] in *; f_equal; lia. }
    apply (rays_In from to _ (Z.sgn (row to - row from)) (Z.sgn (col to - col from))
                   (Z.max (Z.abs (row to - row from)) (Z.abs (col to - col from))));
      try done; try lia.
    unfold RookValidator.directions. cbn [In].
    destruct (Z.sgn_spec (row to - row from)) as [[? ->]|[[? ->]|[? ->]]];
      destruct (Z.sgn_spec (col to - col from)) as [[? ->]|[[? ->]|[? ->]]]; try lia; tauto. }
  revert Hvalid. unfold ValidatorFactory.getValidatorCached.
  apply isValidCoord_range in Hto as Hto'.
  destruct (p_type piece); [destruct (colorIs _ _) eqn:Hcol|..];
    cbn [getPotentialMoves isValidMove].
  - unfold PawnValidator.isValidMove, PawnValidator.getPotentialMoves, colorIs.
    rewrite !(bool_decide_eq_true_2 (white = white)) by done. intros Hvalid. rewrite !in_app_iff.
    destruct to as [tr tc], from as [fr fc]. cbn [row col] in *.
    repeat match type of Hvalid with
           | (if ?b then _ else _) = true => destruct b eqn:?
           end; try done;
      repeat match goal with
             | H : _ && _ = true |- _ => apply andb_true_iff in H as [? ?]
             | H : bool_decide _ = true |- _ => apply bool_decide_eq_true in H
             end.
    + left. replace (fr + 1) with tr by lia. replace fc with tc by lia.
      rewrite Hto. by left.
    + right; left. rewrite bool_decide_eq_true_2 by done.
      replace (fr + 2 * 1) with tr by lia. replace fc with tc by lia. rewrite Hto. by left.
    + destruct (decide (tc = fc - 1)) as [->|].
      * right; right; left. replace (fr + 1) with tr by lia. rewrite Hto. by left.
      * right; right; right. replace (fr + 1) with tr by lia.
        replace (fc + 1) with tc by lia. rewrite Hto. by left.
  - unfold PawnValidator.isValidMove, PawnValidator.getPotentialMoves, colorIs.
    rewrite !(bool_decide_eq_false_2 (black = white)) by done. intros Hvalid. rewrite !in_app_iff.
    destruct to as [tr tc], from as [fr fc]. cbn [row col] in *.
    repeat match type of Hvalid with
           | (if ?b then _ else _) = true => destruct b eqn:?
           end; try done;
      repeat match goal with
             | H : _ && _ = true |- _ => apply andb_true_iff in H as [? ?]
             | H : bool_decide _ = true |- _ => apply bool_decide_eq_true in H
             end.
    + left. replace (fr + -1) with tr by lia. replace fc with tc by lia.
      rewrite Hto. by left.
    + right; left. rewrite bool_decide_eq_true_2 by done.
      replace (fr + 2 * -1) with tr by lia. replace fc with tc by lia. rewrite Hto. by left.
    + destruct (decide (tc = fc - 1)) as [->|].
      * right; right; left. replace (fr + -1) with tr by lia. rewrite Hto. by left.
      * right; right; right. replace (fr + -1) with tr by lia.
        replace (fc + 1) with tc by lia. rewrite Hto. by left.
  - unfold KnightValidator.isValidMove, KnightValidator.getPotentialMoves. intros Hvalid.
    apply in_flat_map. exists (row to - row from, col to - col from). cbn [fst snd].
    replace (mkCoord (row from + (row to - row from)) (col from + (col to - col from)))
      with to by (destruct to as [tr tc]; cbn [row col]; f_equal; lia).
    rewrite Hto. split; [|by left].
    unfold KnightValidator.potentialOffsets. cbn [In].
    apply orb_true_iff in Hvalid as [H|H]; apply andb_true_iff in H as [H1 H2];
      apply bool_decide_eq_true in H1, H2.
    + destruct (Z.abs_spec (row to - row from)) as [[? E1]|[? E1]];
        destruct (Z.abs_spec (col to - col from)) as [[? E2]|[? E2]];
        assert (row to - row from = 1 \/ row to - row from = -1) as [-> | ->] by lia;
        assert (col to - col from = 2 \/ col to - col from = -2) as [-> | ->] by lia; tauto.
    + destruct (Z.abs_spec (row to - row from)) as [[? E1]|[? E1]];
        destruct (Z.abs_spec (col to - col from)) as [[? E2]|[? E2]];
        assert (row to - row from = 2 \/ row to - row from = -2) as [-> | ->] by lia;
        assert (col to - col from = 1 \/ col to - col from = -1) as [-> | ->] by lia; tauto.
  - done.
  - done.
  - unfold QueenValidator.isValidMove, QueenValidator.getPotentialMoves.
    intros [H|H]%orb_true_iff; apply in_app_iff; [left; by apply Hbishop|right; by apply Hrook].
  - unfold KingValidator.isValidMove, KingValidator.getPotentialMoves.
    intros [H1 H2]%andb_true_iff. apply Z.leb_le in H1, H2.
    apply in_flat_map. exists (row to - row from). split; [cbn [In]; lia|].
    apply in_flat_map. exists (col to - col from). split; [cbn [In]; lia|].
    replace (mkCoord (row from + (row to - row from)) (col from + (col to - col from)))
      with to by (destruct to as [tr tc]; cbn [row col]; f_equal; lia).
    rewrite Hto.
    destruct (bool_decide (row to - row from = 0) && bool_decide (col to - col from = 0)) eqn:Hz;
      [|by left].
    apply andb_true_iff in Hz as [Hz1 Hz2]. apply bool_decide_eq_true in Hz1, Hz2.
    exfalso. apply Hne. destruct to as [tr tc], from as [fr fc]; cbn [row col] in *; f_equal; lia.
Qed.

Lemma valid_move_is_candidate_witness :
  isValidCoord (mkCoord 0 2) = true /\ isValidCoord (mkCoord 2 4) = true /\
  isValidMove (ValidatorFactory.getValidatorCached (mkPiece bishop white false))
              (replicate 8 (replicate 8 None)) (mkCoord 0 2) (mkCoord 2 4) = true /\
  In (mkCoord 2 4)
     (getPotentialMoves (ValidatorFactory.getValidatorCached (mkPiece bishop white false))
                        (mkCoord 0 2)).
Proof.
  split; [reflexivity|]. split; [reflexivity|]. split; [vm_compute; reflexivity|].
  refine (proj1 (valid_move_is_candidate (mkPiece bishop white false)
                   (replicate 8 (replicate 8 None)) (mkCoord 0 2) (mkCoord 2 4)
                   eq_refl eq_refl _ _)).
  - intros E. discriminate E.
  - vm_compute. reflexivity.
Defined.


(** ** The handlers of the special moves *)

Section Handlers.
Import CastlingHandler EnPassantHandler PromotionHandler.

Lemma canCastle_Some {S} board king_ from to (test : AttackTest S) s m s' :
  canCastle board king_ from to test s = (Some m, s') <->
  exists side,
    castlingSetup board king_ from to side /\
    anyAttacked test board (row from) (if isKingside side then [4; 5; 6] else [2; 3; 4])
                (opponent (p_color king_)) s = (false, s') /\
    m = mkMove from to king_ None false (Some side) None.
Proof.
  unfold canCastle, castlingSetup.
  unfold GAME_CONFIG.kingsideKingCol, GAME_CONFIG.queensideKingCol,
    GAME_CONFIG.kingsideRookFromCol, GAME_CONFIG.queensideRookFromCol.
  split.
  - destruct (p_hasMoved king_) eqn:Hmoved; [done|].
    destruct (negb (bool_decide (row to = row from))
              || negb (bool_decide (col to = (if col from <? col to then 6 else 2))))
      eqn:Hsq; [done|].
    apply orb_false_iff in Hsq as [Hrow Hcol].
    apply negb_false_iff, bool_decide_eq_true in Hrow, Hcol.
    destruct (idx board (row from) (if col from <? col to then 7 else 0)) as [rook_|] eqn:Hrook;
      [|done].
    destruct (negb (typeIs (p_type rook_) rook) || negb (colorIs (p_color rook_) (p_color king_))
              || p_hasMoved rook_) eqn:Hr; [done|].
    apply orb_false_iff in Hr as [Hr Hrm]. apply orb_false_iff in Hr as [Hrt Hrc].
    apply negb_false_iff, bool_decide_eq_true in Hrt, Hrc.
    destruct (existsb _ _) eqn:Hpath; [done|].
    destruct (anyAttacked _ _ _ _ _ _) as [attacked s1] eqn:Hatt.
    destruct attacked; [done|]. intros [= <- <-].
    exists (if col from <? col to then kingside else queenside).
    assert (Hempty : forall c, In c (if col from <? col to then [5; 6] else [1; 2; 3]) ->
                               idx board (row from) c = None).
    { intros c Hc. destruct (idx board (row from) c) eqn:Hi; [|done].
      assert (existsb (fun c => bool_decide (idx board (row from) c <> None))
                      (if col from <? col to then [5; 6] else [1; 2; 3]) = true); [|congruence].
      apply existsb_exists. exists c. split; [done|]. apply bool_decide_eq_true. congruence. }
    destruct (Z.ltb_spec (col from) (col to)); cbn [isKingside].
    + repeat split; try done. by exists rook_. by destruct to as [tr tc]; cbn in *; subst.
    + repeat split; try done. by exists rook_. by destruct to as [tr tc]; cbn in *; subst.
  - intros (side & (Hmoved & Hrow & Hside & Hcol & (rook_ & Hrook & Hrt & Hrc & Hrm) & Hpath)
            & Hatt & ->).
    rewrite Hmoved.
    assert ((col from <? col to) = isKingside side) as ->.
    { destruct side; cbn [isKingside] in *; [apply Z.ltb_lt|apply Z.ltb_ge]; lia. }
    rewrite Hcol, Hrow, !bool_decide_eq_true_2 by done. cbn [negb orb].
    rewrite Hrook. unfold typeIs, colorIs. rewrite Hrt, Hrc, Hrm.
    rewrite !bool_decide_eq_true_2 by done. cbn [negb orb].
    assert (existsb (fun c => bool_decide (idx board (row from) c <> None))
                    (if isKingside side then [5; 6] else [1; 2; 3]) = false) as ->.
    { apply not_true_is_false. intros (c & Hc & Hocc)%existsb_exists.
      apply bool_decide_eq_true in Hocc. by apply Hocc, Hpath. }
    rewrite Hatt. destruct to as [tr tc], side; cbn in *; by subst.
Qed.

Lemma anyAttacked_blind {S} (test : AttackTest S) (f : BoardState -> BoardCoord -> PieceColor -> bool)
    board r cols attacker s s' :
  (forall b p c s0, fst (test b p c s0) = f b p c) ->
  anyAttacked test board r cols attacker s = (false, s') <->
  (forall c, In c cols -> f board (mkCoord r c) attacker = false) /\
  s' = snd (anyAttacked test board r cols attacker s).
Proof.
  intros Hblind. revert s. induction cols as [|c cols IH]; intros s; cbn [anyAttacked].
  - split; [by intros [= <-]|]. by intros [_ ->].
  - specialize (Hblind board (mkCoord r c) attacker s).
    destruct (test board (mkCoord r c) attacker s) as [hit s1]. cbn [fst] in Hblind. subst hit.
    destruct (f board (mkCoord r c) attacker) eqn:Hf.
    + split; [done|]. intros [Hall _]. specialize (Hall c ltac:(by left)). congruence.
    + rewrite IH. split.
      * intros [Hall ->]. split; [|done]. intros c' [<-|Hin]; [done|by apply Hall].
      * intros [Hall ->]. split; [|done]. intros c' Hin. apply Hall. by right.
Qed.


End Handlers.

Ltac grid :=
  repeat first
    [ rewrite idx_upd by (repeat apply wf_upd; done || lia)
    | case_decide ];
  try done; try lia; try congruence.

(** X13. With an attack test whose answers do not depend on its state,
    [canCastle] returns a move exactly when the king has not moved, the
    target is on the king's row in column 6 (right of the king) or column 2
    (not right of it), the corner on that side holds a rook of the king's
    colour that has not moved, the squares between are empty, and the test
    denies an attack on columns 4 to 6, or 2 to 4; the move then goes from
    the king's square to the target and carries the side.  A king that has
    moved is refused before any attack test is run. *)
Theorem canCastle_exact {S} (board : BoardState) (king_ : Piece) (from to : BoardCoord)
    (test : AttackTest S) (f : BoardState -> BoardCoord -> PieceColor -> bool) (s : S)
    (m : Move) :
  (forall b p c s0, fst (test b p c s0) = f b p c) ->
  (fst (CastlingHandler.canCastle board king_ from to test s) = Some m <->
   exists side,
     castlingSetup board king_ from to side /\
     (forall c, In c (if isKingside side then [4; 5; 6] else [2; 3; 4]) ->
        f board (mkCoord (row from) c) (opponent (p_color king_)) = false) /\
     m = mkMove from to king_ None false (Some side) None) /\
  (p_hasMoved king_ = true ->
   CastlingHandler.canCastle board king_ from to test s = (None, s)).
Proof.
  intros Hblind. split.
  - split.
    + intros Hm.
      destruct (CastlingHandler.canCastle board king_ from to test s) as [res s'] eqn:Hc.
      cbn [fst] in Hm. subst res.
      apply canCastle_Some in Hc as (side & Hsetup & Hatt & ->).
      exists side. split; [done|]. split; [|done].
      by apply (anyAttacked_blind test f) in Hatt as [Hall _].
    + intros (side & Hsetup & Hall & ->).
      set (s' := snd (CastlingHandler.anyAttacked test board (row from)
                        (if isKingside side then [4; 5; 6] else [2; 3; 4])
                        (opponent (p_color king_)) s)).
      assert (CastlingHandler.canCastle board king_ from to test s
              = (Some (mkMove from to king_ None false (Some side) None), s')) as ->; [|done].
      apply canCastle_Some. exists side. split; [done|]. split; [|done].
      by apply (anyAttacked_blind test f).
  - intros Hmoved. unfold CastlingHandler.canCastle. by rewrite Hmoved.
Qed.

(** X14. On an 8x8 board, for a move that [canCastle] returned for the king
    standing on [from], [executeCastling] puts the king on the target and
    the rook beside it (column 5 or 3), both flagged as moved, empties the
    king's square and the corner and changes no other square; and
    [unmakeCastling] turns the result back into the board. *)
Theorem castling_execute_unmake {S} (board : BoardState) (king_ : Piece)
    (from to : BoardCoord) (test : AttackTest S) (s s' : S) (m : Move) :
  wf_board board -> isValidCoord from = true -> at_ board from = Some king_ ->
  CastlingHandler.canCastle board king_ from to test s = (Some m, s') ->
  let after := CastlingHandler.executeCastling board m in
  let kingsideQ := col from <? col to in
  let corner := mkCoord (row from) (if kingsideQ then 7 else 0) in
  let beside := mkCoord (row from) (if kingsideQ then 5 else 3) in
  at_ after to = Some (setMoved king_ true) /\
  (exists rook_, at_ board corner = Some rook_ /\ at_ after beside = Some (setMoved rook_ true)) /\
  at_ after from = None /\ at_ after corner = None /\
  (forall q, q <> from -> q <> to -> q <> corner -> q <> beside -> at_ after q = at_ board q) /\
  CastlingHandler.unmakeCastling after m = board.
Proof.
  intros Hwf Hfrom Hking Hcan after kingsideQ corner beside.
  apply canCastle_Some in Hcan
    as (side & (Hmoved & Hrow & Hside & Hcol & (rook_ & Hrook & Hrt & Hrc & Hrm) & Hpath)
        & _ & ->).
  apply isValidCoord_range in Hfrom as [Hfr Hfc].
  assert (Hks : kingsideQ = isKingside side).
  { subst kingsideQ. destruct side; cbn [isKingside] in *; [apply Z.ltb_lt|apply Z.ltb_ge]; lia. }
  unfold at_ in Hking.
  assert (Hcolfrom : if isKingside side then col from <= 4 else 4 <= col from).
  { destruct side; cbn [isKingside] in *.
    - pose proof (Hpath 5 ltac:(cbn; tauto)). pose proof (Hpath 6 ltac:(cbn; tauto)).
      destruct (decide (col from = 5)) as [E|]; [rewrite E in Hking; congruence|]. lia.
    - pose proof (Hpath 2 ltac:(cbn; tauto)). pose proof (Hpath 3 ltac:(cbn; tauto)).
      destruct (decide (col from = 2)) as [E|]; [rewrite E in Hking; congruence|].
      destruct (decide (col from = 3)) as [E|]; [rewrite E in Hking; congruence|]. lia. }
  assert (Hafter : after =
            upd (upd (upd (upd board (row to) (col to) (Some (setMoved king_ true)))
                          (row from) (col from) None)
                     (row from) (if isKingside side then 5 else 3) (Some (setMoved rook_ true)))
                (row from) (if isKingside side then 7 else 0) None).
  { subst after. unfold CastlingHandler.executeCastling. cbn [m_isCastling m_from m_to].
    rewrite cloneBoard_same. unfold at_, put. rewrite Hking.
    unfold GAME_CONFIG.kingsideRookFromCol, GAME_CONFIG.queensideRookFromCol,
      GAME_CONFIG.kingsideRookToCol, GAME_CONFIG.queensideRookToCol.
    assert (idx (upd (upd board (row to) (col to) (Some (setMoved king_ true)))
                     (row from) (col from) None)
                (row from) (if isKingside side then 7 else 0) = Some rook_) as ->; [|done].
    destruct side; cbn [isKingside] in *; grid. }
  assert (Hto : at_ after to = Some (setMoved king_ true)).
  { rewrite Hafter. unfold at_. destruct side; cbn [isKingside] in *; grid. }
  assert (Hbeside : at_ after beside = Some (setMoved rook_ true)).
  { rewrite Hafter. unfold at_, beside. rewrite Hks. cbn [row col].
    destruct side; cbn [isKingside] in *; grid. }
  split; [done|]. split.
  { exists rook_. split; [|done]. unfold at_, corner. by rewrite Hks. }
  split. { rewrite Hafter. unfold at_. destruct side; cbn [isKingside] in *; grid. }
  split. { rewrite Hafter. unfold at_, corner. rewrite Hks. cbn [row col].
           destruct side; cbn [isKingside] in *; grid. }
  split.
  { intros [qr qc] Hq1 Hq2 Hq3 Hq4. rewrite Hafter. unfold at_. cbn [row col].
    unfold corner, beside in *. rewrite Hks in *.
    destruct from as [fr fc], to as [tr tc]. cbn [row col] in *.
    destruct side; cbn [isKingside] in *; grid;
      match goal with H : _ /\ _ |- _ => destruct H; subst; congruence end. }
  unfold CastlingHandler.unmakeCastling. cbn [m_isCastling m_from m_to].
  unfold GAME_CONFIG.kingsideRookFromCol, GAME_CONFIG.queensideRookFromCol,
    GAME_CONFIG.kingsideRookToCol, GAME_CONFIG.queensideRookToCol.
  rewrite Hto.
  assert (idx after (row from) (if match Some side with Some kingside => true | _ => false end
                                then 5 else 3) = Some (setMoved rook_ true)) as ->.
  { unfold at_, beside in Hbeside. rewrite Hks in Hbeside. cbn [row col] in Hbeside.
    by destruct side. }
  assert (Hwfa : wf_board after) by (rewrite Hafter; by repeat apply wf_upd).
  apply board_ext; [unfold put; by repeat apply wf_upd|done|].
  intros r c Hr Hc. unfold put. rewrite Hafter.
  replace (setMoved (setMoved king_ true) false) with king_
    by (destruct king_; cbn in *; by subst).
  replace (setMoved (setMoved rook_ true) false) with rook_
    by (destruct rook_; cbn in *; by subst).
  destruct side; cbn [isKingside] in *.
  - pose proof (Hpath 5 ltac:(cbn; tauto)). pose proof (Hpath 6 ltac:(cbn; tauto)).
    grid; repeat match goal with H : _ /\ _ |- _ => destruct H end; subst; congruence.
  - pose proof (Hpath 1 ltac:(cbn; tauto)). pose proof (Hpath 2 ltac:(cbn; tauto)).
    pose proof (Hpath 3 ltac:(cbn; tauto)).
    grid; repeat match goal with H : _ /\ _ |- _ => destruct H end; subst; congruence.
Qed.

(** X15. On an 8x8 board, when [isEnPassantMove] accepts the capture by the
    pawn standing on [from], the pawn moved last stands beside it in the
    destination column, and [executeEnPassant] puts the capturing pawn,
    flagged as moved, on the destination, empties its square and the
    square beside it and changes no other square.  [unmakeEnPassant] turns
    the result back into the board when the move records what stood beside
    the pawn as captured. *)
Theorem enPassant_execute_unmake (board : BoardState) (pawn_ : Piece)
    (from to : BoardCoord) (last : Move) :
  wf_board board -> isValidCoord from = true -> at_ board from = Some pawn_ ->
  EnPassantHandler.isEnPassantMove pawn_ board from to (Some last) = true ->
  let victimPos := mkCoord (row from) (col to) in
  let m := mkMove from to pawn_ (at_ board victimPos) true None None in
  let after := EnPassantHandler.executeEnPassant board m in
  m_to last = victimPos /\ isValidCoord to = true /\
  at_ after to = Some (setMoved pawn_ true) /\
  at_ after from = None /\ at_ after victimPos = None /\
  (forall q, q <> from -> q <> to -> q <> victimPos -> at_ after q = at_ board q) /\
  EnPassantHandler.unmakeEnPassant after m = board.
Proof.
  intros Hwf Hfrom Hpawn Hep victimPos m after.
  unfold EnPassantHandler.isEnPassantMove in Hep.
  repeat match type of Hep with
         | (if ?b then false else _) = true => destruct b eqn:?; [discriminate Hep|]
         end.
  apply andb_true_iff in Hep as [Hc Hr]. apply bool_decide_eq_true in Hc, Hr.
  repeat match goal with
         | H : negb _ = false |- _ => apply negb_false_iff in H
         | H : _ || _ = false |- _ => apply orb_false_iff in H as [? ?]
         | H : _ && _ = true |- _ => apply andb_true_iff in H as [? ?]
         | H : bool_decide _ = true |- _ => apply bool_decide_eq_true in H
         end.
  match goal with H : isValidCoord to = true |- _ => rename H into Hto end.
  match goal with H : at_ board to = None |- _ => rename H into Hempty end.
  match goal with H : row to - row from = _ |- _ => rename H into Hrd end.
  match goal with H : Z.abs (col to - col from) = 1 |- _ => rename H into Hcd end.
  apply isValidCoord_range in Hfrom as [Hfr Hfc]. apply isValidCoord_range in Hto as Hto'.
  destruct Hto' as [Htr Htc].
  assert (Hrne : row to <> row from) by (destruct (colorIs _ _); lia).
  assert (Hcne : col to <> col from) by lia.
  unfold at_ in Hpawn, Hempty.
  assert (Hafter : after =
            upd (upd (upd board (row to) (col to) (Some (setMoved pawn_ true)))
                     (row from) (col from) None)
                (row from) (col to) None).
  { subst after. unfold EnPassantHandler.executeEnPassant. cbn [m m_isEnPassant m_from m_to negb].
    rewrite cloneBoard_same. unfold at_, put. by rewrite Hpawn. }
  clearbody after.
  assert (Hat_to : at_ after to = Some (setMoved pawn_ true)).
  { rewrite Hafter. unfold at_. grid. }
  split. { destruct (m_to last) as [lr lc]. cbn [row col] in *. unfold victimPos. by subst. }
  split; [done|]. split; [done|].
  split. { rewrite Hafter. unfold at_. grid. }
  split. { rewrite Hafter. unfold at_, victimPos. cbn [row col]. grid. }
  split.
  { intros [qr qc] Hq1 Hq2 Hq3. rewrite Hafter. unfold at_, victimPos in *. cbn [row col].
    destruct from as [fr fc], to as [tr tc]. cbn [row col] in *.
    grid; match goal with H : _ /\ _ |- _ => destruct H; subst; congruence end. }
  unfold EnPassantHandler.unmakeEnPassant. cbn [m m_from m_to m_piece m_captured].
  rewrite Hat_to.
  replace (setMoved (setMoved pawn_ true) (p_hasMoved pawn_)) with pawn_ by by destruct pawn_.
  assert (Hwfa : wf_board after) by (rewrite Hafter; by repeat apply wf_upd).
  apply board_ext; [unfold put; by repeat apply wf_upd|done|].
  intros r c Hr' Hc'. unfold put, at_, victimPos. cbn [row col]. rewrite Hafter.
  grid; repeat match goal with H : _ /\ _ |- _ => destruct H end; subst; congruence.
Qed.

(** X16. On an 8x8 board, [executePromotion] changes the type of a pawn on
    the given square of the board and nothing else, and leaves a board
    whose square holds another piece or none as it is; [unmakePromotion]
    turns the result back into the board whenever the square held a pawn or
    nothing. *)
Theorem promotion_execute_unmake (board : BoardState) (position : BoardCoord)
    (newPieceType : PieceType) :
  wf_board board -> isValidCoord position = true ->
  let after := PromotionHandler.executePromotion board position newPieceType in
  (forall p, at_ board position = Some p -> p_type p = pawn ->
     at_ after position = Some (setType p newPieceType)) /\
  (forall p, at_ board position = Some p -> p_type p <> pawn -> after = board) /\
  (at_ board position = None -> after = board) /\
  (forall q, q <> position -> at_ after q = at_ board q) /\
  ((forall p, at_ board position = Some p -> p_type p = pawn) ->
   PromotionHandler.unmakePromotion after position = board).
Proof.
  intros Hwf Hpos after. subst after. unfold PromotionHandler.executePromotion.
  rewrite cloneBoard_same.
  destruct (at_ board position) as [p|] eqn:Hp.
  - unfold typeIs. case_bool_decide as Hty.
    + split; [by intros ? [= <-] _; rewrite at_put by done; rewrite decide_True|].
      split; [by intros ? [= <-] ?|]. split; [done|].
      split; [by intros q Hq; rewrite at_put by done; rewrite decide_False|].
      intros _. unfold PromotionHandler.unmakePromotion.
      rewrite at_put by done. rewrite decide_True by done.
      apply board_ext; [by repeat apply wf_put|done|].
      intros r c Hr Hc. change (at_ (put (put board position (Some (setType p newPieceType)))
                                         position (Some (setType (setType p newPieceType) pawn)))
                                    (mkCoord r c) = at_ board (mkCoord r c)).
      rewrite at_put by (by try apply wf_put). case_decide as E.
      * rewrite E, Hp. f_equal. destruct p; cbn in *; by subst.
      * rewrite at_put by done. by rewrite decide_False.
    + split; [by intros ? [= <-] ?|]. split; [done|]. split; [done|]. split; [done|].
      intros Hpawn. by specialize (Hpawn p eq_refl).
  - split; [done|]. split; [done|]. split; [done|]. split; [done|].
    intros _. unfold PromotionHandler.unmakePromotion. by rewrite Hp.
Qed.

(** X17. In commit mode a move that is neither castling nor en passant is
    made on a copy: on an 8x8 board with a piece on the origin, the board
    that [executeMove] returns holds that piece, flagged as moved, on the
    destination, nothing on the origin, and the old content everywhere
    else.  A promotion type on the record changes nothing: the piece keeps
    its type. *)
Theorem executeMove_plain (board : BoardState) (m : Move) (p : Piece) :
  wf_board board -> isValidCoord (m_from m) = true -> isValidCoord (m_to m) = true ->
  m_from m <> m_to m -> at_ board (m_from m) = Some p ->
  m_isCastling m = None -> m_isEnPassant m = false ->
  let after := MoveExecutor.executeMove board m in
  wf_board after /\
  at_ after (m_to m) = Some (setMoved p true) /\
  at_ after (m_from m) = None /\
  (forall q, q <> m_from m -> q <> m_to m -> at_ after q = at_ board q).
Proof.
  intros Hwf Hfrom Hto Hne Hp Hc He after. subst after.
  unfold MoveExecutor.executeMove, MoveExecutor._makeMove. rewrite cloneBoard_same, Hc, He.
  assert (Hmake : MoveExecutor._makeNormalMove board m
                  = put (put board (m_to m) (Some (setMoved p true))) (m_from m) None).
  { unfold MoveExecutor._makeNormalMove. by rewrite Hp. }
  assert (forall b : BoardState,
             match m_promotion m with
             | Some t => let _ := PromotionHandler.executePromotion b (m_to m) t in b
             | None => b
             end = b) as -> by (intros b; by destruct (m_promotion m)).
  rewrite Hmake.
  split; [by repeat apply wf_put|].
  split. { rewrite !at_put by (by try apply wf_put). rewrite decide_False by done.
           by rewrite decide_True. }
  split. { rewrite at_put by (by try apply wf_put). by rewrite decide_True. }
  intros q Hq1 Hq2. rewrite !at_put by (by try apply wf_put). by rewrite !decide_False.
Qed.

Ltac grid8 := split; [vm_compute; reflexivity|vm_compute; repeat constructor].

Lemma canCastle_exact_witness :
  fst (CastlingHandler.canCastle Play.castlingCorner (mkPiece king white false)
         (Play.sq 0 4) (Play.sq 0 6) Play.directTest tt) = Some Play.castleShort /\
  exists side,
    castlingSetup Play.castlingCorner (mkPiece king white false) (Play.sq 0 4) (Play.sq 0 6)
                  side /\
    (forall c, In c (if isKingside side then [4; 5; 6] else [2; 3; 4]) ->
       Game._calculateIsSquareAttacked Play.castlingCorner (mkCoord 0 c) black = false) /\
    Play.castleShort = mkMove (Play.sq 0 4) (Play.sq 0 6) (mkPiece king white false) None false
                              (Some side) None.
Proof.
  assert (H : fst (CastlingHandler.canCastle Play.castlingCorner (mkPiece king white false)
                     (Play.sq 0 4) (Play.sq 0 6) Play.directTest tt) = Some Play.castleShort)
    by (vm_compute; reflexivity).
  split; [exact H|].
  exact (proj1 (proj1 (canCastle_exact Play.castlingCorner (mkPiece king white false)
                         (Play.sq 0 4) (Play.sq 0 6) Play.directTest
                         Game._calculateIsSquareAttacked tt Play.castleShort
                         (fun _ _ _ _ => eq_refl))) H).
Defined.

Lemma castling_execute_unmake_witness :
  wf_board Play.castlingCorner /\
  CastlingHandler.canCastle Play.castlingCorner (mkPiece king white false)
    (Play.sq 0 4) (Play.sq 0 6) Play.directTest tt = (Some Play.castleShort, tt) /\
  CastlingHandler.unmakeCastling
    (CastlingHandler.executeCastling Play.castlingCorner Play.castleShort) Play.castleShort
  = Play.castlingCorner.
Proof.
  assert (Hwf : wf_board Play.castlingCorner) by grid8.
  assert (Hcan : CastlingHandler.canCastle Play.castlingCorner (mkPiece king white false)
                   (Play.sq 0 4) (Play.sq 0 6) Play.directTest tt = (Some Play.castleShort, tt))
    by (vm_compute; reflexivity).
  split; [exact Hwf|]. split; [exact Hcan|].
  exact (proj2 (proj2 (proj2 (proj2 (proj2
           (castling_execute_unmake Play.castlingCorner (mkPiece king white false)
              (Play.sq 0 4) (Play.sq 0 6) Play.directTest tt tt Play.castleShort
              Hwf eq_refl eq_refl Hcan)))))).
Defined.

Lemma enPassant_execute_unmake_witness :
  wf_board Play.enPassantCorner /\
  EnPassantHandler.isEnPassantMove (mkPiece pawn white true) Play.enPassantCorner
    (Play.sq 4 4) (Play.sq 5 3) (Some Play.pawnD7D5) = true /\
  at_ (EnPassantHandler.executeEnPassant Play.enPassantCorner
         (mkMove (Play.sq 4 4) (Play.sq 5 3) (mkPiece pawn white true)
                 (at_ Play.enPassantCorner (mkCoord 4 3)) true None None)) (mkCoord 4 3)
  = None.
Proof.
  assert (Hwf : wf_board Play.enPassantCorner) by grid8.
  assert (Hep : EnPassantHandler.isEnPassantMove (mkPiece pawn white true)
                  Play.enPassantCorner (Play.sq 4 4) (Play.sq 5 3) (Some Play.pawnD7D5) = true)
    by (vm_compute; reflexivity).
  split; [exact Hwf|]. split; [exact Hep|].
  exact (proj1 (proj2 (proj2 (proj2 (proj2
           (enPassant_execute_unmake Play.enPassantCorner (mkPiece pawn white true)
              (Play.sq 4 4) (Play.sq 5 3) Play.pawnD7D5 Hwf eq_refl eq_refl Hep)))))).
Defined.

Lemma promotion_execute_unmake_witness :
  wf_board Play.promotionCorner /\
  at_ (PromotionHandler.executePromotion Play.promotionCorner (Play.sq 7 0) rook) (Play.sq 7 0)
  = Some (mkPiece rook white true).
Proof.
  assert (Hwf : wf_board Play.promotionCorner) by grid8.
  split; [exact Hwf|].
  exact (proj1 (promotion_execute_unmake Play.promotionCorner (Play.sq 7 0) rook Hwf eq_refl)
               (mkPiece pawn white true) eq_refl eq_refl).
Defined.

Lemma executeMove_plain_witness :
  wf_board BoardUtils.createInitialBoard /\
  at_ (MoveExecutor.executeMove BoardUtils.createInitialBoard Play.pawnE4) (Play.sq 3 4)
  = Some (mkPiece pawn white true).
Proof.
  split; [exact wf_board_initial|].
  refine (proj1 (proj2 (executeMove_plain BoardUtils.createInitialBoard Play.pawnE4
                          (mkPiece pawn white false) wf_board_initial eq_refl eq_refl _
                          eq_refl eq_refl eq_refl))).
  intros E. discriminate E.
Defined.

(** ** What a position key tells *)

Section KeyParts.
Import FenGenerator.

Lemma rowFen_layout b1 b2 r cols e :
  (forall c, layout b1 r c = layout b2 r c) ->
  rowFen b1 r cols e = rowFen b2 r cols e.
Proof.
  intros Hlay. revert e. induction cols as [|c cols IH]; intros e; cbn [rowFen]; [done|].
  specialize (Hlay c). unfold layout in Hlay.
  destruct (idx b1 r c) as [p|], (idx b2 r c) as [q|]; try done.
  injection Hlay as Ht Hc. rewrite IH.
  replace (pieceChar q) with (pieceChar p); [done|].
  unfold pieceChar. by rewrite Ht, Hc.
Qed.

Lemma placement_layout b1 b2 :
  same_layout b1 b2 -> getPiecePlacementFen b1 = getPiecePlacementFen b2.
Proof.
  intros Hlay. unfold getPiecePlacementFen. cbn [foldr].
  by rewrite !(rowFen_layout b1 b2) by (intros c; apply Hlay).
Qed.

Lemma string_app_inv_head (p s t : string) : p +:+ s = p +:+ t -> s = t.
Proof. induction p as [|ch p IH]; [done|]. intros [= H]. by apply IH. Qed.

Lemma castlingFen_bits board :
  getCastlingFen board =
  match castlingRight board 0 7, castlingRight board 0 0,
        castlingRight board 7 7, castlingRight board 7 0 with
  | false, false, false, false => "-"
  | wk, wq, bk, bq =>
      (if wk then "K" else "") +:+ (if wq then "Q" else "") +:+
      (if bk then "k" else "") +:+ (if bq then "q" else "")
  end.
Proof.
  unfold getCastlingFen, BOARD_CONFIG.pieceRank.
  by destruct (castlingRight board 0 7), (castlingRight board 0 0),
       (castlingRight board 7 7), (castlingRight board 7 0).
Qed.

Lemma castlingFen_split b1 b2 (e1 e2 : string) :
  getCastlingFen b1 +:+ " " +:+ e1 = getCastlingFen b2 +:+ " " +:+ e2 ->
  (castlingRight b1 0 7 = castlingRight b2 0 7 /\ castlingRight b1 0 0 = castlingRight b2 0 0 /\
   castlingRight b1 7 7 = castlingRight b2 7 7 /\ castlingRight b1 7 0 = castlingRight b2 7 0)
  /\ e1 = e2.
Proof.
  rewrite !castlingFen_bits.
  destruct (castlingRight b1 0 7), (castlingRight b1 0 0),
    (castlingRight b1 7 7), (castlingRight b1 7 0),
    (castlingRight b2 0 7), (castlingRight b2 0 0),
    (castlingRight b2 7 7), (castlingRight b2 7 0);
    cbn; intros H; try discriminate H; by simplify_eq.
Qed.

End KeyParts.

(** X18. Two 8x8 positions have the same position key exactly when every
    square shows the same type and colour of piece (or none) on both
    boards, the same side is to move, the four castling rights read off the
    home squares of kings and rooks agree, and the en-passant fields
    agree.  Nothing else enters the key: not the [hasMoved] flags of other
    pieces, nor the move history or the clocks. *)
Theorem positionKey_exact (board1 board2 : BoardState) (gs1 gs2 : GameState) :
  wf_board board1 -> wf_board board2 ->
  FenGenerator.getPositionKey board1 gs1 = FenGenerator.getPositionKey board2 gs2 <->
  same_layout board1 board2 /\
  currentTurn gs1 = currentTurn gs2 /\
  (forall r rookCol, In r [0; 7] -> In rookCol [7; 0] ->
     FenGenerator.castlingRight board1 r rookCol = FenGenerator.castlingRight board2 r rookCol) /\
  FenGenerator.getEnPassantFen gs1 = FenGenerator.getEnPassantFen gs2.
Proof.
  intros Hwf1 Hwf2. split.
  - intros Hkey.
    pose proof (positionKey_layout _ _ _ _ Hwf1 Hwf2 Hkey) as Hlay.
    split; [done|]. unfold FenGenerator.getPositionKey in Hkey.
    rewrite (placement_layout _ _ Hlay) in Hkey.
    apply string_app_inv_head in Hkey. cbn [String.append] in Hkey.
    injection Hkey as Hturn Hrest.
    apply castlingFen_split in Hrest as [(H1 & H2 & H3 & H4) He].
    split; [by destruct (currentTurn gs1), (currentTurn gs2)|].
    split; [|done].
    intros r rookCol [<-|[<-|[]]] [<-|[<-|[]]]; done.
  - intros (Hlay & Hturn & Hrights & Hep).
    unfold FenGenerator.getPositionKey.
    rewrite (placement_layout _ _ Hlay), Hturn, Hep. do 4 f_equal.
    rewrite !castlingFen_bits.
    by rewrite !Hrights by (cbn; tauto).
Qed.

Lemma positionKey_exact_witness :
  wf_board BoardUtils.createInitialBoard /\
  wf_board (currentBoard Play.afterKnightCycle) /\
  BoardUtils.createInitialBoard <> currentBoard Play.afterKnightCycle /\
  same_layout BoardUtils.createInitialBoard (currentBoard Play.afterKnightCycle).
Proof.
  assert (Hwf : wf_board (currentBoard Play.afterKnightCycle))
    by (split; [vm_compute; reflexivity|vm_compute; repeat constructor]).
  split; [exact wf_board_initial|]. split; [exact Hwf|].
  split; [intros E; vm_compute in E; discriminate E|].
  refine (proj1 (proj1 (positionKey_exact BoardUtils.createInitialBoard
                          (currentBoard Play.afterKnightCycle) newGameState
                          (gameState Play.afterKnightCycle) wf_board_initial Hwf) _)).
  vm_compute. reflexivity.
Defined.

(** ** Undo and redo *)

Section UndoRedo.
Import GameStateOps.

Lemma undo_some gs :
  cursor_ok gs -> 0 < currentSnapshotIndex gs ->
  exists snap,
    gameSnapshots gs !! Z.to_nat (currentSnapshotIndex gs - 1) = Some snap /\
    undo gs = (Some snap,
               restoreFromSnapshot
                 (set_currentSnapshotIndex (currentSnapshotIndex gs - 1) gs) snap).
Proof.
  intros [Hlo Hhi] Hpos.
  destruct (lookup_lt_is_Some_2 (gameSnapshots gs) (Z.to_nat (currentSnapshotIndex gs - 1)))
    as [snap Hsnap]; [lia|].
  exists snap. split; [done|]. unfold undo.
  rewrite (proj2 (Z.leb_gt _ _) Hpos). cbn [currentSnapshotIndex set_currentSnapshotIndex].
  unfold snapshotAt. cbn [gameSnapshots set_currentSnapshotIndex].
  rewrite (proj2 (Z.leb_le 0 _)) by lia. by rewrite Hsnap.
Qed.

Lemma redo_some gs :
  cursor_ok gs -> currentSnapshotIndex gs < Z.of_nat (length (gameSnapshots gs)) - 1 ->
  exists snap,
    gameSnapshots gs !! Z.to_nat (currentSnapshotIndex gs + 1) = Some snap /\
    redo gs = (Some snap,
               restoreFromSnapshot
                 (set_currentSnapshotIndex (currentSnapshotIndex gs + 1) gs) snap).
Proof.
  intros [Hlo Hhi] Hpos.
  destruct (lookup_lt_is_Some_2 (gameSnapshots gs) (Z.to_nat (currentSnapshotIndex gs + 1)))
    as [snap Hsnap]; [lia|].
  exists snap. split; [done|]. unfold redo.
  rewrite (proj2 (Z.leb_gt _ _) Hpos). cbn [currentSnapshotIndex set_currentSnapshotIndex].
  unfold snapshotAt. cbn [gameSnapshots set_currentSnapshotIndex].
  rewrite (proj2 (Z.leb_le 0 _)) by lia. by rewrite Hsnap.
Qed.

End UndoRedo.

(** X19. As long as the cursor points into the stack, [undo] restores a
    snapshot exactly when [canUndo] holds and [redo] exactly when [canRedo]
    holds: the cursor then moves by one, the stack stays as it is, the
    snapshot under the new cursor is returned and the stored fields of the
    game state become those of that snapshot.  Otherwise the call returns
    [null] and changes nothing. *)
Theorem undo_redo_exact (gs : GameState) :
  cursor_ok gs ->
  let step (can : bool) (result : option GameSnapshot * GameState) (target : Z) :=
    if can
    then exists snap,
           GameStateOps.snapshotAt gs target = Some snap /\
           fst result = Some snap /\
           rulesState (snd result) = snapshotState snap /\
           currentSnapshotIndex (snd result) = target /\
           gameSnapshots (snd result) = gameSnapshots gs
    else result = (None, gs) in
  step (GameStateOps.canUndo gs) (GameStateOps.undo gs) (currentSnapshotIndex gs - 1) /\
  step (GameStateOps.canRedo gs) (GameStateOps.redo gs) (currentSnapshotIndex gs + 1).
Proof.
  intros Hok step. subst step. cbv beta. split.
  - unfold GameStateOps.canUndo. destruct (Z.ltb_spec 0 (currentSnapshotIndex gs)) as [Hpos|Hle].
    + destruct (undo_some gs Hok Hpos) as (snap & Hsnap & ->). exists snap.
      split; [|done]. unfold GameStateOps.snapshotAt.
      by rewrite (proj2 (Z.leb_le 0 _)) by lia.
    + by apply undo_at_first.
  - unfold GameStateOps.canRedo.
    destruct (Z.ltb_spec (currentSnapshotIndex gs) (Z.of_nat (length (gameSnapshots gs)) - 1))
      as [Hpos|Hle].
    + destruct (redo_some gs Hok Hpos) as (snap & Hsnap & ->). exists snap.
      split; [|done]. unfold GameStateOps.snapshotAt. destruct Hok.
      by rewrite (proj2 (Z.leb_le 0 _)) by lia.
    + by apply redo_at_last.
Qed.

Lemma undo_redo_exact_witness :
  cursor_ok (gameState Play.undoneTwice) /\
  GameStateOps.canRedo (gameState Play.undoneTwice) = true /\
  exists snap,
    GameStateOps.snapshotAt (gameState Play.undoneTwice)
      (currentSnapshotIndex (gameState Play.undoneTwice) + 1) = Some snap /\
    fst (GameStateOps.redo (gameState Play.undoneTwice)) = Some snap /\
    rulesState (snd (GameStateOps.redo (gameState Play.undoneTwice))) = snapshotState snap /\
    currentSnapshotIndex (snd (GameStateOps.redo (gameState Play.undoneTwice)))
    = currentSnapshotIndex (gameState Play.undoneTwice) + 1 /\
    gameSnapshots (snd (GameStateOps.redo (gameState Play.undoneTwice)))
    = gameSnapshots (gameState Play.undoneTwice).
Proof.
  assert (H : cursor_ok (gameState Play.undoneTwice)).
  { unfold cursor_ok. vm_compute. split; [discriminate|reflexivity]. }
  assert (Hcan : GameStateOps.canRedo (gameState Play.undoneTwice) = true)
    by (vm_compute; reflexivity).
  split; [exact H|]. split; [exact Hcan|].
  pose proof (proj2 (undo_redo_exact (gameState Play.undoneTwice) H)) as Hredo.
  cbv beta in Hredo. rewrite Hcan in Hredo. exact Hredo.
Defined.

Section MoveUndoRedo.
Import ChessGameController.

Lemma controller_undo_some ctl snap gs' :
  GameStateOps.undo (gameState ctl) = (Some snap, gs') ->
  currentBoard (undo ctl) = s_board snap /\
  rulesState (gameState (undo ctl)) = rulesState gs' /\
  gameSnapshots (gameState (undo ctl)) = gameSnapshots gs' /\
  currentSnapshotIndex (gameState (undo ctl)) = currentSnapshotIndex gs'.
Proof.
  intros H. unfold undo. rewrite H. unfold restoreSnapshot, updateLegalMoves.
  cbn. by rewrite cloneBoard_same.
Qed.

Lemma controller_redo_some ctl snap gs' :
  GameStateOps.redo (gameState ctl) = (Some snap, gs') ->
  currentBoard (redo ctl) = s_board snap /\
  rulesState (gameState (redo ctl)) = rulesState gs' /\
  gameSnapshots (gameState (redo ctl)) = gameSnapshots gs' /\
  currentSnapshotIndex (gameState (redo ctl)) = currentSnapshotIndex gs'.
Proof.
  intros H. unfold redo. rewrite H. unfold restoreSnapshot, updateLegalMoves.
  cbn. by rewrite cloneBoard_same.
Qed.

End MoveUndoRedo.

(** X20. A committed move cannot be brought back: when a move is executed
    in a state whose cursor points into the stack, then undone and redone,
    the board and the stored fields of the game state are those from before
    the move, and no further redo is possible.  The snapshot pushed by
    [executeMove] holds the position before the move, and that is the last
    entry of the stack. *)
Theorem move_undo_redo_loses_move (move : Move) (ctl : Controller) :
  cursor_ok (gameState ctl) -> 0 <= currentSnapshotIndex (gameState ctl) ->
  let back := ChessGameController.redo
                (ChessGameController.undo (ChessGameController.executeMove move ctl)) in
  currentBoard back = currentBoard ctl /\
  rulesState (gameState back) = rulesState (gameState ctl) /\
  GameStateOps.canRedo (gameState back) = false.
Proof.
  intros Hok Hidx back.
  set (ctl1 := ChessGameController.executeMove move ctl).
  destruct (executeMove_stack move ctl) as [Hstack Hcursor]. fold ctl1 in Hstack, Hcursor.
  rewrite saveSnapshot_stack in Hstack by done. rewrite saveSnapshot_cursor in Hcursor.
  set (i := currentSnapshotIndex (gameState ctl)) in *.
  set (T := GameStateOps.takeSnapshot (gameState ctl) (currentBoard ctl)) in *.
  assert (Hlen : length (take (Z.to_nat (i + 1)) (gameSnapshots (gameState ctl)))
                 = Z.to_nat (i + 1)).
  { destruct Hok. rewrite length_take. subst i. lia. }
  assert (Hok1 : cursor_ok (gameState ctl1)).
  { unfold cursor_ok. rewrite Hstack, Hcursor, length_app, Hlen. cbn [length]. lia. }
  destruct (undo_some (gameState ctl1) Hok1 ltac:(lia)) as (snap & Hsnap & Hundo).
  destruct (controller_undo_some ctl1 snap _ Hundo) as (_ & _ & Hs2 & Hc2).
  set (ctl2 := ChessGameController.undo ctl1) in *.
  cbn [gameSnapshots currentSnapshotIndex GameStateOps.restoreFromSnapshot] in Hs2, Hc2.
  change (gameSnapshots (gameState ctl2) = gameSnapshots (gameState ctl1)) in Hs2.
  change (currentSnapshotIndex (gameState ctl2) = currentSnapshotIndex (gameState ctl1) - 1)
    in Hc2.
  assert (Hok2 : cursor_ok (gameState ctl2)).
  { unfold cursor_ok. rewrite Hs2, Hc2, Hstack, Hcursor, length_app, Hlen. cbn [length]. lia. }
  destruct (redo_some (gameState ctl2) Hok2) as (snap' & Hsnap' & Hredo).
  { rewrite Hs2, Hc2, Hstack, Hcursor, length_app, Hlen. cbn [length]. lia. }
  assert (snap' = T) as ->.
  { rewrite Hs2, Hc2, Hstack, Hcursor in Hsnap'.
    rewrite lookup_app_r in Hsnap' by lia.
    replace (Z.to_nat (i + 1 - 1 + 1) - length (take (Z.to_nat (i + 1))
                                                    (gameSnapshots (gameState ctl))))%nat
      with 0%nat in Hsnap' by lia.
    by injection Hsnap'. }
  destruct (controller_redo_some ctl2 T _ Hredo) as (Hb & Hr & Hs3 & Hc3).
  change back with (ChessGameController.redo ctl2). clearbody ctl2 ctl1.
  split; [rewrite Hb; apply cloneBoard_same|]. split; [by rewrite Hr|].
  unfold GameStateOps.canRedo. apply Z.ltb_ge.
  rewrite Hs3, Hc3.
  cbn [gameSnapshots currentSnapshotIndex GameStateOps.restoreFromSnapshot
       set_currentSnapshotIndex set_currentTurn set_moveHistory set_lastMove set_isCheck
       set_isCheckmate set_isStalemate set_isDraw set_whiteKingPos set_blackKingPos
       set_halfMoveClock set_positionHistory].
  rewrite Hs2, Hc2, Hstack, Hcursor, length_app, Hlen. cbn [length]. lia.
Qed.

Lemma move_undo_redo_loses_move_witness :
  cursor_ok (gameState ChessGameController.initGame) /\
  currentBoard (ChessGameController.executeMove Play.pawnE4 ChessGameController.initGame)
    <> currentBoard ChessGameController.initGame /\
  currentBoard (ChessGameController.redo (ChessGameController.undo
                  (ChessGameController.executeMove Play.pawnE4 ChessGameController.initGame)))
  = currentBoard ChessGameController.initGame.
Proof.
  assert (H : cursor_ok (gameState ChessGameController.initGame)).
  { unfold cursor_ok. vm_compute. split; [discriminate|reflexivity]. }
  split; [exact H|]. split; [intros E; vm_compute in E; discriminate E|].
  refine (proj1 (move_undo_redo_loses_move Play.pawnE4 ChessGameController.initGame H _)).
  vm_compute. discriminate.
Defined.

(** ** The moves that a generation pass offers *)

Section Offers.
Import Game.

Lemma yields_ret_nil P board : yields P board (ret []).
Proof. intros cache. constructor. Qed.

Lemma yields_append P board (c1 c2 : State Pass (list Move)) :
  keepsBoard board c1 -> yields P board c1 -> yields P board c2 ->
  yields P board (xs <- c1 ;; ys <- c2 ;; ret (xs ++ ys)).
Proof.
  intros Hkeep H1 H2 cache. unfold bind, ret.
  specialize (Hkeep cache). specialize (H1 cache).
  destruct (c1 (board, cache)) as [xs [b1 cache1]]. cbn [fst snd] in *. subst b1.
  specialize (H2 cache1). destruct (c2 (board, cache1)) as [ys [b2 cache2]].
  cbn [fst] in *. by apply Forall_app.
Qed.

Lemma yields_forEachPush {A} P board (xs : list A) (body : A -> State Pass (list Move)) :
  (forall x, In x xs -> keepsBoard board (body x)) ->
  (forall x, In x xs -> yields P board (body x)) ->
  yields P board (forEachPush xs body).
Proof.
  induction xs as [|x xs IH]; intros Hkeep Hbody; cbn [forEachPush].
  - apply yields_ret_nil.
  - apply yields_append; [apply Hkeep; by left|apply Hbody; by left|].
    apply IH; intros y Hy; [apply Hkeep|apply Hbody]; by right.
Qed.

Lemma at_valid board pos piece :
  wf_board board -> at_ board pos = Some piece -> isValidCoord pos = true.
Proof.
  intros Hwf Hat. destruct (isValidCoord pos) eqn:Hv; [done|].
  unfold at_ in Hat. rewrite idx_outside in Hat; [done..|].
  intros H. apply isValidCoord_range in H. congruence.
Qed.

Lemma yields_generateMovesForPiece board color gs piece from :
  wf_board board -> isValidCoord from = true -> at_ board from = Some piece ->
  p_color piece = color ->
  yields (offered_ok board color gs) board (_generateMovesForPiece piece from gs).
Proof.
  intros Hwf Hfrom Hpiece Hcolor. unfold _generateMovesForPiece.
  apply yields_forEachPush.
  - intros to Hto cache.
    destruct (isValidMove _ board from to); cbn [negb]; [|done].
    pose proof (keepsBoard_validateMoveLite board piece from to gs Hwf Hfrom
                  (potentialMoves_valid _ _ _ Hto) Hpiece cache) as Hkeep.
    by destruct (_validateMoveLite piece from to gs (board, cache)) as [[m|] [b1 c1]].
  - intros to Hto cache.
    destruct (isValidMove _ board from to) eqn:Hvalid; cbn [negb]; [|constructor].
    unfold _validateMoveLite.
    destruct (match at_ board to with
              | Some d => colorIs (p_color d) (p_color piece)
              | None => false end) eqn:Hown; [constructor|].
    destruct (probe _ _ _) as [inCheck pass]. destruct inCheck; [constructor|].
    cbn [fst]. constructor; [|constructor].
    unfold offered_ok. cbn [m_from m_to m_piece m_captured m_isCastling m_isEnPassant
                            m_promotion].
    rewrite copyPiece_same.
    split; [done|]. split; [by eapply potentialMoves_valid|].
    split; [intros E; by apply (potentialMoves_not_origin piece from to)|].
    split; [done|]. split; [|done].
    intros d Hd. rewrite Hd in Hown. unfold colorIs in Hown.
    by apply bool_decide_eq_false in Hown.
Qed.

Lemma yields_castle board color gs king_ toCol :
  wf_board board -> at_ board (kingPosOf gs color) = Some king_ -> p_type king_ = king ->
  yields (offered_ok board color gs) board (castle king_ (kingPosOf gs color) toCol).
Proof.
  intros Hwf Hking Hty cache. unfold castle.
  destruct (CastlingHandler.canCastle _ _ _ _ _ _) as [[m|] c1] eqn:Hcan; [|constructor].
  cbn [fst]. constructor; [|constructor].
  apply canCastle_Some in Hcan as (side & Hsetup & _ & ->).
  pose proof (at_valid _ _ _ Hwf Hking) as Hv.
  apply isValidCoord_range in Hv as Hrange.
  pose proof Hsetup as (Hmoved & Hrow & Hside & Hcol & Hrook & Hpath).
  cbn [row col] in Hrow, Hside, Hcol.
  assert (Hempty : at_ board (mkCoord (row (kingPosOf gs color)) toCol) = None).
  { unfold at_. cbn [row col]. apply Hpath. rewrite Hcol. destruct side; cbn; tauto. }
  unfold offered_ok. cbn [m_from m_to m_piece m_captured m_isCastling m_isEnPassant
                          m_promotion].
  split; [done|].
  split; [apply isValidCoord_range; cbn [row col]; destruct side; cbn [isKingside] in *; lia|].
  split; [intros E; rewrite <- E in Hempty; congruence|].
  split; [done|]. split; [intros d Hd; congruence|].
  split; [done|]. split; [done|]. split; [done|]. done.
Qed.

Lemma yields_enPassantFrom board color gs last from :
  wf_board board -> lastMove gs = Some last ->
  yields (offered_ok board color gs) board
         (enPassantFrom color (kingPosOf gs color) last from).
Proof.
  intros Hwf Hlast cache. unfold enPassantFrom.
  destruct (at_ board from) as [attacker|] eqn:Hat; [|constructor].
  destruct (negb (typeIs (p_type attacker) pawn) || negb (colorIs (p_color attacker) color))
    eqn:Hkind; [constructor|].
  apply orb_false_iff in Hkind as [Hty Hcol].
  apply negb_false_iff, bool_decide_eq_true in Hty, Hcol.
  destruct (EnPassantHandler.isEnPassantMove _ _ _ _ _) eqn:Hep; [|constructor].
  destruct (probe _ _ _) as [inCheck pass]. destruct inCheck; [constructor|].
  cbn [fst]. constructor; [|constructor].
  pose proof Hep as Hep'. unfold EnPassantHandler.isEnPassantMove in Hep'.
  repeat match type of Hep' with
         | (if ?b then false else _) = true => destruct b eqn:?; [discriminate Hep'|]
         end.
  repeat match goal with
         | H : negb _ = false |- _ => apply negb_false_iff in H
         | H : _ || _ = false |- _ => apply orb_false_iff in H as [? ?]
         | H : _ && _ = true |- _ => apply andb_true_iff in H as [? ?]
         | H : bool_decide _ = true |- _ => apply bool_decide_eq_true in H
         end.
  cbn [row col] in *.
  unfold offered_ok. cbn [m_from m_to m_piece m_captured m_isCastling m_isEnPassant
                          m_promotion].
  split; [by eapply at_valid|]. split; [done|].
  split. { intros E. apply (f_equal row) in E. cbn [row] in E. destruct (colorIs _ _); lia. }
  split; [done|].
  split; [intros d Hd; congruence|].
  rewrite Hlast. by repeat split.
Qed.

Lemma yields_generateSpecialMoves board color gs :
  wf_board board ->
  yields (offered_ok board color gs) board (_generateSpecialMoves color gs).
Proof.
  intros Hwf cache. unfold _generateSpecialMoves. cbv beta iota zeta.
  revert cache. refine (yields_append _ board _ _ _ _ _).
  - destruct (at_ board (kingPosOf gs color)) as [king_|]; [|apply keepsBoard_ret].
    destruct (typeIs _ _); [|apply keepsBoard_ret].
    apply keepsBoard_bind; [apply keepsBoard_castle|]. intros ks.
    apply keepsBoard_bind; [apply keepsBoard_castle|]. intros qs. apply keepsBoard_ret.
  - destruct (at_ board (kingPosOf gs color)) as [king_|] eqn:Hking; [|apply yields_ret_nil].
    unfold typeIs. case_bool_decide as Hty; [|apply yields_ret_nil].
    apply yields_append; [apply keepsBoard_castle|by apply yields_castle|].
    by apply yields_castle.
  - destruct (GameStateOps.getLastMove gs) as [last|] eqn:Hlast; [|apply yields_ret_nil].
    destruct (_ && _); [|apply yields_ret_nil].
    apply yields_forEachPush; intros from _;
      [apply keepsBoard_enPassantFrom|by apply yields_enPassantFrom].
Qed.

Lemma yields_generationPass board color gs :
  wf_board board -> yields (offered_ok board color gs) board (generationPass color gs).
Proof.
  intros Hwf. unfold generationPass.
  apply yields_append; [| |by apply yields_generateSpecialMoves].
  - apply keepsBoard_forEachPush. intros r Hr.
    apply keepsBoard_forEachPush. intros c Hc cache.
    destruct (idx board r c) as [piece|] eqn:Hpiece; [|done].
    destruct (colorIs _ _); cbn [negb]; [|done].
    by apply keepsBoard_generateMovesForPiece; [|apply range8_valid|].
  - apply yields_forEachPush.
    + intros r Hr. apply keepsBoard_forEachPush. intros c Hc cache.
      destruct (idx board r c) as [piece|] eqn:Hpiece; [|done].
      destruct (colorIs _ _); cbn [negb]; [|done].
      by apply keepsBoard_generateMovesForPiece; [|apply range8_valid|].
    + intros r Hr. apply yields_forEachPush.
      * intros c Hc cache.
        destruct (idx board r c) as [piece|] eqn:Hpiece; [|done].
        destruct (colorIs _ _); cbn [negb]; [|done].
        by apply keepsBoard_generateMovesForPiece; [|apply range8_valid|].
      * intros c Hc cache.
        destruct (idx board r c) as [piece|] eqn:Hpiece; [|constructor].
        unfold colorIs. case_bool_decide as Hcol; cbn [negb]; [|constructor].
        by apply yields_generateMovesForPiece; [|apply range8_valid|..].
Qed.

End Offers.

(** X21. Every move that [generateAllLegalMoves] offers on an 8x8 board
    goes between two different squares of the board, records as [piece]
    the piece standing on the origin, and does not end on a piece of the
    mover's colour.  A move without a castling mark is made by a piece of
    the colour asked for; unless marked as en passant it passes
    [isValidMove] of that piece, records the content of the destination as
    captured, and carries the promotion to a queen exactly when a pawn
    reaches its last rank; marked as en passant it is a pawn move accepted
    by [isEnPassantMove] for the last move and records the piece snapshot
    of the last move as captured.  A castling move starts on the king
    square that the game state holds for the colour, is made by a king
    standing there, and meets the conditions of [canCastle] on king, rook
    and the squares between. *)
Theorem generated_moves_sound (board : BoardState) (color : PieceColor) (gs : GameState)
    (m : Move) :
  wf_board board -> In m (Game.generateAllLegalMoves board color gs) ->
  offered_ok board color gs m.
Proof.
  intros Hwf Hin. unfold Game.generateAllLegalMoves in Hin.
  pose proof (yields_generationPass board color gs Hwf ∅) as Hall.
  rewrite Forall_forall in Hall. apply Hall. by apply list_elem_of_In.
Qed.

Lemma generated_moves_sound_witness :
  wf_board BoardUtils.createInitialBoard /\
  In Play.pawnE4 (Game.generateAllLegalMoves BoardUtils.createInitialBoard white newGameState) /\
  offered_ok BoardUtils.createInitialBoard white newGameState Play.pawnE4.
Proof.
  assert (H : In Play.pawnE4
                 (Game.generateAllLegalMoves BoardUtils.createInitialBoard white newGameState))
    by (apply existsb_In; vm_compute; reflexivity).
  split; [exact wf_board_initial|]. split; [exact H|].
  exact (generated_moves_sound BoardUtils.createInitialBoard white newGameState Play.pawnE4
                               wf_board_initial H).
Defined.

(** ** What holds in every state of a session *)

Section SessionInvariants.
Import ChessGameController.

(** A property of the initial state that selections, listed moves, the
    choice of a promotion piece, undo and redo preserve holds in every
    state of a session. *)
Lemma session_invariant (I : Controller -> Prop) :
  I initGame ->
  (forall ctl sq, I ctl -> I (withSelected sq ctl)) ->
  (forall ctl move, I ctl -> In move (allLegalMovesForCurrentTurn (gameState ctl)) ->
                    I (executeMove move ctl)) ->
  (forall ctl t, I ctl -> I (onPromotionPieceSelected t ctl)) ->
  (forall ctl, I ctl -> I (undo ctl)) ->
  (forall ctl, I ctl -> I (redo ctl)) ->
  forall ctl, session ctl -> I ctl.
Proof.
  intros Hinit Hsel Hmove Hprom Hundo Hredo ctl Hs.
  induction Hs as [|r c ctl _ IH|t ctl _ IH|ctl _ IH|ctl _ IH]; auto.
  unfold handleSquareClick.
  destruct (selectedSquare ctl) as [selected|].
  - destruct (sameSquare _ _); [by apply Hsel|].
    destruct (findMove _ _ _) as [move|] eqn:Hfind.
    + apply Hmove; [by apply Hsel|]. unfold findMove in Hfind.
      by apply find_some in Hfind as [Hin _].
    + destruct (ownPieceAt _ _); by apply Hsel.
  - destruct (ownPieceAt _ _); [|done]. destruct (existsb _ _); [by apply Hsel|done].
Qed.

Lemma wf_makeMove board m : wf_board board -> wf_board (MoveExecutor._makeMove board m).
Proof.
  intros Hwf. unfold MoveExecutor._makeMove.
  assert (wf_board (match m_isCastling m with
                    | Some _ => board
                    | None => if m_isEnPassant m then board
                              else MoveExecutor._makeNormalMove board m
                    end)) as Hw.
  { destruct (m_isCastling m); [done|]. destruct (m_isEnPassant m); [done|].
    unfold MoveExecutor._makeNormalMove. destruct (at_ board (m_from m)); [|done].
    by repeat apply wf_put. }
  destruct (m_isCastling m); [by destruct (m_promotion m)|].
  destruct (m_isEnPassant m); by destruct (m_promotion m).
Qed.

Lemma wf_executeMove board m : wf_board board -> wf_board (MoveExecutor.executeMove board m).
Proof. intros Hwf. unfold MoveExecutor.executeMove. rewrite cloneBoard_same. by apply wf_makeMove. Qed.

Lemma wf_executePromotion board pos t :
  wf_board board -> wf_board (PromotionHandler.executePromotion board pos t).
Proof.
  intros Hwf. unfold PromotionHandler.executePromotion. rewrite cloneBoard_same.
  destruct (at_ board pos) as [p|]; [|done]. destruct (typeIs _ _); [|done]. by apply wf_put.
Qed.

Lemma saveSnapshot_Forall (P : GameSnapshot -> Prop) gs board :
  Forall P (gameSnapshots gs) -> P (GameStateOps.takeSnapshot gs board) ->
  Forall P (gameSnapshots (GameStateOps.saveSnapshot gs board)).
Proof.
  intros Hall Hnew. unfold GameStateOps.saveSnapshot.
  destruct (currentSnapshotIndex gs <? _).
  - cbn. apply Forall_app. split; [|by constructor].
    unfold GameStateOps.slice0. destruct (_ <? 0); by apply Forall_take.
  - cbn. apply Forall_app. split; [done|by constructor].
Qed.

Lemma generated_to_valid board color gs :
  wf_board board ->
  Forall (fun m => isValidCoord (m_to m) = true) (Game.generateAllLegalMoves board color gs).
Proof.
  intros Hwf. unfold Game.generateAllLegalMoves.
  pose proof (yields_generationPass board color gs Hwf ∅) as Hall.
  eapply Forall_impl; [exact Hall|]. by intros m (_ & Hto & _).
Qed.

Lemma kingPosOf_valid gs c :
  isValidCoord (whiteKingPos gs) = true -> isValidCoord (blackKingPos gs) = true ->
  isValidCoord (kingPosOf gs c) = true.
Proof. intros Hw Hb. unfold kingPosOf. by destruct (colorIs c white). Qed.

Lemma on_board_updateLegalMoves ctl :
  wf_board (currentBoard ctl) ->
  isValidCoord (whiteKingPos (gameState ctl)) = true ->
  isValidCoord (blackKingPos (gameState ctl)) = true ->
  Forall snapshot_on_board (gameSnapshots (gameState ctl)) ->
  (forall m, promotionMove ctl = Some m -> isValidCoord (m_to m) = true) ->
  attackCache_reachable (attackCache ctl) ->
  on_board (updateLegalMoves ctl).
Proof.
  intros Hwf Hw Hb Hsnaps Hprom Hcache. unfold on_board, updateLegalMoves. cbn.
  conjuncts; try done. apply generated_to_valid. by rewrite cloneBoard_same.
Qed.

Lemma on_board_checkGameEnd ctl : on_board ctl -> on_board (checkGameEnd ctl).
Proof.
  intros (Hwf & Hw & Hb & Hsnaps & Hmoves & Hprom & Hcache).
  unfold checkGameEnd, GameEndDetection.isInCheck.
  pose proof (cache_query (attackCache ctl) (currentBoard ctl)
                (kingPosOf (gameState ctl) (currentTurn (gameState ctl)))
                (opponent (currentTurn (gameState ctl))) (gameState ctl) Hcache Hwf
                (kingPosOf_valid _ _ Hw Hb)) as Hq.
  destruct (Game.isSquareAttacked _ _ _ _ _) as [check cache]. cbn [snd] in Hq.
  unfold on_board. cbn. by conjuncts.
Qed.

Lemma on_board_finaliseMove move ctl :
  on_board ctl -> isValidCoord (m_to move) = true -> on_board (finaliseMove move ctl).
Proof.
  intros (Hwf & Hw & Hb & Hsnaps & Hmoves & Hprom & Hcache) Hto.
  unfold finaliseMove. apply on_board_checkGameEnd.
  apply on_board_updateLegalMoves; cbn; try done.
  - unfold GameStateOps.updateStateAfterMove, GameStateOps.addMove. cbn.
    destruct (typeIs (p_type (m_piece move)) king); [|done].
    by destruct (colorIs _ _).
  - unfold GameStateOps.updateStateAfterMove, GameStateOps.addMove. cbn.
    destruct (typeIs (p_type (m_piece move)) king); [|done].
    by destruct (colorIs _ _).
  - unfold GameStateOps.updateStateAfterMove, GameStateOps.addMove. cbn.
    destruct (typeIs (p_type (m_piece move)) king); [|done].
    by destruct (colorIs _ _).
Qed.

Lemma on_board_executeMove move ctl :
  on_board ctl -> isValidCoord (m_to move) = true -> on_board (executeMove move ctl).
Proof.
  intros (Hwf & Hw & Hb & Hsnaps & Hmoves & Hprom & Hcache) Hto.
  unfold executeMove.
  set (ctl1 := withBoard _ (withState _ ctl)).
  assert (H1 : on_board ctl1).
  { unfold on_board, ctl1. cbn.
    split; [by apply wf_executeMove|].
    assert (Hs : Forall snapshot_on_board
                   (gameSnapshots (GameStateOps.saveSnapshot (gameState ctl) (currentBoard ctl)))).
    { apply saveSnapshot_Forall; [done|]. unfold snapshot_on_board. cbn.
      by rewrite cloneBoard_same. }
    unfold GameStateOps.saveSnapshot in *. destruct (_ <? _); cbn in *; by conjuncts. }
  clearbody ctl1.
  set (ctl2 := if typeIs (p_type (m_piece move)) king then _ else ctl1).
  assert (H2 : on_board ctl2).
  { subst ctl2. destruct H1 as (? & ? & ? & ? & ? & ? & ?).
    destruct (typeIs _ _); [|done]. destruct (colorIs _ _); unfold on_board; cbn; done. }
  clearbody ctl2.
  destruct (PromotionHandler.needsPromotion _ _).
  - destruct H2 as (? & ? & ? & ? & ? & ? & ?). unfold on_board. cbn.
    conjuncts; try done. by intros m [= <-].
  - by apply on_board_finaliseMove.
Qed.

Lemma on_board_restore gs snap ctl :
  on_board ctl -> snapshot_on_board snap ->
  gameSnapshots gs = gameSnapshots (gameState ctl) ->
  on_board (restoreSnapshot snap
              (withState (GameStateOps.restoreFromSnapshot gs snap) ctl)).
Proof.
  intros (Hwf & Hw & Hb & Hsnaps & Hmoves & Hprom & Hcache) (Hsw & Hsk & Hsb) Hstack.
  unfold restoreSnapshot. apply on_board_updateLegalMoves; cbn; try done.
  - by rewrite cloneBoard_same.
  - by rewrite Hstack.
Qed.

Lemma on_board_session ctl : session ctl -> on_board ctl.
Proof.
  revert ctl. apply session_invariant.
  - unfold initGame. cbv zeta.
    apply on_board_updateLegalMoves; cbn [currentBoard gameState attackCache promotionMove].
    + exact wf_board_initial.
    + unfold GameStateOps.saveSnapshot. by destruct (_ <? _).
    + unfold GameStateOps.saveSnapshot. by destruct (_ <? _).
    + apply saveSnapshot_Forall; [constructor|].
      unfold snapshot_on_board.
      cbn [s_board s_whiteKingPos s_blackKingPos GameStateOps.takeSnapshot].
      rewrite cloneBoard_same. split; [exact wf_board_initial|done].
    + done.
    + constructor.
  - intros ctl sq H. exact H.
  - intros ctl move H Hin. apply on_board_executeMove; [done|].
    destruct H as (_ & _ & _ & _ & Hmoves & _). rewrite Forall_forall in Hmoves.
    by apply Hmoves, list_elem_of_In.
  - intros ctl t H. unfold onPromotionPieceSelected.
    destruct (promotionMove ctl) as [pending|] eqn:Hp; [|done].
    destruct H as (Hwf & Hw & Hb & Hsnaps & Hmoves & Hprom & Hcache).
    apply on_board_finaliseMove; [|by apply (Hprom pending)].
    unfold on_board. cbn. conjuncts; try done. by apply wf_executePromotion.
  - intros ctl H. unfold undo, GameStateOps.undo.
    destruct (currentSnapshotIndex (gameState ctl) <=? 0); [by destruct ctl|].
    unfold GameStateOps.snapshotAt. cbn.
    destruct (0 <=? _); [|by destruct ctl].
    destruct (gameSnapshots (gameState ctl) !! _) as [snap|] eqn:Hsnap; [|by destruct ctl].
    apply on_board_restore; [done| |done].
    destruct H as (_ & _ & _ & Hsnaps & _). rewrite Forall_forall in Hsnaps.
    by eapply Hsnaps, list_elem_of_lookup_2.
  - intros ctl H. unfold redo, GameStateOps.redo.
    destruct (_ <=? currentSnapshotIndex (gameState ctl)); [by destruct ctl|].
    unfold GameStateOps.snapshotAt. cbn.
    destruct (0 <=? _); [|by destruct ctl].
    destruct (gameSnapshots (gameState ctl) !! _) as [snap|] eqn:Hsnap; [|by destruct ctl].
    apply on_board_restore; [done| |done].
    destruct H as (_ & _ & _ & Hsnaps & _). rewrite Forall_forall in Hsnaps.
    by eapply Hsnaps, list_elem_of_lookup_2.
Qed.

End SessionInvariants.

Section Fields.
Import ChessGameController.

Lemma checkGameEnd_fields ctl :
  let ctl' := checkGameEnd ctl in
  let gs := gameState ctl in
  let gs' := gameState ctl' in
  let noMoves := negb (bool_decide (allLegalMovesForCurrentTurn gs <> [])) in
  currentBoard ctl' = currentBoard ctl /\
  currentTurn gs' = currentTurn gs /\ moveHistory gs' = moveHistory gs /\
  lastMove gs' = lastMove gs /\ halfMoveClock gs' = halfMoveClock gs /\
  positionHistory gs' = positionHistory gs /\
  whiteKingPos gs' = whiteKingPos gs /\ blackKingPos gs' = blackKingPos gs /\
  allLegalMovesForCurrentTurn gs' = allLegalMovesForCurrentTurn gs /\
  isCheck gs' = fst (GameEndDetection.isInCheck (currentBoard ctl) (currentTurn gs) gs
                       (attackCache ctl)) /\
  isCheckmate gs' = isCheck gs' && noMoves /\
  isStalemate gs' = negb (isCheck gs') && noMoves /\
  (isStalemate gs' = true -> isDraw gs' = true).
Proof.
  cbv zeta. unfold checkGameEnd.
  destruct (GameEndDetection.isInCheck _ _ _ _) as [check cache].
  cbn [fst gameState currentBoard withCache withState
       currentTurn moveHistory lastMove halfMoveClock positionHistory whiteKingPos blackKingPos
       allLegalMovesForCurrentTurn isCheck isCheckmate isStalemate isDraw
       set_isCheck set_isCheckmate set_isStalemate set_isDraw].
  conjuncts; try done. by intros ->.
Qed.

Lemma finaliseMove_fields move ctl :
  let gs := gameState ctl in
  let gs' := gameState (finaliseMove move ctl) in
  currentTurn gs' = opponent (currentTurn gs) /\
  moveHistory gs' = moveHistory gs ++ [move] /\
  lastMove gs' = Some move /\
  halfMoveClock gs' =
    (if typeIs (p_type (m_piece move)) pawn || bool_decide (m_captured move <> None)
     then 0 else halfMoveClock gs + 1) /\
  (isCheckmate gs' = true -> isCheck gs' = true) /\
  (isStalemate gs' = true -> isCheck gs' = false /\ isDraw gs' = true).
Proof.
  cbv zeta. unfold finaliseMove.
  match goal with |- context [checkGameEnd ?c] =>
    pose proof (checkGameEnd_fields c) as H; cbv zeta in H;
    destruct H as (_ & Ht & Hh & Hl & Hc & _ & _ & _ & _ & _ & Hmate & Hstale & Hdraw)
  end.
  rewrite Ht, Hh, Hl, Hc.
  split; [|split; [|split; [|split; [|split]]]].
  - unfold updateLegalMoves, GameStateOps.updateStateAfterMove, GameStateOps.addMove.
    cbn [gameState withState currentTurn set_allLegalMovesForCurrentTurn set_positionHistory
         set_halfMoveClock].
    destruct (typeIs (p_type (m_piece move)) king); [|done]. by destruct (colorIs _ _).
  - unfold updateLegalMoves, GameStateOps.updateStateAfterMove, GameStateOps.addMove.
    cbn [gameState withState moveHistory set_allLegalMovesForCurrentTurn set_positionHistory
         set_halfMoveClock].
    destruct (typeIs (p_type (m_piece move)) king); [|done]. by destruct (colorIs _ _).
  - unfold updateLegalMoves, GameStateOps.updateStateAfterMove, GameStateOps.addMove.
    cbn [gameState withState lastMove set_allLegalMovesForCurrentTurn set_positionHistory
         set_halfMoveClock].
    destruct (typeIs (p_type (m_piece move)) king); [|done]. by destruct (colorIs _ _).
  - unfold updateLegalMoves, GameStateOps.updateStateAfterMove, GameStateOps.addMove.
    cbn [gameState withState halfMoveClock set_allLegalMovesForCurrentTurn set_positionHistory
         set_halfMoveClock].
    destruct (typeIs (p_type (m_piece move)) king); [|done]. by destruct (colorIs _ _).
  - rewrite Hmate. by intros [? _]%andb_true_iff.
  - intros Hs. split; [|by apply Hdraw]. rewrite Hstale in Hs.
    apply andb_true_iff in Hs as [Hs _]. by apply negb_true_iff in Hs.
Qed.

Lemma fields_fit_finaliseMove move ctl :
  fields_fit (rulesState (gameState ctl)) ->
  fields_fit (rulesState (gameState (finaliseMove move ctl))).
Proof.
  unfold fields_fit, rulesState. intros (Hlast & Hturn & Hclock & _ & _).
  pose proof (finaliseMove_fields move ctl) as H. cbv zeta in H.
  destruct H as (Ht & Hh & Hl & Hc & Hmate & Hstale).
  rewrite Ht, Hh, Hl, Hc. rewrite last_snoc, length_app. cbn [length].
  split; [done|]. split.
  { rewrite Hturn. replace (length (moveHistory (gameState ctl)) + 1)%nat
      with (S (length (moveHistory (gameState ctl)))) by lia.
    rewrite Nat.even_succ, <- Nat.negb_even.
    by destruct (Nat.even (length (moveHistory (gameState ctl)))). }
  split; [destruct (_ || _); lia|]. by split.
Qed.

End Fields.

Section FieldsInSessions.
Import ChessGameController.

Lemma fields_fit_kings gs gs' :
  currentTurn gs' = currentTurn gs -> moveHistory gs' = moveHistory gs ->
  lastMove gs' = lastMove gs -> halfMoveClock gs' = halfMoveClock gs ->
  isCheck gs' = isCheck gs -> isCheckmate gs' = isCheckmate gs ->
  isStalemate gs' = isStalemate gs -> isDraw gs' = isDraw gs ->
  fields_fit (rulesState gs) -> fields_fit (rulesState gs').
Proof. unfold fields_fit, rulesState. by intros -> -> -> -> -> -> -> ->. Qed.

Lemma fit_finaliseMove move ctl : fit ctl -> fit (finaliseMove move ctl).
Proof.
  intros [Hfit Hsnaps]. split; [by apply fields_fit_finaliseMove|].
  by destruct (finaliseMove_stack move ctl) as [-> _].
Qed.

Lemma fit_executeMove move ctl : fit ctl -> fit (executeMove move ctl).
Proof.
  intros [Hfit Hsnaps]. unfold executeMove.
  set (ctl1 := withBoard _ (withState _ ctl)).
  assert (H1 : fit ctl1).
  { unfold fit, ctl1. cbn [gameState withBoard withState]. split.
    - eapply fields_fit_kings; [..|exact Hfit];
        unfold GameStateOps.saveSnapshot; by destruct (_ <? _).
    - by apply saveSnapshot_Forall. }
  clearbody ctl1.
  set (ctl2 := if typeIs (p_type (m_piece move)) king then _ else ctl1).
  assert (H2 : fit ctl2).
  { subst ctl2. destruct (typeIs _ _); [|done]. by destruct (colorIs _ _). }
  clearbody ctl2.
  destruct (PromotionHandler.needsPromotion _ _); [done|]. by apply fit_finaliseMove.
Qed.

Lemma fit_restore gs snap ctl :
  fields_fit (snapshotState snap) ->
  Forall (fun snap => fields_fit (snapshotState snap)) (gameSnapshots gs) ->
  fit (restoreSnapshot snap (withState (GameStateOps.restoreFromSnapshot gs snap) ctl)).
Proof. intros Hsnap Hall. by split. Qed.

Lemma fit_session ctl : session ctl -> fit ctl.
Proof.
  revert ctl. apply session_invariant.
  - unfold initGame. cbv zeta. unfold fit, updateLegalMoves.
    cbn [gameState withState].
    split.
    + unfold GameStateOps.saveSnapshot, rulesState, fields_fit.
      destruct (_ <? _); cbn; (split; [done|]); (split; [done|]); (split; [lia|]); done.
    + change (Forall (fun snap => fields_fit (snapshotState snap))
                (gameSnapshots
                   (GameStateOps.saveSnapshot
                      (set_positionHistory
                         (<[FenGenerator.getPositionKey BoardUtils.createInitialBoard
                              newGameState := 1]> (positionHistory newGameState)) newGameState)
                      BoardUtils.createInitialBoard))).
      apply saveSnapshot_Forall; [constructor|].
      unfold snapshotState, fields_fit. cbn.
      (split; [done|]); (split; [done|]); (split; [lia|]); done.
  - intros ctl sq H. exact H.
  - intros ctl move H _. by apply fit_executeMove.
  - intros ctl t H. unfold onPromotionPieceSelected.
    destruct (promotionMove ctl) as [pending|]; [|done].
    by apply fit_finaliseMove.
  - intros ctl [Hfit Hsnaps]. unfold undo, GameStateOps.undo.
    destruct (currentSnapshotIndex (gameState ctl) <=? 0); [by destruct ctl|].
    unfold GameStateOps.snapshotAt.
    cbn [currentSnapshotIndex set_currentSnapshotIndex gameSnapshots].
    destruct (0 <=? _); [|by destruct ctl].
    destruct (gameSnapshots (gameState ctl) !! _) as [snap|] eqn:Hsnap; [|by destruct ctl].
    apply fit_restore; [|done].
    rewrite Forall_forall in Hsnaps. by eapply Hsnaps, list_elem_of_lookup_2.
  - intros ctl [Hfit Hsnaps]. unfold redo, GameStateOps.redo.
    destruct (_ <=? currentSnapshotIndex (gameState ctl)); [by destruct ctl|].
    unfold GameStateOps.snapshotAt.
    cbn [currentSnapshotIndex set_currentSnapshotIndex gameSnapshots].
    destruct (0 <=? _); [|by destruct ctl].
    destruct (gameSnapshots (gameState ctl) !! _) as [snap|] eqn:Hsnap; [|by destruct ctl].
    apply fit_restore; [|done].
    rewrite Forall_forall in Hsnaps. by eapply Hsnaps, list_elem_of_lookup_2.
Qed.

End FieldsInSessions.

Section Derived.
Import ChessGameController Game.

Lemma forEachPush_ext {S A B} (xs : list A) (f g : A -> State S (list B)) :
  (forall x s, In x xs -> f x s = g x s) ->
  forall s, forEachPush xs f s = forEachPush xs g s.
Proof.
  induction xs as [|x xs IH]; intros Hfg s; cbn [forEachPush]; [done|].
  unfold bind. rewrite Hfg by (by left). destruct (g x s) as [ys s1].
  rewrite IH; [done|]. intros y s' Hy. apply Hfg. by right.
Qed.

(** Of the game state, a generation pass reads the two king squares and
    the last move. *)
Lemma generationPass_reads color gs1 gs2 :
  whiteKingPos gs1 = whiteKingPos gs2 -> blackKingPos gs1 = blackKingPos gs2 ->
  lastMove gs1 = lastMove gs2 ->
  forall s, generationPass color gs1 s = generationPass color gs2 s.
Proof.
  intros Hw Hb Hl s.
  assert (Hk : forall c, kingPosOf gs1 c = kingPosOf gs2 c).
  { intros c. unfold kingPosOf. by rewrite Hw, Hb. }
  unfold generationPass, bind.
  assert (Hpieces : forall s,
    forEachPush range8 (fun r => forEachPush range8 (fun c => fun '(board, moveGenCache) =>
      match idx board r c with
      | None => ([], (board, moveGenCache))
      | Some piece =>
          if negb (colorIs (p_color piece) color) then ([], (board, moveGenCache))
          else _generateMovesForPiece piece (mkCoord r c) gs1 (board, moveGenCache)
      end)) s
    = forEachPush range8 (fun r => forEachPush range8 (fun c => fun '(board, moveGenCache) =>
      match idx board r c with
      | None => ([], (board, moveGenCache))
      | Some piece =>
          if negb (colorIs (p_color piece) color) then ([], (board, moveGenCache))
          else _generateMovesForPiece piece (mkCoord r c) gs2 (board, moveGenCache)
      end)) s).
  { apply forEachPush_ext. intros r s1 _. apply forEachPush_ext. intros c [board cache] _.
    destruct (idx board r c) as [piece|]; [|done]. destruct (negb _); [done|].
    unfold _generateMovesForPiece. apply forEachPush_ext. intros to [b1 c1] _.
    destruct (negb _); [done|]. unfold _validateMoveLite. by rewrite Hk. }
  rewrite Hpieces.
  match goal with |- context [forEachPush range8 ?f s] =>
    destruct (forEachPush range8 f s) as [pieceMoves [board cache]] end.
  unfold _generateSpecialMoves. unfold GameStateOps.getLastMove. by rewrite Hk, Hl.
Qed.

Lemma generateAllLegalMoves_reads board color gs1 gs2 :
  whiteKingPos gs1 = whiteKingPos gs2 -> blackKingPos gs1 = blackKingPos gs2 ->
  lastMove gs1 = lastMove gs2 ->
  generateAllLegalMoves board color gs1 = generateAllLegalMoves board color gs2.
Proof.
  intros Hw Hb Hl. unfold generateAllLegalMoves. by rewrite (generationPass_reads color gs1 gs2).
Qed.

Lemma isDrawByRule_reads board gs1 gs2 :
  currentTurn gs1 = currentTurn gs2 -> lastMove gs1 = lastMove gs2 ->
  halfMoveClock gs1 = halfMoveClock gs2 -> positionHistory gs1 = positionHistory gs2 ->
  GameEndDetection.isDrawByRule board gs1 = GameEndDetection.isDrawByRule board gs2.
Proof.
  intros Ht Hl Hc Hp. unfold GameEndDetection.isDrawByRule, FenGenerator.getPositionKey,
    FenGenerator.getEnPassantFen. by rewrite Ht, Hl, Hc, Hp.
Qed.

Lemma finaliseMove_derived move ctl :
  on_board ctl -> isValidCoord (m_to move) = true ->
  let ctl' := finaliseMove move ctl in
  let gs' := gameState ctl' in
  currentBoard ctl' = currentBoard ctl /\
  allLegalMovesForCurrentTurn gs'
  = generateAllLegalMoves (currentBoard ctl') (currentTurn gs') gs' /\
  isCheck gs'
  = _calculateIsSquareAttacked (currentBoard ctl') (kingPosOf gs' (currentTurn gs'))
                               (opponent (currentTurn gs')) /\
  (isCheckmate gs' = true <->
   isCheck gs' = true /\ allLegalMovesForCurrentTurn gs' = []) /\
  (isStalemate gs' = true <->
   isCheck gs' = false /\ allLegalMovesForCurrentTurn gs' = []) /\
  isDraw gs' = isStalemate gs' || GameEndDetection.isDrawByRule (currentBoard ctl') gs'.
Proof.
  intros Hon Hto. cbv zeta. unfold finaliseMove.
  set (ctl1 := withState (GameStateOps.updateStateAfterMove _ move _) _).
  assert (H1 : on_board (updateLegalMoves ctl1)).
  { destruct Hon as (Hwf & Hw & Hb & Hsnaps & Hmoves & Hprom & Hcache).
    apply on_board_updateLegalMoves; subst ctl1; cbn [currentBoard gameState withState
      promotionMove attackCache]; try done;
      unfold GameStateOps.updateStateAfterMove, GameStateOps.addMove;
      cbn [whiteKingPos blackKingPos gameSnapshots set_positionHistory set_halfMoveClock];
      destruct (typeIs (p_type (m_piece move)) king); try done; by destruct (colorIs _ _). }
  assert (Hlegal : allLegalMovesForCurrentTurn (gameState (updateLegalMoves ctl1))
                   = generateAllLegalMoves (currentBoard ctl1) (currentTurn (gameState ctl1))
                                           (gameState ctl1)).
  { unfold updateLegalMoves. cbn [gameState withState allLegalMovesForCurrentTurn
                                  set_allLegalMovesForCurrentTurn].
    by rewrite cloneBoard_same. }
  assert (Hsame : currentBoard (updateLegalMoves ctl1) = currentBoard ctl /\
                  currentTurn (gameState (updateLegalMoves ctl1)) = currentTurn (gameState ctl1) /\
                  whiteKingPos (gameState (updateLegalMoves ctl1)) = whiteKingPos (gameState ctl1) /\
                  blackKingPos (gameState (updateLegalMoves ctl1)) = blackKingPos (gameState ctl1) /\
                  lastMove (gameState (updateLegalMoves ctl1)) = lastMove (gameState ctl1))
    by done.
  destruct Hsame as (Hb0 & Ht0 & Hw0 & Hbk0 & Hl0).
  assert (Hb1 : currentBoard ctl1 = currentBoard ctl) by done.
  clearbody ctl1.
  set (ctl2 := updateLegalMoves ctl1) in *. clearbody ctl2.
  pose proof (checkGameEnd_fields ctl2) as H. cbv zeta in H.
  destruct H as (Hb' & Ht' & Hh' & Hl' & Hc' & Hp' & Hw' & Hbk' & Hm' & Hcheck & Hmate & Hstale
                 & _).
  pose proof (checkGameEnd_draw ctl2) as Hdraw. cbv zeta in Hdraw.
  destruct H1 as (Hwf2 & Hw2 & Hbk2 & _ & _ & _ & Hcache2).
  split; [by rewrite Hb'|].
  split.
  { rewrite Hm', Hlegal, Hb', Ht', Hb0, Ht0, Hb1.
    apply generateAllLegalMoves_reads; congruence. }
  split.
  { rewrite Hcheck. unfold GameEndDetection.isInCheck, isSquareAttacked.
    assert (kingPosOf (gameState (checkGameEnd ctl2)) (currentTurn (gameState (checkGameEnd ctl2)))
            = kingPosOf (gameState ctl2) (currentTurn (gameState ctl2))) as ->.
    { unfold kingPosOf. by rewrite Ht', Hw', Hbk'. }
    rewrite Hb', Ht'.
    destruct (attackCache ctl2 !! _) as [hit|] eqn:Hhit; [|done]. cbn [fst].
    eapply (cache_sound_reachable _ Hcache2); [done| |exact Hhit].
    by apply kingPosOf_valid. }
  assert (Hno : forall l : list Move, negb (bool_decide (l <> [])) = true <-> l = []).
  { intros l. rewrite negb_true_iff, bool_decide_eq_false. destruct l; [tauto|].
    split; [intros H; by destruct H|done]. }
  split. { rewrite Hmate, andb_true_iff, Hno, Hm'. tauto. }
  split. { rewrite Hstale, andb_true_iff, negb_true_iff, Hno, Hm'. tauto. }
  rewrite Hdraw. f_equal. unfold GameEndDetection.isDrawByRule, Play.occurrences.
  destruct (100 <=? _); [done|]. destruct (3 <=? _); [done|].
  by destruct (GameEndDetection.isInsufficientMaterial _).
Qed.

End Derived.

(** X22. In every state of a session the board is an 8x8 grid, the two king
    squares held by the game state are squares of the board, every board
    and king square stored in a snapshot is so too, every listed legal move
    and a pending promotion move end on the board, and the persistent
    attack cache has only been filled by queries on 8x8 boards and squares
    of the board. *)
Theorem session_stays_on_board (ctl : Controller) : session ctl -> on_board ctl.
Proof. apply on_board_session. Qed.

Lemma session_stays_on_board_witness :
  session (ChessGameController.clickMove (Play.sq 1 4) (Play.sq 3 4)
             ChessGameController.initGame) /\
  on_board (ChessGameController.clickMove (Play.sq 1 4) (Play.sq 3 4)
              ChessGameController.initGame).
Proof.
  assert (H : session (ChessGameController.clickMove (Play.sq 1 4) (Play.sq 3 4)
                         ChessGameController.initGame)).
  { unfold ChessGameController.clickMove. apply session_click, session_click, session_start. }
  split; [exact H|]. exact (session_stays_on_board _ H).
Defined.

(** X23. When a listed move that needs no promotion is executed in a state
    of a session, the state that results is derived from the new position:
    the list of legal moves is what [generateAllLegalMoves] gives for the
    new board, the side now to move and the new game state; the check flag
    is what the attack computation gives for the king square of the side to
    move, whatever the persistent cache held; mate means check and no
    legal move, stalemate no check and no legal move; and the draw flag is
    stalemate or a draw by rule. *)
Theorem committed_move_derives_state (move : Move) (ctl : Controller) :
  session ctl -> In move (allLegalMovesForCurrentTurn (gameState ctl)) ->
  PromotionHandler.needsPromotion (m_piece move) (m_to move) = false ->
  let ctl' := ChessGameController.executeMove move ctl in
  let gs' := gameState ctl' in
  currentBoard ctl' = MoveExecutor.executeMove (currentBoard ctl) move /\
  allLegalMovesForCurrentTurn gs'
  = Game.generateAllLegalMoves (currentBoard ctl') (currentTurn gs') gs' /\
  isCheck gs'
  = Game._calculateIsSquareAttacked (currentBoard ctl') (kingPosOf gs' (currentTurn gs'))
                                    (opponent (currentTurn gs')) /\
  (isCheckmate gs' = true <->
   isCheck gs' = true /\ allLegalMovesForCurrentTurn gs' = []) /\
  (isStalemate gs' = true <->
   isCheck gs' = false /\ allLegalMovesForCurrentTurn gs' = []) /\
  isDraw gs' = isStalemate gs' || GameEndDetection.isDrawByRule (currentBoard ctl') gs'.
Proof.
  intros Hs Hin Hnp. cbv zeta.
  pose proof (on_board_session ctl Hs) as Hon.
  assert (Hto : isValidCoord (m_to move) = true).
  { destruct Hon as (_ & _ & _ & _ & Hmoves & _). rewrite Forall_forall in Hmoves.
    by apply Hmoves, list_elem_of_In. }
  unfold ChessGameController.executeMove. rewrite Hnp.
  set (ctl1 := ChessGameController.withBoard _ (ChessGameController.withState _ ctl)).
  set (ctl2 := if typeIs (p_type (m_piece move)) king then _ else ctl1).
  assert (H2 : on_board ctl2 /\
               currentBoard ctl2 = MoveExecutor.executeMove (currentBoard ctl) move).
  { pose proof (on_board_executeMove move ctl Hon Hto) as H.
    assert (H1 : on_board ctl1).
    { destruct Hon as (Hwf & Hw & Hb & Hsnaps & Hmoves & Hprom & Hcache).
      unfold on_board, ctl1.
      cbn [currentBoard gameState attackCache promotionMove ChessGameController.withBoard
           ChessGameController.withState].
      split; [by apply wf_executeMove|].
      assert (Hsn : Forall snapshot_on_board
                      (gameSnapshots (GameStateOps.saveSnapshot (gameState ctl)
                                                                (currentBoard ctl)))).
      { apply saveSnapshot_Forall; [done|]. unfold snapshot_on_board.
        cbn [s_board s_whiteKingPos s_blackKingPos GameStateOps.takeSnapshot].
        by rewrite cloneBoard_same. }
      unfold GameStateOps.saveSnapshot in *. destruct (_ <? _); cbn in *; by conjuncts. }
    subst ctl2. destruct (typeIs _ _); [|done].
    destruct H1 as (? & ? & ? & ? & ? & ? & ?).
    destruct (colorIs _ _); (split; [unfold on_board; cbn; by conjuncts|done]). }
  clearbody ctl2. clear ctl1. destruct H2 as [H2 Hb2].
  pose proof (finaliseMove_derived move ctl2 H2 Hto) as H. cbv zeta in H.
  destruct H as (Hb & Hrest). split; [by rewrite Hb|exact Hrest].
Qed.

Lemma committed_move_derives_state_witness :
  session ChessGameController.initGame /\
  In Play.pawnE4 (allLegalMovesForCurrentTurn (gameState ChessGameController.initGame)) /\
  isCheck (gameState (ChessGameController.executeMove Play.pawnE4 ChessGameController.initGame))
  = Game._calculateIsSquareAttacked
      (currentBoard (ChessGameController.executeMove Play.pawnE4 ChessGameController.initGame))
      (kingPosOf
         (gameState (ChessGameController.executeMove Play.pawnE4 ChessGameController.initGame))
         (currentTurn
            (gameState (ChessGameController.executeMove Play.pawnE4
                          ChessGameController.initGame))))
      (opponent
         (currentTurn
            (gameState (ChessGameController.executeMove Play.pawnE4
                          ChessGameController.initGame)))).
Proof.
  assert (Hin : In Play.pawnE4
                   (allLegalMovesForCurrentTurn (gameState ChessGameController.initGame)))
    by (apply existsb_In; vm_compute; reflexivity).
  split; [exact session_start|]. split; [exact Hin|].
  exact (proj1 (proj2 (proj2 (committed_move_derives_state Play.pawnE4
                                ChessGameController.initGame session_start Hin eq_refl)))).
Defined.

(** X24. In every state of a session, and in every snapshot on the stack,
    the stored fields fit together: the last move is the last entry of the
    move history, White is to move exactly after an even number of moves,
    the half-move clock is at least zero and at most the number of moves
    played, the mate flag is only set together with the check flag, and
    the stalemate flag only without the check flag and together with the
    draw flag. *)
Theorem session_fields_fit (ctl : Controller) :
  session ctl ->
  fields_fit (rulesState (gameState ctl)) /\
  Forall (fun snap => fields_fit (snapshotState snap)) (gameSnapshots (gameState ctl)).
Proof. apply fit_session. Qed.

Lemma session_fields_fit_witness :
  session (ChessGameController.undo
             (ChessGameController.clickMove (Play.sq 1 4) (Play.sq 3 4)
                ChessGameController.initGame)) /\
  fields_fit (rulesState (gameState
    (ChessGameController.undo
       (ChessGameController.clickMove (Play.sq 1 4) (Play.sq 3 4)
          ChessGameController.initGame)))).
Proof.
  assert (H : session (ChessGameController.undo
                         (ChessGameController.clickMove (Play.sq 1 4) (Play.sq 3 4)
                            ChessGameController.initGame))).
  { unfold ChessGameController.clickMove.
    apply session_undo, session_click, session_click, session_start. }
  split; [exact H|]. exact (proj1 (session_fields_fit _ H)).
Defined.

(** ** Clicks and the two steps of a promotion *)

(** X25. A click changes the board and the game state only by executing a
    listed move: either both are as before the click (the click selected,
    reselected or deselected a square), or a square was selected and the
    click executed the first listed move from that square to the clicked
    one, with the selection cleared.  A square becomes selected only if it
    holds a piece of the side to move. *)
Theorem click_executes_listed_move (r c : Z) (ctl : Controller) :
  let ctl' := ChessGameController.handleSquareClick r c ctl in
  ((currentBoard ctl' = currentBoard ctl /\ gameState ctl' = gameState ctl /\
    attackCache ctl' = attackCache ctl /\ promotionMove ctl' = promotionMove ctl /\
    (forall sq, selectedSquare ctl' = Some sq -> selectedSquare ctl <> Some sq ->
       sq = mkCoord r c /\ ChessGameController.ownPieceAt ctl sq = true)) \/
   (exists selected move,
      selectedSquare ctl = Some selected /\
      In move (allLegalMovesForCurrentTurn (gameState ctl)) /\
      (row (m_from move) = row selected /\ col (m_from move) = col selected) /\
      (row (m_to move) = r /\ col (m_to move) = c) /\
      ChessGameController.findMove selected (mkCoord r c) ctl = Some move /\
      ctl' = ChessGameController.executeMove move
               (ChessGameController.withSelected None ctl))).
Proof.
  cbv zeta. unfold ChessGameController.handleSquareClick.
  destruct (selectedSquare ctl) as [selected|] eqn:Hsel.
  - destruct (ChessGameController.sameSquare selected (mkCoord r c)) eqn:Hsame.
    { left. by destruct ctl. }
    destruct (ChessGameController.findMove selected (mkCoord r c) ctl) as [move|] eqn:Hfind.
    + right. exists selected, move. split; [done|].
      pose proof Hfind as Hf. unfold ChessGameController.findMove in Hf.
      apply find_some in Hf as [Hin Hmatch].
      apply andb_true_iff in Hmatch as [Hfrom Hto].
      unfold ChessGameController.sameSquare in Hfrom, Hto.
      apply andb_true_iff in Hfrom as [Hf1 Hf2]. apply andb_true_iff in Hto as [Ht1 Ht2].
      apply bool_decide_eq_true in Hf1, Hf2, Ht1, Ht2. cbn [row col] in Ht1, Ht2.
      by conjuncts.
    + left. destruct (ChessGameController.ownPieceAt ctl (mkCoord r c)) eqn:Hown.
      * destruct ctl; cbn in *. conjuncts; try done. by intros sq [= <-] _.
      * by destruct ctl.
  - left. destruct (ChessGameController.ownPieceAt ctl (mkCoord r c)) eqn:Hown.
    + destruct (existsb _ _).
      * destruct ctl; cbn in *. conjuncts; try done. by intros sq [= <-] _.
      * conjuncts; try done. intros sq H. congruence.
    + conjuncts; try done. intros sq H. congruence.
Qed.

(** X26. A promotion takes two steps.  Executing a plain move of a pawn to
    its last rank, on an 8x8 board, puts the pawn on the destination, keeps
    the move pending and leaves turn and move history as they were;
    choosing a piece type then turns the pawn on the destination into a
    piece of that type, records the move with that promotion as the last
    move, gives the turn to the other side and clears the pending move.
    Without a pending move the choice changes nothing. *)
Theorem promotion_in_two_steps (move : Move) (ctl : Controller) (p : Piece)
    (pieceType : PieceType) :
  wf_board (currentBoard ctl) ->
  isValidCoord (m_from move) = true -> isValidCoord (m_to move) = true ->
  m_from move <> m_to move -> at_ (currentBoard ctl) (m_from move) = Some p ->
  p_type p = pawn ->
  m_isCastling move = None -> m_isEnPassant move = false ->
  PromotionHandler.needsPromotion (m_piece move) (m_to move) = true ->
  let pending := ChessGameController.executeMove move ctl in
  let done_ := ChessGameController.onPromotionPieceSelected pieceType pending in
  (promotionMove pending = Some move /\
   at_ (currentBoard pending) (m_to move) = Some (setMoved p true) /\
   moveHistory (gameState pending) = moveHistory (gameState ctl) /\
   currentTurn (gameState pending) = currentTurn (gameState ctl)) /\
  (promotionMove done_ = None /\
   at_ (currentBoard done_) (m_to move) = Some (mkPiece pieceType (p_color p) true) /\
   at_ (currentBoard done_) (m_from move) = None /\
   lastMove (gameState done_) = Some (PromotionHandler.createPromotionMove move pieceType) /\
   moveHistory (gameState done_)
   = moveHistory (gameState ctl) ++ [PromotionHandler.createPromotionMove move pieceType] /\
   currentTurn (gameState done_) = opponent (currentTurn (gameState ctl))) /\
  (promotionMove ctl = None ->
   ChessGameController.onPromotionPieceSelected pieceType ctl = ctl).
Proof.
  intros Hwf Hfrom Hto Hne Hp Hpawn Hc He Hneeds pending done_.
  assert (Hpawnpiece : typeIs (p_type (m_piece move)) king = false).
  { unfold PromotionHandler.needsPromotion, typeIs in *.
    destruct (bool_decide (p_type (m_piece move) = pawn)) eqn:Hty; [|done].
    apply bool_decide_eq_true in Hty. rewrite Hty. by apply bool_decide_eq_false. }
  assert (Hboard : MoveExecutor.executeMove (currentBoard ctl) move
                   = put (put (currentBoard ctl) (m_to move) (Some (setMoved p true)))
                         (m_from move) None).
  { unfold MoveExecutor.executeMove, MoveExecutor._makeMove, MoveExecutor._makeNormalMove.
    rewrite cloneBoard_same, Hc, He, Hp. by destruct (m_promotion move). }
  assert (Hpending : pending =
            ChessGameController.withPromotion (Some move)
              (ChessGameController.withBoard (MoveExecutor.executeMove (currentBoard ctl) move)
                 (ChessGameController.withState
                    (GameStateOps.saveSnapshot (gameState ctl) (currentBoard ctl)) ctl))).
  { subst pending. unfold ChessGameController.executeMove. by rewrite Hneeds, Hpawnpiece. }
  assert (Hat : at_ (currentBoard pending) (m_to move) = Some (setMoved p true)).
  { rewrite Hpending. cbn [currentBoard ChessGameController.withPromotion
                           ChessGameController.withBoard].
    rewrite Hboard, !at_put by (by try apply wf_put).
    rewrite decide_False by done. by rewrite decide_True. }
  split.
  { split; [by rewrite Hpending|]. split; [done|].
    rewrite Hpending. cbn [gameState ChessGameController.withPromotion
                           ChessGameController.withBoard ChessGameController.withState].
    unfold GameStateOps.saveSnapshot. by destruct (_ <? _). }
  split.
  { subst done_. unfold ChessGameController.onPromotionPieceSelected.
    assert (promotionMove pending = Some move) as -> by by rewrite Hpending.
    set (ctl1 := ChessGameController.withPromotion None _).
    pose proof (finaliseMove_fields (PromotionHandler.createPromotionMove move pieceType) ctl1)
      as H. cbv zeta in H. destruct H as (Ht & Hh & Hl & _).
    assert (Hb1 : currentBoard (ChessGameController.finaliseMove
                                  (PromotionHandler.createPromotionMove move pieceType) ctl1)
                  = currentBoard ctl1).
    { unfold ChessGameController.finaliseMove.
      match goal with |- context [ChessGameController.checkGameEnd ?c] =>
        pose proof (checkGameEnd_fields c) as H; cbv zeta in H; destruct H as (-> & _) end.
      done. }
    assert (Hgs1 : moveHistory (gameState ctl1) = moveHistory (gameState ctl) /\
                   currentTurn (gameState ctl1) = currentTurn (gameState ctl)).
    { subst ctl1. rewrite Hpending.
      cbn [gameState ChessGameController.withPromotion ChessGameController.withBoard
           ChessGameController.withState].
      unfold GameStateOps.saveSnapshot. by destruct (_ <? _). }
    destruct Hgs1 as [Hh1 Ht1].
    assert (Hboard1 : currentBoard ctl1
                      = put (currentBoard pending) (m_to move)
                            (Some (setType (setMoved p true) pieceType))).
    { subst ctl1. cbn [currentBoard ChessGameController.withPromotion
                       ChessGameController.withBoard m_to
                       PromotionHandler.createPromotionMove].
      unfold PromotionHandler.executePromotion. rewrite cloneBoard_same, Hat.
      cbn [p_type setMoved]. unfold typeIs. by rewrite Hpawn, bool_decide_eq_true_2. }
    assert (Hwfp : wf_board (currentBoard pending)).
    { rewrite Hpending. cbn [currentBoard ChessGameController.withPromotion
                             ChessGameController.withBoard].
      rewrite Hboard. by repeat apply wf_put. }
    split; [unfold ChessGameController.finaliseMove, ChessGameController.checkGameEnd;
            by destruct (GameEndDetection.isInCheck _ _ _ _)|].
    rewrite Hb1, Hboard1, Ht, Hh, Hl, Hh1, Ht1.
    split; [by rewrite at_put by done; rewrite decide_True|].
    split; [|done].
    rewrite at_put by done. rewrite decide_False by done.
    rewrite Hpending. cbn [currentBoard ChessGameController.withPromotion
                           ChessGameController.withBoard].
    rewrite Hboard, at_put by (by try apply wf_put). by rewrite decide_True. }
  intros Hnone. unfold ChessGameController.onPromotionPieceSelected. by rewrite Hnone.
Qed.

Lemma promotion_in_two_steps_witness :
  wf_board (currentBoard Play.beforePromotion) /\
  PromotionHandler.needsPromotion (m_piece Play.pawnTakesG8) (m_to Play.pawnTakesG8) = true /\
  at_ (currentBoard (ChessGameController.onPromotionPieceSelected rook
         (ChessGameController.executeMove Play.pawnTakesG8 Play.beforePromotion)))
      (Play.sq 7 6)
  = Some (mkPiece rook white true).
Proof.
  assert (Hwf : wf_board (currentBoard Play.beforePromotion))
    by (split; [vm_compute; reflexivity|vm_compute; repeat constructor]).
  split; [exact Hwf|]. split; [reflexivity|].
  refine (proj1 (proj2 (proj1 (proj2
            (promotion_in_two_steps Play.pawnTakesG8 Play.beforePromotion
               (mkPiece pawn white true) rook Hwf eq_refl eq_refl _ _ eq_refl eq_refl eq_refl
               eq_refl))))).
  - intros E. discriminate E.
  - vm_compute. reflexivity.
Defined.

(** ** Material *)

(** X27. A position with a pawn, a rook or a queen on the board is never
    reported as insufficient material, whatever else is on the board; a
    position in which every piece on the board is a king always is. *)
Theorem insufficient_material_bounds (board : BoardState) :
  (forall pos p, isValidCoord pos = true -> at_ board pos = Some p ->
     p_type p = pawn \/ p_type p = rook \/ p_type p = queen ->
     GameEndDetection.isInsufficientMaterial board = false) /\
  ((forall pos p, isValidCoord pos = true -> at_ board pos = Some p -> p_type p = king) ->
   GameEndDetection.isInsufficientMaterial board = true).
Proof.
  split.
  - intros pos p Hpos Hat Hheavy.
    assert (Hin : In (p, pos) (Play.nonKings board white ++ Play.nonKings board black)).
    { apply in_app_iff. unfold Play.nonKings.
      assert (Hnk : p_type (p, pos).1 <> king) by (cbn; destruct Hheavy as [->|[->| ->]]; done).
      destruct (p_color p) eqn:Hc; [left|right];
        apply list_elem_of_In, list_elem_of_filter; (split; [done|]);
        apply list_elem_of_In, getPiecesByColor_In; done. }
    rewrite isInsufficientMaterial_pieces.
    assert (Hnot : Play.isMinor p = false /\ typeIs (p_type p) bishop = false).
    { unfold Play.isMinor, typeIs. destruct Hheavy as [->|[->| ->]]; done. }
    destruct Hnot as [Hminor Hbishop].
    destruct (Play.nonKings board white ++ Play.nonKings board black)
      as [|a [|b [|x rest]]]; cbn [In] in Hin.
    + done.
    + destruct Hin as [->|[]]. done.
    + destruct Hin as [->|[->|[]]]; cbn [fst]; rewrite Hbishop; [done|].
      by rewrite andb_false_r.
    + done.
  - intros Hkings. rewrite isInsufficientMaterial_pieces.
    assert (Hnone : forall c, Play.nonKings board c = []).
    { intros c. unfold Play.nonKings.
      destruct (filter _ _) as [|[p pos] rest] eqn:Hf; [done|].
      assert (Hin : (p, pos) ∈ filter (fun q : Piece * BoardCoord => p_type q.1 <> king)
                                      (BoardUtils.getPiecesByColor board c))
        by (rewrite Hf; left).
      apply list_elem_of_filter in Hin as [Hnk Hin].
      apply list_elem_of_In, getPiecesByColor_In in Hin as (Hv & Hat & _).
      cbn in Hnk. by specialize (Hkings pos p Hv Hat). }
    by rewrite !Hnone.
Qed.

Lemma insufficient_material_bounds_witness :
  isValidCoord (Play.sq 1 4) = true /\
  at_ BoardUtils.createInitialBoard (Play.sq 1 4) = Some (mkPiece pawn white false) /\
  GameEndDetection.isInsufficientMaterial BoardUtils.createInitialBoard = false.
Proof.
  split; [reflexivity|]. split; [reflexivity|].
  exact (proj1 (insufficient_material_bounds BoardUtils.createInitialBoard)
               (Play.sq 1 4) (mkPiece pawn white false) eq_refl eq_refl (or_introl eq_refl)).
Defined.

(** ** The event emitter *)

Section Emitter.
Context {L : Type} `{EqDecision L}.

Lemma emitterAfter_snoc (calls : list (EmitterCall L)) (call : EmitterCall L) :
  emitterAfter (calls ++ [call]) =
  match call with
  | callOn type cb => EventEmitter.on type cb (emitterAfter calls)
  | callOff type cb => EventEmitter.off type cb (emitterAfter calls)
  | callClear => EventEmitter.clear (emitterAfter calls)
  end.
Proof. unfold emitterAfter. by rewrite foldl_app. Qed.

Lemma subscribed_snoc (calls : list (EmitterCall L)) (call : EmitterCall L) type cb :
  subscribed (calls ++ [call]) type cb =
  match call with
  | callOn t c => if bool_decide (t = type /\ c = cb) then true else subscribed calls type cb
  | callOff t c => if bool_decide (t = type /\ c = cb) then false else subscribed calls type cb
  | callClear => false
  end.
Proof. unfold subscribed. by rewrite foldl_app. Qed.

Lemma emitterAfter_listeners (calls : list (EmitterCall L)) (type : string) :
  NoDup (default [] (emitterAfter calls !! type)) /\
  forall cb, cb ∈ default [] (emitterAfter calls !! type) <-> subscribed calls type cb = true.
Proof.
  induction calls as [|call calls IH] using rev_ind.
  - cbn. split; [constructor|]. intros cb. rewrite lookup_empty. cbn. split; [|done].
    by intros ?%elem_of_nil.
  - rewrite emitterAfter_snoc. destruct IH as [IHnd IHin].
    destruct call as [t c|t c|].
    + unfold EventEmitter.on. destruct (decide (t = type)) as [->|Hne].
      * rewrite lookup_insert_eq. cbn [default from_option id].
        case_bool_decide as Hmem.
        -- split; [done|]. intros cb. rewrite subscribed_snoc, IHin.
           case_bool_decide as Heq; [|done]. destruct Heq as [_ ->].
           split; [done|]. intros _. by apply IHin.
        -- split.
           ++ apply NoDup_app. split; [done|]. split; [|apply NoDup_singleton].
              intros x Hx ->%list_elem_of_singleton. done.
           ++ intros cb. rewrite subscribed_snoc, elem_of_app, IHin.
              rewrite list_elem_of_singleton. case_bool_decide as Heq.
              ** destruct Heq as [_ ->]. tauto.
              ** split; [intros [?| ->]; [done|by destruct Heq]|tauto].
      * rewrite lookup_insert_ne by done. split; [done|].
        intros cb. rewrite subscribed_snoc, IHin.
        rewrite bool_decide_eq_false_2; [done|]. by intros [? _].
    + unfold EventEmitter.off. destruct (emitterAfter calls !! t) as [set|] eqn:Hset.
      * destruct (decide (t = type)) as [->|Hne].
        -- rewrite lookup_insert_eq. rewrite Hset in IHnd, IHin. cbn [default from_option id] in *.
           split; [by apply NoDup_filter|].
           intros cb. rewrite subscribed_snoc, list_elem_of_filter, IHin.
           case_bool_decide as Heq.
           ++ destruct Heq as [_ ->]. split; [by intros [? _]|done].
           ++ split; [tauto|]. intros Hs. split; [|done]. intros ->. by destruct Heq.
        -- rewrite lookup_insert_ne by done. split; [done|].
           intros cb. rewrite subscribed_snoc, IHin.
           rewrite bool_decide_eq_false_2; [done|]. by intros [? _].
      * split; [done|]. intros cb. rewrite subscribed_snoc, IHin.
        case_bool_decide as Heq; [|done]. destruct Heq as [-> ->].
        rewrite <- IHin, Hset. cbn. split; [by intros ?%elem_of_nil|done].
    + unfold EventEmitter.clear. rewrite lookup_empty. cbn.
      split; [constructor|]. intros cb. rewrite subscribed_snoc.
      split; [by intros ?%elem_of_nil|done].
Qed.

End Emitter.

(** X28. After any sequence of [on], [off] and [clear] calls on a new
    emitter, [emit] hands out tasks for exactly the listeners subscribed to
    the type of the event: those whose last [on] for that type was followed
    by no [off] for it and no [clear].  Each of them gets one task, however
    often it was subscribed, and every task carries the data of the
    event. *)
Theorem emit_schedules_subscribers {L D : Type} `{EqDecision L}
    (calls : list (EmitterCall L)) (type : string) (data : D) :
  let tasks := EventEmitter.emit type data (emitterAfter calls) in
  NoDup (map fst tasks) /\
  (forall cb, In cb (map fst tasks) <-> subscribed calls type cb = true) /\
  (forall task, In task tasks -> snd task = data).
Proof.
  cbv zeta. unfold EventEmitter.emit.
  destruct (emitterAfter_listeners calls type) as [Hnd Hin].
  destruct (emitterAfter calls !! type) as [set|]; cbn [default from_option id] in *.
  - rewrite map_map. cbn [fst]. rewrite map_id.
    split; [done|]. split.
    + intros cb. by rewrite <- list_elem_of_In, Hin.
    + intros task (cb & <- & _)%in_map_iff. done.
  - cbn. split; [constructor|]. split; [|done].
    intros cb. rewrite <- Hin. split; [done|]. by intros ?%elem_of_nil.
Qed.

(** ** The attack computation *)

(** X29. [_calculateIsSquareAttacked] answers [true] exactly when some
    square of the board holds a piece of the attacking colour that is a
    pawn standing diagonally behind the square asked about, or another
    piece whose move to that square passes [isValidMove].  Hence a pawn
    never attacks the square straight ahead, and a square that holds a
    king, queen, rook or bishop of the attacking colour counts as attacked
    by that piece itself. *)
Theorem attack_computation_exact (board : BoardState) (pos : BoardCoord)
    (color : PieceColor) :
  (Game._calculateIsSquareAttacked board pos color = true <->
   exists from, attacker board color pos from) /\
  (forall piece, isValidCoord pos = true -> at_ board pos = Some piece ->
     p_color piece = color ->
     p_type piece = king \/ p_type piece = queen \/ p_type piece = rook
     \/ p_type piece = bishop ->
     Game._calculateIsSquareAttacked board pos color = true).
Proof.
  assert (Hexact : Game._calculateIsSquareAttacked board pos color = true <->
                   exists from, attacker board color pos from).
  { unfold Game._calculateIsSquareAttacked, attacker. rewrite existsb_exists. split.
    - intros (r & Hr & Hrow). apply existsb_exists in Hrow as (c & Hc & Hcell).
      apply range8_In in Hr, Hc. exists (mkCoord r c).
      split; [apply isValidCoord_range; cbn; lia|].
      unfold at_. cbn [row col].
      destruct (idx board r c) as [piece|]; [|done]. exists piece. split; [done|].
      unfold colorIs in Hcell |- *. destruct (bool_decide (p_color piece = color)) eqn:Hcol;
        [|done]. apply bool_decide_eq_true in Hcol. split; [done|]. cbn [negb] in Hcell.
      destruct (typeIs (p_type piece) pawn); [|done].
      apply andb_true_iff in Hcell as [H1 H2]. apply bool_decide_eq_true in H1.
      split; [done|]. apply orb_true_iff in H2 as [H2|H2]; apply bool_decide_eq_true in H2; lia.
    - intros ([r c] & Hv & piece & Hat & Hcol & Hatt). apply isValidCoord_range in Hv.
      cbn [row col] in *. exists r. split; [apply range8_In; lia|].
      apply existsb_exists. exists c. split; [apply range8_In; lia|].
      unfold at_ in Hat. cbn [row col] in Hat. rewrite Hat.
      unfold colorIs in *. rewrite (bool_decide_eq_true_2 _ Hcol). cbn [negb].
      destruct (typeIs (p_type piece) pawn); [|done].
      destruct Hatt as [H1 H2]. rewrite (bool_decide_eq_true_2 _ H1). cbn [andb].
      apply orb_true_iff.
      destruct (decide (c - 1 = col pos)); [left|right]; apply bool_decide_eq_true; lia. }
  split; [exact Hexact|].
  intros piece Hpos Hat Hcol Hkind. apply Hexact. exists pos. split; [done|].
  exists piece. split; [done|]. split; [done|].
  unfold typeIs, ValidatorFactory.getValidatorCached.
  pose proof (sliding_self board pos) as [Hrook Hbishop].
  destruct Hkind as [-> | [-> | [-> | ->]]]; rewrite bool_decide_eq_false_2 by done;
    cbn [isValidMove].
  - unfold KingValidator.isValidMove. apply andb_true_iff. split; apply Z.leb_le; lia.
  - unfold QueenValidator.isValidMove. by rewrite Hbishop.
  - done.
  - done.
Qed.

Lemma attack_computation_exact_witness :
  isValidCoord (Play.sq 0 0) = true /\
  at_ BoardUtils.createInitialBoard (Play.sq 0 0) = Some (mkPiece rook white false) /\
  Game._calculateIsSquareAttacked BoardUtils.createInitialBoard (Play.sq 0 0) white = true.
Proof.
  split; [reflexivity|]. split; [reflexivity|].
  exact (proj2 (attack_computation_exact BoardUtils.createInitialBoard (Play.sq 0 0) white)
               (mkPiece rook white false) eq_refl eq_refl eq_refl
               (or_intror (or_intror (or_introl eq_refl)))).
Defined.

(** ** Move notation *)

Section Notation.
Import MoveNotation.

Lemma string_app_assoc (a b c : string) : (a +:+ b) +:+ c = a +:+ (b +:+ c).
Proof.
  induction a as [|ch a IH]; [done|].
  change (String ch ((a +:+ b) +:+ c) = String ch (a +:+ (b +:+ c))). by rewrite IH.
Qed.

Lemma ambiguousPieces_In move board q :
  In q (ambiguousPieces move board) <->
  isValidCoord q = true /\ q <> m_from move /\
  exists other, at_ board q = Some other /\
                p_type other = p_type (m_piece move) /\
                p_color other = p_color (m_piece move) /\
                isValidMove (ValidatorFactory.getValidator other) board q (m_to move) = true.
Proof.
  unfold ambiguousPieces. rewrite in_flat_map. split.
  - intros (r & Hr & Hin). apply in_flat_map in Hin as (c & Hc & Hin).
    apply range8_In in Hr, Hc.
    destruct (bool_decide (r = row (m_from move)) && bool_decide (c = col (m_from move)))
      eqn:Hsame; [done|].
    destruct (idx board r c) as [other|] eqn:Hother; [|done].
    unfold typeIs, colorIs in Hin.
    destruct (bool_decide (p_type other = p_type (m_piece move))) eqn:Hty; [|done].
    destruct (bool_decide (p_color other = p_color (m_piece move))) eqn:Hcol; [|done].
    cbn [andb] in Hin.
    destruct (isValidMove _ board (mkCoord r c) (m_to move)) eqn:Hvalid; [|done].
    destruct Hin as [<-|[]]. apply bool_decide_eq_true in Hty, Hcol.
    split; [apply isValidCoord_range; cbn; lia|]. split.
    + intros E. rewrite <- E in Hsame. cbn [row col] in Hsame.
      by rewrite !bool_decide_eq_true_2 in Hsame.
    + by exists other.
  - intros (Hv & Hne & other & Hat & Hty & Hcol & Hvalid). apply isValidCoord_range in Hv.
    exists (row q). split; [apply range8_In; lia|].
    apply in_flat_map. exists (col q). split; [apply range8_In; lia|].
    destruct (bool_decide (row q = row (m_from move)) && bool_decide (col q = col (m_from move)))
      eqn:Hsame.
    { apply andb_true_iff in Hsame as [H1 H2]. apply bool_decide_eq_true in H1, H2.
      destruct Hne. destruct q as [qr qc], (m_from move) as [fr fc]. cbn in *. by subst. }
    unfold at_ in Hat. rewrite Hat. unfold typeIs, colorIs.
    rewrite !bool_decide_eq_true_2 by done. cbn [andb].
    replace (mkCoord (row q) (col q)) with q by by destruct q.
    rewrite Hvalid. by left.
Qed.

End Notation.

(** X30. The notation of a move is the notation without check marks
    followed by '#' for mate, else '+' for check; a castling move is
    written O-O or O-O-O whatever the board.  The squares collected for
    disambiguation are exactly the squares of the board, other than the
    origin, that hold a piece of the type and colour of the moving piece
    for which the move to the destination passes [isValidMove].  The hint
    printed after the piece letter is empty when there is no such square,
    the file of the origin when none of them is on that file, else the
    rank of the origin when none of them is on that rank, else both. *)
Theorem move_notation_parts (move : Move) (board : BoardState)
    (isCheck isCheckmate : bool) :
  let rivals := MoveNotation.ambiguousPieces move board in
  let file := String (FenGenerator.fromCharCode (97 + col (m_from move))) "" in
  let rank := pretty (row (m_from move) + 1) in
  MoveNotation.getMoveNotation move board isCheck isCheckmate
  = MoveNotation.getMoveNotation move board false false
    +:+ (if isCheckmate then "#" else if isCheck then "+" else "") /\
  (forall side, m_isCastling move = Some side ->
     MoveNotation.getMoveNotation move board false false
     = match side with kingside => "O-O" | queenside => "O-O-O" end) /\
  (forall q, In q rivals <->
     isValidCoord q = true /\ q <> m_from move /\
     exists other, at_ board q = Some other /\
                   p_type other = p_type (m_piece move) /\
                   p_color other = p_color (m_piece move) /\
                   isValidMove (ValidatorFactory.getValidator other) board q (m_to move)
                   = true) /\
  (MoveNotation.getDisambiguation move board
   = if bool_decide (rivals = []) then ""
     else if bool_decide (Forall (fun q => col q <> col (m_from move)) rivals) then file
     else if bool_decide (Forall (fun q => row q <> row (m_from move)) rivals) then rank
     else file +:+ rank).
Proof.
  cbv zeta. split; [|split; [|split]].
  - unfold MoveNotation.getMoveNotation, MoveNotation.checkSuffix.
    destruct (m_isCastling move) as [side|].
    + by rewrite string_app_assoc.
    + by rewrite string_app_assoc.
  - intros side Hside. unfold MoveNotation.getMoveNotation. rewrite Hside.
    by destruct side.
  - apply ambiguousPieces_In.
  - unfold MoveNotation.getDisambiguation.
    case_bool_decide as Hnil; [done|].
    assert (Hex : forall (f : BoardCoord -> Z) (v : Z) (l : list BoardCoord),
               negb (existsb (fun p => bool_decide (f p = v)) l)
               = bool_decide (Forall (fun q => f q <> v) l)).
    { intros f v l. induction l as [|x l IH]; cbn [existsb].
      - rewrite bool_decide_eq_true_2; [done|constructor].
      - destruct (bool_decide (f x = v)) eqn:Hx; cbn [orb negb].
        + apply bool_decide_eq_true in Hx. symmetry. apply bool_decide_eq_false.
          by intros [? _]%Forall_cons.
        + apply bool_decide_eq_false in Hx. rewrite IH. apply bool_decide_ext.
          rewrite Forall_cons. tauto. }
    rewrite (Hex col), (Hex row).
    destruct (bool_decide (Forall _ _)); [done|].
    by destruct (bool_decide (Forall _ _)).
Qed.
